(** * Deshavu: a verified model of the client-side video library

    The development embeds the application code of the repository
    (the Dexie wrapper [services/db.ts], the authentication context, the
    Gemini service wrapper [services/geminiService.ts], the upload modal
    and the [App] component) as executable Rocq functions and proves the
    properties the specification states about them.

    Asynchronous functions are written in a small monad [Async] that
    threads the mutable state of the page (the embedded store, the session
    storage and the React state of the components), carries promise
    rejection, and records which promises an operation awaits.  Everything
    outside the repository (the generative-AI service, the browser's video
    and canvas elements, the clock and the random generator) is read from an
    environment [Env] of oracles, so every statement below holds for every
    behaviour of those collaborators. *)

From Stdlib Require Import List String Ascii Bool Arith NArith ZArith QArith.
From Stdlib Require Import Lia Sorted Permutation DecimalString OrderedTypeEx.
From Stdlib Require Import DecimalPos DecimalZ.
Import ListNotations.
Local Open Scope string_scope.
Local Open Scope list_scope.

Set Implicit Arguments.

(* ================================================================== *)
(** * JavaScript values *)

(** A JavaScript [number].  Finite values are kept as exact rationals: the
    statements about numbers below are about which quotients and products
    the code forms, not about rounding. *)
Inductive JsNumber : Type :=
| Finite (q : Q)
| PosInfinity
| NegInfinity
| NaN.

(** [isFinite(x)] *)
Definition isFinite (x : JsNumber) : bool :=
  match x with Finite _ => true | _ => false end.

(** [x === 0] *)
Definition isZero (x : JsNumber) : bool :=
  match x with Finite q => Qeq_bool q 0 | _ => false end.

(** [x / n] and [i * x] for positive integers [n] and [i]. *)
Definition jsDivPos (x : JsNumber) (n : positive) : JsNumber :=
  match x with
  | Finite q => Finite (q / inject_Z (Z.pos n))
  | other => other
  end.

Definition jsMulPos (i : positive) (x : JsNumber) : JsNumber :=
  match x with
  | Finite q => Finite (inject_Z (Z.pos i) * q)
  | other => other
  end.

(** [String(n)] for an integer. *)
Definition string_of_Z (n : Z) : string :=
  NilEmpty.string_of_int (Z.to_int n).

(** [String.prototype.toLowerCase], on the ASCII letters. *)
Definition isUpper (c : ascii) : bool :=
  let n := nat_of_ascii c in (65 <=? n)%nat && (n <=? 90)%nat.

Definition lowerChar (c : ascii) : ascii :=
  if isUpper c then ascii_of_nat (nat_of_ascii c + 32) else c.

Fixpoint toLowerCase (s : string) : string :=
  match s with
  | EmptyString => EmptyString
  | String c r => String (lowerChar c) (toLowerCase r)
  end.

(** Two characters are the same letter when they are equal or one is the
    lower-case form of the other, which is an upper-case letter. *)
Definition sameLetter (a b : ascii) : bool :=
  Ascii.eqb a b
  || (isUpper a && Ascii.eqb b (lowerChar a))
  || (isUpper b && Ascii.eqb a (lowerChar b)).

(** [casingVariant s t]: [t] is [s] with the case of some letters changed. *)
Fixpoint casingVariant (s t : string) : bool :=
  match s, t with
  | EmptyString, EmptyString => true
  | String a s', String b t' => sameLetter a b && casingVariant s' t'
  | _, _ => false
  end.

(** [a.localeCompare(b)] on the identifiers the application generates
    ([vid-<digits>-<base 36>]): on that alphabet the collation order is the
    order of the code units. *)
Definition localeCompare (a b : string) : comparison := String.compare a b.

(** [xs.includes(x)] on an array of strings. *)
Definition includes (xs : list string) (x : string) : bool :=
  existsb (String.eqb x) xs.

(** The value carried by a rejected promise: an [Error] with its message, or
    something that is not an [Error] (a string, a DOM event). *)
Inductive Thrown : Type :=
| Error (message : string)
| NotAnError.

(* ================================================================== *)
(** * The data model ([types.ts]) *)

Record User : Type := {
  user_id : option Z;          (* id?: number, the auto-incremented key *)
  user_email : string
}.

Record Face : Type := {
  face_id : string;
  face_userId : Z;
  face_name : option string;   (* string | null *)
  face_image : string;
  face_description : string
}.

Record VideoSegment : Type := {
  seg_timestamp : JsNumber;
  seg_description : string
}.

Record OnScreenTextSegment : Type := {
  ost_timestamp : JsNumber;
  ost_text : string
}.

(** A browser [File]. *)
Record File : Type := {
  file_name : string;
  file_type : string;
  file_content : string
}.

Record Video : Type := {
  video_id : string;
  video_userId : Z;
  video_name : string;
  video_file : File;
  video_description : string;
  video_duration : JsNumber;
  video_faceIds : list string;
  video_segments : list VideoSegment;
  video_transcript : string;
  video_onScreenText : list OnScreenTextSegment
}.

(** [type UIVideo = Video & { url: string }] *)
Record UIVideo : Type := {
  ui_video : Video;
  ui_url : string
}.

Inductive Sender : Type := SenderUser | SenderAi.

Record ChatMessage : Type := {
  msg_id : string;
  msg_sender : Sender;
  msg_text : string;
  msg_videos : option (list UIVideo)   (* videos?: UIVideo[] *)
}.

(** [!user.id]: the key is missing or is [0]. *)
Definition falsyId (id : option Z) : bool :=
  match id with
  | None => true
  | Some k => Z.eqb k 0
  end.

(* ================================================================== *)
(** * The embedded store ([services/db.ts])

    A Dexie table is kept as the list of its records in primary-key order,
    which is the order in which IndexedDB returns them. *)

Section Table.
Variable R : Type.
Variable key : R -> string.

(** [table.get(k)] *)
Fixpoint table_get (k : string) (t : list R) : option R :=
  match t with
  | [] => None
  | r :: t' => if String.eqb (key r) k then Some r else table_get k t'
  end.

(** The record is placed before the first record with a greater key. *)
Fixpoint table_insert (r : R) (t : list R) : list R :=
  match t with
  | [] => [r]
  | r' :: t' =>
      if String.ltb (key r) (key r') then r :: r' :: t'
      else r' :: table_insert r t'
  end.

(** [table.add(r)]: refused ([None]) when the key is already in use. *)
Definition table_add (r : R) (t : list R) : option (list R) :=
  match table_get (key r) t with
  | Some _ => None
  | None => Some (table_insert r t)
  end.

(** [table.bulkAdd(rs)] outside a transaction: every record whose key is
    free is stored, and the call fails when at least one was refused.  The
    result is the table and whether every record was stored. *)
Fixpoint table_bulkAdd (rs : list R) (t : list R) : list R * bool :=
  match rs with
  | [] => (t, true)
  | r :: rs' =>
      match table_add r t with
      | Some t' => table_bulkAdd rs' t'
      | None => (fst (table_bulkAdd rs' t), false)
      end
  end.
End Table.

Record DB : Type := {
  db_users : list User;        (* users: '++id, &email' *)
  db_users_keygen : Z;         (* the key the generator hands out next *)
  db_videos : list Video;      (* videos: 'id, userId' *)
  db_faces : list Face         (* faces: 'id, userId' *)
}.

(** A database that was just created. *)
Definition emptyDB : DB :=
  {| db_users := []; db_users_keygen := 1%Z; db_videos := []; db_faces := [] |}.

(** [where('email').equalsIgnoreCase(email)]: the keys of the index whose
    lower-case form is the lower-case form of the needle. *)
Definition equalsIgnoreCase (needle : string) (u : User) : bool :=
  String.eqb (toLowerCase (user_email u)) (toLowerCase needle).

(** [.first()] of a collection over the [email] index: the matching record
    with the least email. *)
Fixpoint firstByEmail (matches : User -> bool) (t : list User) : option User :=
  match t with
  | [] => None
  | u :: t' =>
      if matches u then
        match firstByEmail matches t' with
        | Some v => if String.ltb (user_email v) (user_email u) then Some v else Some u
        | None => Some u
        end
      else firstByEmail matches t'
  end.

Definition db_getUserByEmail (email : string) (d : DB) : option User :=
  firstByEmail (equalsIgnoreCase email) (db_users d).

Definition db_getUserById (id : Z) (d : DB) : option User :=
  find (fun u => match user_id u with Some k => Z.eqb k id | None => false end)
       (db_users d).

(** [db.users.add({ email })]: the unique index on [email] refuses an email
    that is already stored; otherwise the record gets the next key. *)
Definition db_createUser (email : string) (d : DB) : option (Z * DB) :=
  if existsb (fun u => String.eqb (user_email u) email) (db_users d) then None
  else
    let k := db_users_keygen d in
    Some (k, {| db_users := db_users d ++ [{| user_id := Some k; user_email := email |}];
                db_users_keygen := Z.succ k;
                db_videos := db_videos d;
                db_faces := db_faces d |}).

Definition db_addVideo (v : Video) (d : DB) : option DB :=
  match table_add video_id v (db_videos d) with
  | Some t => Some {| db_users := db_users d; db_users_keygen := db_users_keygen d;
                      db_videos := t; db_faces := db_faces d |}
  | None => None
  end.

Definition db_getVideosForUser (userId : Z) (d : DB) : list Video :=
  filter (fun v => Z.eqb (video_userId v) userId) (db_videos d).

Definition db_addFaces (fs : list Face) (d : DB) : DB * bool :=
  let (t, ok) := table_bulkAdd face_id fs (db_faces d) in
  ({| db_users := db_users d; db_users_keygen := db_users_keygen d;
      db_videos := db_videos d; db_faces := t |}, ok).

Definition db_getFacesForUser (userId : Z) (d : DB) : list Face :=
  filter (fun f => Z.eqb (face_userId f) userId) (db_faces d).

(** [db.faces.update(faceId, { name })]: the number of records changed, which
    is 0 when there is no such face or when it already has this name. *)
Definition db_updateFaceName (faceId name : string) (d : DB) : Z * DB :=
  match table_get face_id faceId (db_faces d) with
  | None => (0%Z, d)
  | Some face =>
      let renamed :=
        {| db_users := db_users d; db_users_keygen := db_users_keygen d;
           db_videos := db_videos d;
           db_faces := map (fun f => if String.eqb (face_id f) faceId
                                     then {| face_id := face_id f; face_userId := face_userId f;
                                             face_name := Some name; face_image := face_image f;
                                             face_description := face_description f |}
                                     else f) (db_faces d) |} in
      match face_name face with
      | Some old => if String.eqb old name then (0%Z, d) else (1%Z, renamed)
      | None => (1%Z, renamed)
      end
  end.

(* ================================================================== *)
(** * The collaborators outside the repository *)

(** The bounding box of a face, as the AI service reports it. *)
Record Box : Type := {
  y_min : JsNumber;
  x_min : JsNumber;
  y_max : JsNumber;
  x_max : JsNumber
}.

(** One entry of [faces] in the arguments of [extractVideoDetails].  The
    function declaration gives [frameIndex] the type INTEGER. *)
Record AiFace : Type := {
  ai_frameIndex : Z;
  ai_description : string;
  ai_box : Box
}.

(** [functionCall.args].  A field is [None] when the service left it out or
    gave it a value that the check of [analyzeVideoContent] on that field
    refuses (not an array, [undefined]). *)
Record AnalysisArgs : Type := {
  args_description : option string;
  args_faces : option (list AiFace);
  args_segments : option (list VideoSegment);
  args_transcript : option string;
  args_onScreenText : option (list OnScreenTextSegment)
}.

(** What [ai.models.generateContent] does for the analysis request. *)
Inductive AnalyzeReply : Type :=
| AnalyzeThrows
| AnalyzeNoFunctionCall
| AnalyzeFunctionCall (name : string) (args : AnalysisArgs).

(** What [ai.models.generateContent] does for the search request, after
    [JSON.parse] of the text of the response. *)
Inductive SearchReply : Type :=
| SearchThrows                      (* the request fails or the text is not JSON *)
| SearchJsonOther                   (* JSON that is not an array of strings *)
| SearchJsonStrings (ids : list string).

Record Env : Type := {
  env_now : nat -> Z;                       (* the k-th call of Date.now() *)
  env_random : nat -> string;               (* the k-th Math.random().toString(36).substring(2, 9) *)
  env_createObjectURL : File -> string;
  env_showNumber : JsNumber -> string;      (* a number inside a template string *)
  env_search : string -> list (string * string) -> SearchReply;
  env_chat : string -> nat -> option string; (* response.text, or the request fails *)
  env_analyze : list string -> JsNumber -> AnalyzeReply;
  env_cropImage : string -> Box -> option string;   (* the image loads and is cropped *)
  env_getContext : bool;                    (* canvas.getContext('2d') is not null *)
  env_loadedmetadata : File -> option JsNumber;     (* video.duration, or onerror fires *)
  env_seeked : File -> JsNumber -> option string    (* the frame drawn when onseeked fires in time *)
}.

(* ================================================================== *)
(** * The state of the page *)

(** [AuthProvider] *)
Record AuthState : Type := {
  currentUser : option User;
  auth_isLoading : bool
}.

(** [App] *)
Record AppState : Type := {
  videos : list UIVideo;
  allFaces : list Face;
  chatHistory : list ChatMessage;
  isLoading : bool;
  error : option string;
  isModalOpen : bool;
  searchActive : bool;
  selectedFaceIds : list string
}.

(** [Auth]: the login form *)
Record LoginForm : Type := {
  login_email : string;
  login_password : string;
  login_error : option string;
  login_isLoading : bool;
  isSignupModalOpen : bool
}.

(** [SignupModal] *)
Record SignupForm : Type := {
  signup_email : string;
  signup_password : string;
  signup_error : option string;
  signup_isLoading : bool
}.

(** [VideoUploadModal] *)
Record ModalState : Type := {
  videoFile : option File;
  modal_error : option string;
  isAnalyzing : bool
}.

Record World : Type := {
  w_db : DB;
  w_session : option string;   (* sessionStorage['deshavu_userId'] *)
  w_auth : AuthState;
  w_loginForm : LoginForm;
  w_signupForm : SignupForm;
  w_app : AppState;
  w_modal : ModalState;
  w_nowCalls : nat;   (* calls of Date.now() so far *)
  w_randomCalls : nat   (* calls of Math.random() so far *)
}.

Definition with_db (f : DB -> DB) (w : World) : World :=
  {| w_db := f (w_db w); w_session := w_session w; w_auth := w_auth w;
     w_loginForm := w_loginForm w; w_signupForm := w_signupForm w; w_app := w_app w;
     w_modal := w_modal w; w_nowCalls := w_nowCalls w; w_randomCalls := w_randomCalls w |}.

Definition with_session (x : option string) (w : World) : World :=
  {| w_db := w_db w; w_session := x; w_auth := w_auth w;
     w_loginForm := w_loginForm w; w_signupForm := w_signupForm w; w_app := w_app w;
     w_modal := w_modal w; w_nowCalls := w_nowCalls w; w_randomCalls := w_randomCalls w |}.

Definition with_auth (f : AuthState -> AuthState) (w : World) : World :=
  {| w_db := w_db w; w_session := w_session w; w_auth := f (w_auth w);
     w_loginForm := w_loginForm w; w_signupForm := w_signupForm w; w_app := w_app w;
     w_modal := w_modal w; w_nowCalls := w_nowCalls w; w_randomCalls := w_randomCalls w |}.

Definition with_loginForm (f : LoginForm -> LoginForm) (w : World) : World :=
  {| w_db := w_db w; w_session := w_session w; w_auth := w_auth w;
     w_loginForm := f (w_loginForm w); w_signupForm := w_signupForm w; w_app := w_app w;
     w_modal := w_modal w; w_nowCalls := w_nowCalls w; w_randomCalls := w_randomCalls w |}.

Definition with_signupForm (f : SignupForm -> SignupForm) (w : World) : World :=
  {| w_db := w_db w; w_session := w_session w; w_auth := w_auth w;
     w_loginForm := w_loginForm w; w_signupForm := f (w_signupForm w); w_app := w_app w;
     w_modal := w_modal w; w_nowCalls := w_nowCalls w; w_randomCalls := w_randomCalls w |}.

Definition with_app (f : AppState -> AppState) (w : World) : World :=
  {| w_db := w_db w; w_session := w_session w; w_auth := w_auth w;
     w_loginForm := w_loginForm w; w_signupForm := w_signupForm w; w_app := f (w_app w);
     w_modal := w_modal w; w_nowCalls := w_nowCalls w; w_randomCalls := w_randomCalls w |}.

Definition with_modal (f : ModalState -> ModalState) (w : World) : World :=
  {| w_db := w_db w; w_session := w_session w; w_auth := w_auth w;
     w_loginForm := w_loginForm w; w_signupForm := w_signupForm w; w_app := w_app w;
     w_modal := f (w_modal w); w_nowCalls := w_nowCalls w; w_randomCalls := w_randomCalls w |}.

Definition with_nowCalls (f : nat -> nat) (w : World) : World :=
  {| w_db := w_db w; w_session := w_session w; w_auth := w_auth w;
     w_loginForm := w_loginForm w; w_signupForm := w_signupForm w; w_app := w_app w;
     w_modal := w_modal w; w_nowCalls := f (w_nowCalls w); w_randomCalls := w_randomCalls w |}.

Definition with_randomCalls (f : nat -> nat) (w : World) : World :=
  {| w_db := w_db w; w_session := w_session w; w_auth := w_auth w;
     w_loginForm := w_loginForm w; w_signupForm := w_signupForm w; w_app := w_app w;
     w_modal := w_modal w; w_nowCalls := w_nowCalls w; w_randomCalls := f (w_randomCalls w) |}.

Definition put_currentUser (u : option User) (a : AuthState) : AuthState :=
  {| currentUser := u; auth_isLoading := auth_isLoading a |}.

Definition put_auth_isLoading (b : bool) (a : AuthState) : AuthState :=
  {| currentUser := currentUser a; auth_isLoading := b |}.

Definition put_videos (vs : list UIVideo) (a : AppState) : AppState :=
  {| videos := vs; allFaces := allFaces a; chatHistory := chatHistory a;
     isLoading := isLoading a; error := error a; isModalOpen := isModalOpen a;
     searchActive := searchActive a; selectedFaceIds := selectedFaceIds a |}.

Definition put_allFaces (fs : list Face) (a : AppState) : AppState :=
  {| videos := videos a; allFaces := fs; chatHistory := chatHistory a;
     isLoading := isLoading a; error := error a; isModalOpen := isModalOpen a;
     searchActive := searchActive a; selectedFaceIds := selectedFaceIds a |}.

Definition put_chatHistory (h : list ChatMessage) (a : AppState) : AppState :=
  {| videos := videos a; allFaces := allFaces a; chatHistory := h;
     isLoading := isLoading a; error := error a; isModalOpen := isModalOpen a;
     searchActive := searchActive a; selectedFaceIds := selectedFaceIds a |}.

Definition put_isLoading (b : bool) (a : AppState) : AppState :=
  {| videos := videos a; allFaces := allFaces a; chatHistory := chatHistory a;
     isLoading := b; error := error a; isModalOpen := isModalOpen a;
     searchActive := searchActive a; selectedFaceIds := selectedFaceIds a |}.

Definition put_error (e : option string) (a : AppState) : AppState :=
  {| videos := videos a; allFaces := allFaces a; chatHistory := chatHistory a;
     isLoading := isLoading a; error := e; isModalOpen := isModalOpen a;
     searchActive := searchActive a; selectedFaceIds := selectedFaceIds a |}.

Definition put_isModalOpen (b : bool) (a : AppState) : AppState :=
  {| videos := videos a; allFaces := allFaces a; chatHistory := chatHistory a;
     isLoading := isLoading a; error := error a; isModalOpen := b;
     searchActive := searchActive a; selectedFaceIds := selectedFaceIds a |}.

Definition put_searchActive (b : bool) (a : AppState) : AppState :=
  {| videos := videos a; allFaces := allFaces a; chatHistory := chatHistory a;
     isLoading := isLoading a; error := error a; isModalOpen := isModalOpen a;
     searchActive := b; selectedFaceIds := selectedFaceIds a |}.

Definition put_selectedFaceIds (ids : list string) (a : AppState) : AppState :=
  {| videos := videos a; allFaces := allFaces a; chatHistory := chatHistory a;
     isLoading := isLoading a; error := error a; isModalOpen := isModalOpen a;
     searchActive := searchActive a; selectedFaceIds := ids |}.

Definition put_login_error (e : option string) (f : LoginForm) : LoginForm :=
  {| login_email := login_email f; login_password := login_password f; login_error := e;
     login_isLoading := login_isLoading f; isSignupModalOpen := isSignupModalOpen f |}.

Definition put_login_isLoading (b : bool) (f : LoginForm) : LoginForm :=
  {| login_email := login_email f; login_password := login_password f;
     login_error := login_error f; login_isLoading := b;
     isSignupModalOpen := isSignupModalOpen f |}.

Definition put_isSignupModalOpen (b : bool) (f : LoginForm) : LoginForm :=
  {| login_email := login_email f; login_password := login_password f;
     login_error := login_error f; login_isLoading := login_isLoading f;
     isSignupModalOpen := b |}.

Definition put_signup_error (e : option string) (f : SignupForm) : SignupForm :=
  {| signup_email := signup_email f; signup_password := signup_password f;
     signup_error := e; signup_isLoading := signup_isLoading f |}.

Definition put_signup_isLoading (b : bool) (f : SignupForm) : SignupForm :=
  {| signup_email := signup_email f; signup_password := signup_password f;
     signup_error := signup_error f; signup_isLoading := b |}.

Definition put_modal_error (e : option string) (m : ModalState) : ModalState :=
  {| videoFile := videoFile m; modal_error := e; isAnalyzing := isAnalyzing m |}.

Definition put_isAnalyzing (b : bool) (m : ModalState) : ModalState :=
  {| videoFile := videoFile m; modal_error := modal_error m; isAnalyzing := b |}.

(* ================================================================== *)
(** * Promises *)

(** The promises of the collaborators that the code waits for. *)
Inductive Call : Type :=
| CallGetUserByEmail (email : string)
| CallGetUserById (id : JsNumber)
| CallCreateUser (email : string)
| CallAddVideo (id : string)
| CallGetVideosForUser (userId : Z)
| CallAddFaces (ids : list string)
| CallGetFacesForUser (userId : Z)
| CallUpdateFaceName (faceId name : string)
| CallSearch (query : string) (candidates : list (string * string))
| CallChat (query : string) (count : nat)
| CallAnalyze (frames : list string)
| CallCropFace (frame : string)
| CallLoadMetadata (file : File)
| CallPlay
| CallSeek (time : JsNumber).

(** What an operation does with promises, in order: it awaits one promise;
    it awaits the promises handed to one [Promise.all] (each with the calls it
    makes); it starts a promise of a collaborator that it never awaits; or it
    calls an [async] function of the program without awaiting it, and the
    next [n] events are those of that function. *)
Inductive Event : Type :=
| Await (c : Call)
| AwaitAll (branches : list (list Call))
| Started (c : Call)
| Unawaited (n : nat).

Definition Trace : Type := list Event.

Definition calls_of (t : Trace) : list Call :=
  flat_map (fun e => match e with
                    | Await c => [c]
                    | AwaitAll bs => List.concat bs
                    | Started c => [c]
                    | Unawaited _ => []
                    end) t.

Inductive Outcome (A : Type) : Type :=
| Resolved (a : A)
| Rejected (e : Thrown).
Arguments Rejected {A} e.

Record Run (A : Type) : Type := mkRun {
  outcome : Outcome A;
  world : World;
  trace : Trace
}.

(** An [async] function: from the environment and the state of the page to
    how its promise settles, the state it leaves and what it waited for. *)
Definition Async (A : Type) : Type := Env -> World -> Run A.

Definition ret {A} (a : A) : Async A :=
  fun _ w => mkRun (Resolved a) w [].

(** [throw e] *)
Definition throw {A} (e : Thrown) : Async A :=
  fun _ w => mkRun (Rejected e) w [].

Definition bind {A B} (m : Async A) (k : A -> Async B) : Async B :=
  fun env w =>
    match m env w with
    | mkRun (Resolved a) w1 t1 =>
        match k a env w1 with
        | mkRun o w2 t2 => mkRun o w2 (t1 ++ t2)
        end
    | mkRun (Rejected e) w1 t1 => mkRun (Rejected e) w1 t1
    end.

Notation "x <- m ;; k" := (bind m (fun x => k))
  (at level 61, m at next level, right associativity).
Notation "m ;; k" := (bind m (fun _ => k))
  (at level 61, right associativity).

(** [try { m } catch (err) { h err }] *)
Definition try_catch {A} (m : Async A) (h : Thrown -> Async A) : Async A :=
  fun env w =>
    match m env w with
    | mkRun (Resolved a) w1 t1 => mkRun (Resolved a) w1 t1
    | mkRun (Rejected e) w1 t1 =>
        match h e env w1 with
        | mkRun o w2 t2 => mkRun o w2 (t1 ++ t2)
        end
    end.

(** [try { m } finally { f }] *)
Definition try_finally {A} (m : Async A) (f : Async unit) : Async A :=
  fun env w =>
    match m env w with
    | mkRun o w1 t1 =>
        match f env w1 with
        | mkRun (Resolved _) w2 t2 => mkRun o w2 (t1 ++ t2)
        | mkRun (Rejected e) w2 t2 => mkRun (Rejected e) w2 (t1 ++ t2)
        end
    end.

(** A promise of a collaborator that is started and never awaited. *)
Definition start (c : Call) : Async unit :=
  fun _ w => mkRun (Resolved tt) w [Started c].

(** A call of an [async] function whose promise nobody awaits: its effects
    happen, its result and its rejection are dropped. *)
Definition detached {A} (m : Async A) : Async unit :=
  fun env w =>
    match m env w with
    | mkRun _ w1 t1 => mkRun (Resolved tt) w1 (Unawaited (List.length t1) :: t1)
    end.

Definition ask : Async Env := fun env w => mkRun (Resolved env) w [].
Definition get : Async World := fun _ w => mkRun (Resolved w) w [].
Definition modify (f : World -> World) : Async unit :=
  fun _ w => mkRun (Resolved tt) (f w) [].

(** [await p] for a promise [p] of a collaborator that settles as [o]. *)
Definition await {A} (c : Call) (o : Outcome A) : Async A :=
  fun _ w => mkRun o w [Await c].

(** [await Promise.all([a, b])] *)
Definition all2 {A B} (a : Async A) (b : Async B) : Async (A * B) :=
  fun env w =>
    match a env w with
    | mkRun oa w1 t1 =>
        match b env w1 with
        | mkRun ob w2 t2 =>
            mkRun (match oa, ob with
                   | Resolved x, Resolved y => Resolved (x, y)
                   | Rejected e, _ => Rejected e
                   | _, Rejected e => Rejected e
                   end)
                  w2
                  [AwaitAll [calls_of t1; calls_of t2]]
        end
    end.

(** The promises of an array are started in order; each leaves its state
    to the next. *)
Fixpoint startAll {A} (ms : list (Async A)) (env : Env) (w : World)
  : list (Outcome A) * World * list (list Call) :=
  match ms with
  | [] => ([], w, [])
  | m :: ms' =>
      match m env w with
      | mkRun o w1 t1 =>
          let '(os, w', bs) := startAll ms' env w1 in
          (o :: os, w', calls_of t1 :: bs)
      end
  end.

(** [Promise.all] is rejected as soon as one promise is, and otherwise
    resolves to the array of the results. *)
Fixpoint settleAll {A} (os : list (Outcome A)) : Outcome (list A) :=
  match os with
  | [] => Resolved []
  | Rejected e :: _ => Rejected e
  | Resolved a :: os' =>
      match settleAll os' with
      | Resolved l => Resolved (a :: l)
      | Rejected e => Rejected e
      end
  end.

(** [await Promise.all(ms)] *)
Definition promiseAll {A} (ms : list (Async A)) : Async (list A) :=
  fun env w =>
    let '(os, w', bs) := startAll ms env w in
    mkRun (settleAll os) w' [AwaitAll bs].

(** [Date.now()] *)
Definition dateNow : Async Z :=
  fun env w => mkRun (Resolved (env_now env (w_nowCalls w))) (with_nowCalls S w) [].

(** [Math.random().toString(36).substring(2, 9)] *)
Definition randomSuffix : Async string :=
  fun env w => mkRun (Resolved (env_random env (w_randomCalls w))) (with_randomCalls S w) [].

(** [err instanceof Error ? err.message : fallback] *)
Definition messageOr (fallback : string) (err : Thrown) : string :=
  match err with
  | Error m => m
  | NotAnError => fallback
  end.

(* ================================================================== *)
(** * String helpers of the forms *)

(** The white space that [trim] and the class [\s] remove, on ASCII. *)
Definition isSpace (c : ascii) : bool :=
  let n := nat_of_ascii c in (n =? 32)%nat || ((9 <=? n)%nat && (n <=? 13)%nat).

Fixpoint trimStart (s : string) : string :=
  match s with
  | EmptyString => EmptyString
  | String c r => if isSpace c then trimStart r else s
  end.

Fixpoint trimEnd (s : string) : string :=
  match s with
  | EmptyString => EmptyString
  | String c r =>
      let r' := trimEnd r in
      if isSpace c && String.eqb r' "" then "" else String c r'
  end.

(** [s.trim()] *)
Definition trim (s : string) : string := trimEnd (trimStart s).

(** A string of one or more characters of the class [[^\s@]]. *)
Fixpoint plainChars (s : string) : bool :=
  match s with
  | EmptyString => true
  | String c r => negb (isSpace c) && negb (Ascii.eqb c "@") && plainChars r
  end.

(** The part of [s] before the first ["@"] and the part after it. *)
Fixpoint splitAt (s : string) : option (string * string) :=
  match s with
  | EmptyString => None
  | String c r =>
      if Ascii.eqb c "@" then Some ("", r)
      else match splitAt r with
           | Some (a, b) => Some (String c a, b)
           | None => None
           end
  end.

(** Some ["."] of [s] has a character before it and a character after it. *)
Fixpoint hasInnerDot (atStart : bool) (s : string) : bool :=
  match s with
  | EmptyString => false
  | String c r =>
      (Ascii.eqb c "." && negb atStart && negb (String.eqb r ""))
      || hasInnerDot false r
  end.

(** [/^[^\s@]+@[^\s@]+\.[^\s@]+$/.test(email)] *)
Definition validateEmail (email : string) : bool :=
  match splitAt email with
  | None => false
  | Some (name, domain) =>
      negb (String.eqb name "") && plainChars name
      && plainChars domain && hasInnerDot true domain
  end.

(* ================================================================== *)
(** * [services/db.ts] *)

Definition getUserByEmail (email : string) : Async (option User) :=
  w <- get ;;
  await (CallGetUserByEmail email) (Resolved (db_getUserByEmail email (w_db w))).

Definition getUserById (id : Z) : Async (option User) :=
  w <- get ;;
  await (CallGetUserById (Finite (inject_Z id))) (Resolved (db_getUserById id (w_db w))).

Definition createUser (email : string) : Async Z :=
  w <- get ;;
  match db_createUser email (w_db w) with
  | Some (k, d) =>
      modify (with_db (fun _ => d)) ;;
      await (CallCreateUser email) (Resolved k)
  | None => await (CallCreateUser email) (Rejected (Error "ConstraintError"))
  end.

Definition addVideo (video : Video) : Async string :=
  w <- get ;;
  match db_addVideo video (w_db w) with
  | Some d =>
      modify (with_db (fun _ => d)) ;;
      await (CallAddVideo (video_id video)) (Resolved (video_id video))
  | None => await (CallAddVideo (video_id video)) (Rejected (Error "ConstraintError"))
  end.

Definition getVideosForUser (userId : Z) : Async (list Video) :=
  w <- get ;;
  await (CallGetVideosForUser userId) (Resolved (db_getVideosForUser userId (w_db w))).

Definition addFaces (fs : list Face) : Async (list string) :=
  w <- get ;;
  let (d, ok) := db_addFaces fs (w_db w) in
  modify (with_db (fun _ => d)) ;;
  await (CallAddFaces (map face_id fs))
        (if ok then Resolved (map face_id fs) else Rejected (Error "BulkError")).

Definition getFacesForUser (userId : Z) : Async (list Face) :=
  w <- get ;;
  await (CallGetFacesForUser userId) (Resolved (db_getFacesForUser userId (w_db w))).

Definition updateFaceName (faceId name : string) : Async Z :=
  w <- get ;;
  let (n, d) := db_updateFaceName faceId name (w_db w) in
  modify (with_db (fun _ => d)) ;;
  await (CallUpdateFaceName faceId name) (Resolved n).

(* ================================================================== *)
(** * [AuthProvider] *)

Definition setCurrentUser (u : option User) : Async unit :=
  modify (with_auth (put_currentUser u)).

(** [String(user.id)] *)
Definition idString (u : User) : string :=
  match user_id u with
  | Some k => string_of_Z k
  | None => "undefined"
  end.

Definition login (email password : string) : Async unit :=
  user <- getUserByEmail email ;;
  match user with
  | Some u =>
      if falsyId (user_id u)
      then throw (Error "No account found with this email. Please sign up.")
      else
        setCurrentUser (Some u) ;;
        modify (with_session (Some (idString u)))
  | None => throw (Error "No account found with this email. Please sign up.")
  end.

Definition signup (email password : string) : Async unit :=
  existingUser <- getUserByEmail email ;;
  match existingUser with
  | Some _ => throw (Error "An account with this email already exists.")
  | None =>
      newUserId <- createUser email ;;
      newUser <- getUserById newUserId ;;
      match newUser with
      | Some u =>
          if falsyId (user_id u)
          then throw (Error "Failed to create a new user account.")
          else
            setCurrentUser (Some u) ;;
            modify (with_session (Some (idString u)))
      | None => throw (Error "Failed to create a new user account.")
      end
  end.

Definition logout : Async unit :=
  setCurrentUser None ;;
  modify (with_session None).

(** [parseInt(s, 10)] of the stored key: the number written by the leading
    decimal digits, [None] (NaN) when there is none. *)
Definition isDigit (c : ascii) : bool :=
  let n := nat_of_ascii c in (48 <=? n)%nat && (n <=? 57)%nat.

Fixpoint digitsValue (acc : Z) (s : string) : Z :=
  match s with
  | EmptyString => acc
  | String c r =>
      if isDigit c
      then digitsValue (acc * 10 + Z.of_nat (nat_of_ascii c - 48))%Z r
      else acc
  end.

Definition parseInt10 (s : string) : option Z :=
  match trimStart s with
  | String "-" (String c r) =>
      if isDigit c then Some (- digitsValue 0 (String c r))%Z else None
  | String "+" (String c r) =>
      if isDigit c then Some (digitsValue 0 (String c r)) else None
  | String c r =>
      if isDigit c then Some (digitsValue 0 (String c r)) else None
  | EmptyString => None
  end.

Definition checkLoggedInUser : Async unit :=
  try_finally
    (try_catch
       (w <- get ;;
        match w_session w with
        | Some userIdStr =>
            if String.eqb userIdStr "" then ret tt
            else
              user <- match parseInt10 userIdStr with
                      | Some userId => getUserById userId
                      | None =>         (* users.get(NaN): not a valid key *)
                          await (CallGetUserById NaN) (Rejected (Error "DataError"))
                      end ;;
              setCurrentUser user
        | None => ret tt
        end)
       (fun _ => setCurrentUser None))
    (modify (with_auth (put_auth_isLoading false))).

(* ================================================================== *)
(** * [Auth] and [SignupModal] *)

Definition handleLogin : Async unit :=
  w <- get ;;
  let email := login_email (w_loginForm w) in
  let password := login_password (w_loginForm w) in
  if String.eqb (trim email) "" || String.eqb (trim password) "" then
    modify (with_loginForm (put_login_error (Some "Please enter your email and password.")))
  else if negb (validateEmail email) then
    modify (with_loginForm (put_login_error (Some "Please enter a valid email address.")))
  else
    modify (with_loginForm (put_login_isLoading true)) ;;
    modify (with_loginForm (put_login_error None)) ;;
    try_finally
      (try_catch
         (login email password)
         (fun err =>
            modify (with_loginForm (put_login_error
              (Some (messageOr "An unknown error occurred. Please sign up if you are a new user." err))))))
      (modify (with_loginForm (put_login_isLoading false))).

Definition handleSignup (onClose : Async unit) : Async unit :=
  w <- get ;;
  let email := signup_email (w_signupForm w) in
  let password := signup_password (w_signupForm w) in
  if String.eqb (trim email) "" || String.eqb (trim password) "" then
    modify (with_signupForm (put_signup_error (Some "Please enter both email and password.")))
  else if negb (validateEmail email) then
    modify (with_signupForm (put_signup_error (Some "Please enter a valid email address.")))
  else if (String.length password <? 6)%nat then
    modify (with_signupForm (put_signup_error (Some "Password must be at least 6 characters long.")))
  else
    modify (with_signupForm (put_signup_isLoading true)) ;;
    modify (with_signupForm (put_signup_error None)) ;;
    try_finally
      (try_catch
         (signup email password ;; onClose)
         (fun err =>
            modify (with_signupForm (put_signup_error
              (Some (messageOr "An unknown error occurred." err))))))
      (modify (with_signupForm (put_signup_isLoading false))).

(* ================================================================== *)
(** * [services/geminiService.ts] *)

Definition string_of_nat (n : nat) : string := string_of_Z (Z.of_nat n).

(** [videos.map(({ id, description }) => ({ id, description }))] *)
Definition simplifiedVideos (vs : list UIVideo) : list (string * string) :=
  map (fun v => (video_id (ui_video v), video_description (ui_video v))) vs.

Definition findMatchingVideos (query : string) (vs : list UIVideo) : Async (list string) :=
  if (List.length vs =? 0)%nat then ret []
  else
    try_catch
      (env <- ask ;;
       matchingIds <- await (CallSearch query (simplifiedVideos vs))
                        (match env_search env query (simplifiedVideos vs) with
                         | SearchThrows => Rejected NotAnError
                         | reply => Resolved reply
                         end) ;;
       match matchingIds with
       | SearchJsonStrings ids => ret ids
       | _ => ret []
       end)
      (fun _ => throw (Error "Failed to search videos. Please try again.")).

Definition generateChatResponse (userQuery : string) (foundVideosCount : nat)
  : Async string :=
  try_catch
    (env <- ask ;;
     text <- await (CallChat userQuery foundVideosCount)
               (match env_chat env userQuery foundVideosCount with
                | Some text => Resolved text
                | None => Rejected NotAnError
                end) ;;
     ret (trim text))
    (fun _ =>
       (* Fallback to a simple response in case of an error *)
       if (0 <? foundVideosCount)%nat
       then ret ("I found " ++ string_of_nat foundVideosCount
                 ++ " video(s) that match your memory.")%string
       else ret "I couldn't find any videos matching that memory.").

Definition cropFace (base64Frame : string) (box : Box) : Async string :=
  env <- ask ;;
  await (CallCropFace base64Frame)
        (match env_cropImage env base64Frame box with
         | Some image => Resolved image
         | None => Rejected NotAnError
         end).

Record AnalyzedFace : Type := {
  af_description : string;
  af_image : string
}.

Record VideoAnalysisResult : Type := {
  ar_description : string;
  ar_faces : list AnalyzedFace;
  ar_segments : list VideoSegment;
  ar_transcript : string;
  ar_onScreenText : list OnScreenTextSegment
}.

(** [base64Frames[i]]: [None] is [undefined]. *)
Definition frameAt (base64Frames : list string) (i : Z) : option string :=
  if (i <? 0)%Z then None else nth_error base64Frames (Z.to_nat i).

(** The callback of [faces.map] in [analyzeVideoContent]. *)
Definition cropOne (base64Frames : list string) (face : AiFace)
  : Async (option AnalyzedFace) :=
  match frameAt base64Frames (ai_frameIndex face) with
  | None => ret None
  | Some frame =>
      if String.eqb frame "" then ret None      (* !frame *)
      else
        croppedImage <- cropFace frame (ai_box face) ;;
        ret (Some {| af_description := ai_description face; af_image := croppedImage |})
  end.

(** [xs.filter(Boolean)] *)
Fixpoint filterBoolean {A} (xs : list (option A)) : list A :=
  match xs with
  | [] => []
  | Some a :: xs' => a :: filterBoolean xs'
  | None :: xs' => filterBoolean xs'
  end.

Definition analyzeVideoContent (base64Frames : list string) (videoDuration : JsNumber)
  : Async VideoAnalysisResult :=
  try_catch
    (env <- ask ;;
     response <- await (CallAnalyze base64Frames)
                   (match env_analyze env base64Frames videoDuration with
                    | AnalyzeThrows => Rejected NotAnError
                    | reply => Resolved reply
                    end) ;;
     match response with
     | AnalyzeFunctionCall name args =>
         if negb (String.eqb name "extractVideoDetails")
         then throw (Error "AI did not return the expected analysis data.")
         else
           match args_description args, args_faces args, args_segments args,
                 args_transcript args, args_onScreenText args with
           | Some description, Some faces, Some segments, Some transcript,
             Some onScreenText =>
               if String.eqb description ""
               then throw (Error "Invalid data structure returned from AI.")
               else
                 faceCrops <- promiseAll (map (cropOne base64Frames) faces) ;;
                 ret {| ar_description := description;
                        ar_faces := filterBoolean faceCrops;
                        ar_segments := segments;
                        ar_transcript := transcript;
                        ar_onScreenText := onScreenText |}
           | _, _, _, _, _ => throw (Error "Invalid data structure returned from AI.")
           end
     | _ => throw (Error "AI did not return the expected analysis data.")
     end)
    (fun _ => throw (Error "Failed to analyze video content with face detection.")).

(* ================================================================== *)
(** * [VideoUploadModal] *)

Definition captureFrameAt (videoFile : File) (time : JsNumber) : Async string :=
  env <- ask ;;
  await (CallSeek time)
        (match env_seeked env videoFile time with
         | Some base64Data => Resolved base64Data
         | None =>
             Rejected (Error ("Seek timed out at " ++ env_showNumber env time ++ "s")%string)
         end).

(** [for (let i = ...; i <= frameCount; i++) await captureFrameAt(i * interval)]
    with [remaining] iterations to go; [frames] is the array filled so far. *)
Fixpoint captureLoop (videoFile : File) (interval : JsNumber) (i : positive)
  (remaining : nat) (frames : list string) : Async (list string) :=
  match remaining with
  | O => ret frames
  | S remaining' =>
      base64Data <- captureFrameAt videoFile (jsMulPos i interval) ;;
      captureLoop videoFile interval (Pos.succ i) remaining' (frames ++ [base64Data])
  end.

Definition extractFrames (videoFile : File) (frameCount : nat)
  : Async (list string * JsNumber) :=
  env <- ask ;;
  if negb (env_getContext env) then throw (Error "Could not get canvas context")
  else
    duration <- await (CallLoadMetadata videoFile)
                  (match env_loadedmetadata env videoFile with
                   | Some duration => Resolved duration
                   | None =>
                       Rejected (Error "Error loading video for frame extraction. The file might be corrupt or in an unsupported format.")
                   end) ;;
    start CallPlay ;;
    if isZero duration || negb (isFinite duration)
    then throw (Error "Video has no duration or is invalid.")
    else
      let interval := jsDivPos duration (Pos.of_succ_nat frameCount) in
      try_catch
        (frames <- captureLoop videoFile interval 1 frameCount [] ;;
         ret (frames, duration))
        (fun error => throw error).

Definition setModalError (e : option string) : Async unit :=
  modify (with_modal (put_modal_error e)).

Definition setIsAnalyzing (b : bool) : Async unit :=
  modify (with_modal (put_isAnalyzing b)).

Definition handleSubmit
  (onUpload : File -> VideoAnalysisResult -> JsNumber -> Async unit)
  (onClose : Async unit) : Async unit :=
  w <- get ;;
  match videoFile (w_modal w) with
  | None => setModalError (Some "Please select a video file.")
  | Some file =>
      setIsAnalyzing true ;;
      setModalError None ;;
      try_finally
        (try_catch
           (extracted <- extractFrames file 12 ;;
            let (frames, duration) := extracted in
            if (List.length frames =? 0)%nat
            then throw (Error "Could not extract frames from the video.")
            else
              analysisResult <- analyzeVideoContent frames duration ;;
              detached (onUpload file analysisResult duration) ;;
              onClose)
           (fun err =>
              setModalError
                (Some ("Analysis failed: "
                       ++ messageOr "An unknown error occurred during analysis." err)%string)))
        (setIsAnalyzing false)
  end.

(* ================================================================== *)
(** * [App] *)

Definition setVideos (vs : list UIVideo) : Async unit :=
  modify (with_app (put_videos vs)).
Definition setAllFaces (fs : list Face) : Async unit :=
  modify (with_app (put_allFaces fs)).
Definition setIsLoading (b : bool) : Async unit :=
  modify (with_app (put_isLoading b)).
Definition setError (e : option string) : Async unit :=
  modify (with_app (put_error e)).
Definition setSearchActive (b : bool) : Async unit :=
  modify (with_app (put_searchActive b)).
Definition setIsModalOpen (b : bool) : Async unit :=
  modify (with_app (put_isModalOpen b)).
Definition setSelectedFaceIds (ids : list string) : Async unit :=
  modify (with_app (put_selectedFaceIds ids)).

(** [setChatHistory(prev => [...prev, m])] *)
Definition appendChat (m : ChatMessage) : Async unit :=
  modify (with_app (fun a => put_chatHistory (chatHistory a ++ [m]) a)).

(** [currentUser?.id] when it is truthy. *)
Definition truthyUserId (u : option User) : option Z :=
  match u with
  | Some u' =>
      match user_id u' with
      | Some k => if Z.eqb k 0 then None else Some k
      | None => None
      end
  | None => None
  end.

Definition loadUserData : Async unit :=
  w <- get ;;
  match truthyUserId (currentUser (w_auth w)) with
  | None => ret tt
  | Some userId =>
      setIsLoading true ;;
      try_finally
        (try_catch
           (loaded <- all2 (getVideosForUser userId) (getFacesForUser userId) ;;
            let (dbVideos, dbFaces) := loaded in
            env <- ask ;;
            let videosWithUrls :=
              map (fun v => {| ui_video := v;
                               ui_url := env_createObjectURL env (video_file v) |})
                  dbVideos in
            setVideos videosWithUrls ;;
            setAllFaces dbFaces)
           (fun _ => setError (Some "Could not load user data from the database.")))
        (setIsLoading false)
  end.

(** The callback of [analysisResult.faces.map] in [handleUpload]: it pushes
    the new face on [newFaces] and returns its id. *)
Fixpoint collectFaces (userId : Z) (faces : list AnalyzedFace) (newFaces : list Face)
  : Async (list string * list Face) :=
  match faces with
  | [] => ret ([], newFaces)
  | faceData :: faces' =>
      now <- dateNow ;;
      suffix <- randomSuffix ;;
      let faceId := ("face-" ++ string_of_Z now ++ "-" ++ suffix)%string in
      let face := {| face_id := faceId;
                     face_userId := userId;
                     face_name := None;
                     face_image := af_image faceData;
                     face_description := af_description faceData |} in
      rest <- collectFaces userId faces' (newFaces ++ [face]) ;;
      ret (faceId :: fst rest, snd rest)
  end.

Definition handleUpload (file : File) (analysisResult : VideoAnalysisResult)
  (duration : JsNumber) : Async unit :=
  w <- get ;;
  match truthyUserId (currentUser (w_auth w)) with
  | None => ret tt
  | Some userId =>
      collected <- collectFaces userId (ar_faces analysisResult) [] ;;
      let (newFaceIds, newFaces) := collected in
      (if (0 <? List.length newFaces)%nat
       then (addFaces newFaces ;; ret tt)
       else ret tt) ;;
      now <- dateNow ;;
      suffix <- randomSuffix ;;
      let newVideo := {| video_id := ("vid-" ++ string_of_Z now ++ "-" ++ suffix)%string;
                         video_userId := userId;
                         video_name := file_name file;
                         video_file := file;
                         video_description := ar_description analysisResult;
                         video_duration := duration;
                         video_faceIds := newFaceIds;
                         video_segments := ar_segments analysisResult;
                         video_transcript := ar_transcript analysisResult;
                         video_onScreenText := ar_onScreenText analysisResult |} in
      addVideo newVideo ;;
      loadUserData
  end.

(** [selectedFaceIds.every(faceId => video.faceIds.includes(faceId))] *)
Definition hasEveryFace (selected : list string) (video : UIVideo) : bool :=
  forallb (fun faceId => includes (video_faceIds (ui_video video)) faceId) selected.

(** The candidates that [handleSearch] hands to [findMatchingVideos]. *)
Definition videosToSearch (vs : list UIVideo) (selected : list string) : list UIVideo :=
  if (0 <? List.length selected)%nat then filter (hasEveryFace selected) vs else vs.

Definition handleSearch (query : string) : Async unit :=
  w <- get ;;
  let vs := videos (w_app w) in
  let selected := selectedFaceIds (w_app w) in
  setIsLoading true ;;
  setSearchActive true ;;
  setError None ;;
  now <- dateNow ;;
  appendChat {| msg_id := ("msg-" ++ string_of_Z now)%string;
                msg_sender := SenderUser;
                msg_text := query;
                msg_videos := None |} ;;
  try_finally
    (try_catch
       (matchingIds <- findMatchingVideos query (videosToSearch vs selected) ;;
        let matchingVideos :=
          filter (fun v => includes matchingIds (video_id (ui_video v))) vs in
        aiResponseText <- generateChatResponse query (List.length matchingVideos) ;;
        now' <- dateNow ;;
        appendChat {| msg_id := ("msg-" ++ string_of_Z (now' + 1))%string;
                      msg_sender := SenderAi;
                      msg_text := aiResponseText;
                      msg_videos := Some matchingVideos |})
       (fun err =>
          let errorMessage := messageOr "An unknown error occurred." err in
          setError (Some errorMessage) ;;
          now' <- dateNow ;;
          appendChat {| msg_id := ("msg-" ++ string_of_Z (now' + 1))%string;
                        msg_sender := SenderAi;
                        msg_text := ("Sorry, I encountered an error: " ++ errorMessage)%string;
                        msg_videos := None |}))
    (setIsLoading false).

(** [xs.sort(cmp)]: the sort is stable, so the result is the one of any
    stable sort; here elements are inserted from the right. *)
Section Sort.
Variable A : Type.
Variable cmp : A -> A -> comparison.

Fixpoint insertSorted (x : A) (l : list A) : list A :=
  match l with
  | [] => [x]
  | y :: l' =>
      match cmp x y with
      | Gt => y :: insertSorted x l'
      | _ => x :: y :: l'
      end
  end.

Fixpoint sortBy (l : list A) : list A :=
  match l with
  | [] => []
  | x :: l' => insertSorted x (sortBy l')
  end.
End Sort.

(** [(a, b) => b.id.localeCompare(a.id)] *)
Definition byIdDescending (a b : UIVideo) : comparison :=
  localeCompare (video_id (ui_video b)) (video_id (ui_video a)).

(** The memo [displayedVideos].  Without a selected face [filtered] is the
    array [videos] itself, which [sort] then orders in place. *)
Definition displayedVideos : Async (list UIVideo) :=
  w <- get ;;
  let vs := videos (w_app w) in
  let selected := selectedFaceIds (w_app w) in
  if (0 <? List.length selected)%nat
  then ret (sortBy byIdDescending (filter (hasEveryFace selected) vs))
  else
    let sorted := sortBy byIdDescending vs in
    setVideos sorted ;;
    ret sorted.

Definition handleClearSearch : Async unit :=
  setSearchActive false ;;
  modify (with_app (put_chatHistory [])) ;;
  setSelectedFaceIds [].

Definition handleToggleFaceSelection (faceId : string) : Async unit :=
  w <- get ;;
  let selected := selectedFaceIds (w_app w) in
  let newSelectedFaceIds :=
    if includes selected faceId
    then filter (fun id => negb (String.eqb id faceId)) selected
    else selected ++ [faceId] in
  setSelectedFaceIds newSelectedFaceIds ;;
  setSearchActive false ;;
  modify (with_app (put_chatHistory [])).

Definition handleNameFace (faceId name : string) : Async unit :=
  updateFaceName faceId name ;;
  modify (with_app (fun a =>
    put_allFaces
      (map (fun face =>
              if String.eqb (face_id face) faceId
              then {| face_id := face_id face; face_userId := face_userId face;
                      face_name := Some name; face_image := face_image face;
                      face_description := face_description face |}
              else face) (allFaces a)) a)).

(** The modal as [App] mounts it:
    [<VideoUploadModal onClose={() => setIsModalOpen(false)} onUpload={handleUpload} />] *)
Definition submitUpload : Async unit :=
  handleSubmit handleUpload (setIsModalOpen false).

(* ================================================================== *)
(** * The notions the properties are stated with *)

(** The promise of a run is rejected. *)
Definition rejects {A} (r : Run A) : Prop :=
  exists e, outcome r = Rejected e.

(** The keys of the [users] table come from its key generator, which starts
    at 1: the next key is at least 1 and every stored user has a key between 1
    and the next key. *)
Definition wfUsers (d : DB) : bool :=
  (1 <=? db_users_keygen d)%Z
  && forallb (fun u => match user_id u with
                       | Some k => (1 <=? k)%Z && (k <? db_users_keygen d)%Z
                       | None => false
                       end) (db_users d).

(** Some stored user has this email, up to the case of the letters. *)
Definition registered (email : string) (d : DB) : Prop :=
  exists u, In u (db_users d) /\ toLowerCase (user_email u) = toLowerCase email.

(** The user that [db.users.add] has just stored cannot be read back. *)
Definition readBackFails (email : string) (d : DB) : Prop :=
  exists k d', db_createUser email d = Some (k, d')
    /\ match db_getUserById k d' with
       | Some u => falsyId (user_id u) = true
       | None => True
       end.

(** The state of the page after an operation. *)
Definition after {A} (m : Async A) (env : Env) (w : World) : World :=
  world (m env w).

(** The videos are in descending order of their ids. *)
Definition idDescending (a b : UIVideo) : Prop :=
  String.leb (video_id (ui_video b)) (video_id (ui_video a)) = true.

(** The senders of a chat history alternate, starting with [next]. *)
Fixpoint alternates (next : Sender) (h : list ChatMessage) : Prop :=
  match h with
  | [] => next = SenderUser
  | m :: h' =>
      msg_sender m = next
      /\ alternates (match next with SenderUser => SenderAi | SenderAi => SenderUser end) h'
  end.

(** Only the messages of the assistant carry videos. *)
Definition onlyAiVideos (h : list ChatMessage) : Prop :=
  Forall (fun m => msg_sender m = SenderUser -> msg_videos m = None) h.

(** What the user can do with the chat. *)
Inductive ChatAction : Type :=
| DoSearch (query : string)
| DoClearSearch
| DoToggleFace (faceId : string).

Definition chatStep (env : Env) (w : World) (a : ChatAction) : World :=
  match a with
  | DoSearch query => after (handleSearch query) env w
  | DoClearSearch => after handleClearSearch env w
  | DoToggleFace faceId => after (handleToggleFaceSelection faceId) env w
  end.

(** Every function of the repository that returns a promise or changes the
    state of the page. *)
Inductive Operation : Type :=
| OpGetUserByEmail (email : string)
| OpGetUserById (id : Z)
| OpCreateUser (email : string)
| OpAddVideo (video : Video)
| OpGetVideosForUser (userId : Z)
| OpAddFaces (fs : list Face)
| OpGetFacesForUser (userId : Z)
| OpUpdateFaceName (faceId name : string)
| OpCheckLoggedInUser
| OpLogin (email password : string)
| OpSignup (email password : string)
| OpLogout
| OpHandleLogin
| OpHandleSignup
| OpFindMatchingVideos (query : string) (vs : list UIVideo)
| OpGenerateChatResponse (userQuery : string) (foundVideosCount : nat)
| OpCropFace (base64Frame : string) (box : Box)
| OpAnalyzeVideoContent (base64Frames : list string) (videoDuration : JsNumber)
| OpExtractFrames (videoFile : File) (frameCount : nat)
| OpHandleSubmit
| OpLoadUserData
| OpHandleUpload (file : File) (analysisResult : VideoAnalysisResult) (duration : JsNumber)
| OpHandleSearch (query : string)
| OpDisplayedVideos
| OpHandleClearSearch
| OpHandleToggleFaceSelection (faceId : string)
| OpHandleNameFace (faceId name : string).

Definition ignore {A} (m : Async A) : Async unit := m ;; ret tt.

Definition perform (op : Operation) : Async unit :=
  match op with
  | OpGetUserByEmail email => ignore (getUserByEmail email)
  | OpGetUserById id => ignore (getUserById id)
  | OpCreateUser email => ignore (createUser email)
  | OpAddVideo video => ignore (addVideo video)
  | OpGetVideosForUser userId => ignore (getVideosForUser userId)
  | OpAddFaces fs => ignore (addFaces fs)
  | OpGetFacesForUser userId => ignore (getFacesForUser userId)
  | OpUpdateFaceName faceId name => ignore (updateFaceName faceId name)
  | OpCheckLoggedInUser => checkLoggedInUser
  | OpLogin email password => login email password
  | OpSignup email password => signup email password
  | OpLogout => logout
  | OpHandleLogin => handleLogin
  | OpHandleSignup =>
      handleSignup (modify (with_loginForm (put_isSignupModalOpen false)))
  | OpFindMatchingVideos query vs => ignore (findMatchingVideos query vs)
  | OpGenerateChatResponse q n => ignore (generateChatResponse q n)
  | OpCropFace frame box => ignore (cropFace frame box)
  | OpAnalyzeVideoContent frames duration => ignore (analyzeVideoContent frames duration)
  | OpExtractFrames file n => ignore (extractFrames file n)
  | OpHandleSubmit => submitUpload
  | OpLoadUserData => loadUserData
  | OpHandleUpload file analysisResult duration => handleUpload file analysisResult duration
  | OpHandleSearch query => handleSearch query
  | OpDisplayedVideos => ignore displayedVideos
  | OpHandleClearSearch => handleClearSearch
  | OpHandleToggleFaceSelection faceId => handleToggleFaceSelection faceId
  | OpHandleNameFace faceId name => handleNameFace faceId name
  end.

(** The error of [login]. *)
Definition noAccount : Thrown :=
  Error "No account found with this email. Please sign up.".

(** The reply that [generateChatResponse] falls back to. *)
Definition fallbackReply (foundVideosCount : nat) : string :=
  if (0 <? foundVideosCount)%nat
  then ("I found " ++ string_of_nat foundVideosCount
        ++ " video(s) that match your memory.")%string
  else "I couldn't find any videos matching that memory.".

(** An operation that neither reads nor changes the state of the page: at
    another state it settles in the same way after the same calls. *)
Definition stateless {A} (m : Async A) : Prop :=
  forall env w w', m env w' = mkRun (outcome (m env w)) w' (trace (m env w)).

(** [i] is an index of the array [base64Frames]. *)
Definition validIndex (base64Frames : list string) (i : Z) : Prop :=
  (0 <= i < Z.of_nat (List.length base64Frames))%Z.

(** What one face reported by the service adds to the result of
    [analyzeVideoContent]: the crop of its frame when there is such a frame
    and the crop succeeds, and nothing otherwise. *)
Definition contribution (env : Env) (base64Frames : list string) (face : AiFace)
  : list AnalyzedFace :=
  match frameAt base64Frames (ai_frameIndex face) with
  | Some frame =>
      if String.eqb frame "" then []
      else match env_cropImage env frame (ai_box face) with
           | Some image => [{| af_description := ai_description face; af_image := image |}]
           | None => []
           end
  | None => []
  end.

(** The times at which the loop of [extractFrames] seeks: [i * interval],
    [(i + 1) * interval], ... for the [remaining] iterations. *)
Fixpoint seekTimes (interval : JsNumber) (i : positive) (remaining : nat)
  : list JsNumber :=
  match remaining with
  | O => []
  | S remaining' => jsMulPos i interval :: seekTimes interval (Pos.succ i) remaining'
  end.

(** The frame that the canvas holds after a seek to [time] that completes. *)
Definition capturedAt (env : Env) (videoFile : File) (time : JsNumber) : string :=
  match env_seeked env videoFile time with
  | Some base64Data => base64Data
  | None => ""
  end.

(** The references of the store hold: every face id of a stored video is the
    id of a stored face of the same user, and the users of the stored videos
    and faces are stored users. *)
Definition refIntegrity (d : DB) : Prop :=
  (forall v faceId,
      In v (db_videos d) -> In faceId (video_faceIds v) ->
      exists f, In f (db_faces d) /\ face_id f = faceId /\ face_userId f = video_userId v)
  /\ (forall v, In v (db_videos d) ->
                exists u, In u (db_users d) /\ user_id u = Some (video_userId v))
  /\ (forall f, In f (db_faces d) ->
                exists u, In u (db_users d) /\ user_id u = Some (face_userId f)).

(** The face record that [handleUpload] builds from a face of the analysis. *)
Definition faceOf (userId : Z) (faceData : AnalyzedFace) (face : Face) : Prop :=
  face_userId face = userId
  /\ face_name face = None
  /\ face_image face = af_image faceData
  /\ face_description face = af_description faceData.

(** The video record that [handleUpload] builds. *)
Definition videoOf (userId : Z) (file : File) (analysisResult : VideoAnalysisResult)
  (duration : JsNumber) (faceIds : list string) (video : Video) : Prop :=
  video_userId video = userId
  /\ video_name video = file_name file
  /\ video_file video = file
  /\ video_description video = ar_description analysisResult
  /\ video_duration video = duration
  /\ video_faceIds video = faceIds
  /\ video_segments video = ar_segments analysisResult
  /\ video_transcript video = ar_transcript analysisResult
  /\ video_onScreenText video = ar_onScreenText analysisResult.

(** Whenever the operation awaits several promises together, with
    [Promise.all], these promises are as [P] says. *)
Definition awaitsTogether (P : list (list Call) -> Prop) {A} (m : Async A) : Prop :=
  forall env w branches, In (AwaitAll branches) (trace (m env w)) -> P branches.

(** [a] may stand before [b] in an array sorted with the comparator [cmp]. *)
Definition mayPrecede {A} (cmp : A -> A -> comparison) (a b : A) : Prop :=
  cmp a b <> Gt.

(** The operation keeps a property of the state of the page. *)
Definition preserves (I : World -> Prop) {A} (m : Async A) : Prop :=
  forall env w, I w -> I (world (m env w)).

(** The users of the store have keys of the key generator. *)
Definition usersWf (w : World) : Prop := wfUsers (w_db w) = true.

(** The two reads of [loadUserData]. *)
Definition readPair (branches : list (list Call)) : Prop :=
  exists userId,
    branches = [[CallGetVideosForUser userId]; [CallGetFacesForUser userId]].

(** The crops of [analyzeVideoContent]: one promise for each reported face,
    which makes at most one call, the crop of a frame. *)
Definition faceCrops (branches : list (list Call)) : Prop :=
  Forall (fun b => b = [] \/ exists frame, b = [CallCropFace frame]) branches.

(* ================================================================== *)
(** * Further notions: the store, the session and a reload of the page *)

(** No two stored users have the same key, and no two the same email. *)
Definition userKeysDistinct (d : DB) : Prop := NoDup (map user_id (db_users d)).
Definition userEmailsDistinct (d : DB) : Prop := NoDup (map user_email (db_users d)).

(** No two stored users have emails that differ only in the case of the
    letters. *)
Definition emailsDistinctModuloCase (d : DB) : Prop :=
  NoDup (map (fun u => toLowerCase (user_email u)) (db_users d)).

(** The users table is as the key generator and the unique index leave it. *)
Definition usersOk (w : World) : Prop :=
  wfUsers (w_db w) = true /\ userKeysDistinct (w_db w) /\ userEmailsDistinct (w_db w).

(** The state of the components when they are mounted ([useState]). *)
Definition initialAuth : AuthState := {| currentUser := None; auth_isLoading := true |}.

Definition initialLoginForm : LoginForm :=
  {| login_email := ""; login_password := ""; login_error := None;
     login_isLoading := false; isSignupModalOpen := false |}.

Definition initialSignupForm : SignupForm :=
  {| signup_email := ""; signup_password := ""; signup_error := None;
     signup_isLoading := false |}.

Definition initialApp : AppState :=
  {| videos := []; allFaces := []; chatHistory := []; isLoading := false; error := None;
     isModalOpen := false; searchActive := false; selectedFaceIds := [] |}.

Definition initialModal : ModalState :=
  {| videoFile := None; modal_error := None; isAnalyzing := false |}.

(** The page is loaded again: the store and the session storage are kept,
    every component starts from its initial state. *)
Definition reload (w : World) : World :=
  {| w_db := w_db w; w_session := w_session w; w_auth := initialAuth;
     w_loginForm := initialLoginForm; w_signupForm := initialSignupForm;
     w_app := initialApp; w_modal := initialModal;
     w_nowCalls := w_nowCalls w; w_randomCalls := w_randomCalls w |}.

(* ================================================================== *)
(** * Further notions: the tables of the store *)

(** The records of a table stand in strictly ascending order of their
    primary keys, so no key is stored twice. *)
Definition ascending {R} (key : R -> string) (t : list R) : Prop :=
  StronglySorted (fun a b => String.ltb (key a) (key b) = true) t.

Definition keysAscending (w : World) : Prop :=
  ascending video_id (db_videos (w_db w)) /\ ascending face_id (db_faces (w_db w)).

(** The two states show the same page: they differ at most in the store and
    in how often the clock and the random generator were read. *)
Definition samePage (w w' : World) : Prop :=
  w_session w' = w_session w /\ w_auth w' = w_auth w
  /\ w_loginForm w' = w_loginForm w /\ w_signupForm w' = w_signupForm w
  /\ w_app w' = w_app w /\ w_modal w' = w_modal w.

(** The library as [loadUserData] builds it from the stored videos. *)
Definition libraryOf (env : Env) (userId : Z) (d : DB) : list UIVideo :=
  map (fun v => {| ui_video := v; ui_url := env_createObjectURL env (video_file v) |})
      (db_getVideosForUser userId d).

(* ================================================================== *)
(** * [FaceGallery]: the card of a face *)

(** [name.trim() !== face.name] is false: the stored name is the typed one. *)
Definition sameName (typed : string) (stored : option string) : bool :=
  match stored with
  | Some n => String.eqb typed n
  | None => false
  end.

(** [handleNameSubmit] of the card of [face], with [name] in its input box.
    The call of [onNameFace] is not awaited; the result is the value that
    [setIsEditing] is given. *)
Definition handleNameSubmit (face : Face) (name : string)
  (onNameFace : string -> string -> Async unit) : Async bool :=
  (if negb (sameName (trim name) (face_name face))
   then detached (onNameFace (face_id face) (trim name))
   else ret tt) ;;
  ret false.

(** [{ ...face, name }] for the face with this id. *)
Definition withName (faceId name : string) (face : Face) : Face :=
  if String.eqb (face_id face) faceId
  then {| face_id := face_id face; face_userId := face_userId face;
          face_name := Some name; face_image := face_image face;
          face_description := face_description face |}
  else face.

(* ================================================================== *)
(** * Further notions: the reply of the analysis *)

(** The reply of the service passes the checks of [analyzeVideoContent]:
    it is a call of [extractVideoDetails] with a description that is not
    empty, and [faces], [segments] and [onScreenText] are arrays. *)
Definition wellFormed (reply : AnalyzeReply) (description : string) (faces : list AiFace)
  (segments : list VideoSegment) (transcript : string)
  (onScreenText : list OnScreenTextSegment) : Prop :=
  exists args,
    reply = AnalyzeFunctionCall "extractVideoDetails" args
    /\ args_description args = Some description /\ description <> ""
    /\ args_faces args = Some faces
    /\ args_segments args = Some segments
    /\ args_transcript args = Some transcript
    /\ args_onScreenText args = Some onScreenText.

(** The face has a frame and the crop of that frame fails. *)
Definition cropFails (env : Env) (base64Frames : list string) (face : AiFace) : Prop :=
  exists frame,
    frameAt base64Frames (ai_frameIndex face) = Some frame
    /\ frame <> "" /\ env_cropImage env frame (ai_box face) = None.

(* ================================================================== *)
(** * [VideoUploadModal]: the choice of the file *)

Definition put_videoFile (f : option File) (m : ModalState) : ModalState :=
  {| videoFile := f; modal_error := modal_error m; isAnalyzing := isAnalyzing m |}.

Definition setVideoFile (f : option File) : Async unit :=
  modify (with_modal (put_videoFile f)).

(** [handleFileChange]; [file] is [event.target.files?.[0]]. *)
Definition handleFileChange (file : option File) : Async unit :=
  match file with
  | Some f =>
      if String.prefix "video/" (file_type f)
      then setVideoFile (Some f) ;; setModalError None
      else setModalError (Some "Please select a valid video file.")
  | None => setModalError (Some "Please select a valid video file.")
  end.

(** [handleDrop]; [file] is [event.dataTransfer.files?.[0]]. *)
Definition handleDrop (file : option File) : Async unit :=
  w <- get ;;
  if isAnalyzing (w_modal w) then ret tt
  else
    match file with
    | Some f =>
        if String.prefix "video/" (file_type f)
        then setVideoFile (Some f) ;; setModalError None
        else setModalError (Some "Please select a valid video file.")
    | None => setModalError (Some "Please select a valid video file.")
    end.

(** What the user can do in the upload dialog. *)
Inductive DialogAction : Type :=
| PickFile (file : option File)
| DropFile (file : option File)
| SubmitDialog.

Definition dialogStep (env : Env) (w : World) (a : DialogAction) : World :=
  match a with
  | PickFile file => after (handleFileChange file) env w
  | DropFile file => after (handleDrop file) env w
  | SubmitDialog => after submitUpload env w
  end.

(** The file has a video type. *)
Definition videoTyped (f : File) : Prop := String.prefix "video/" (file_type f) = true.

(** The file chosen in the dialog, if any, and the files of the stored
    videos have a video type. *)
Definition onlyVideoFiles (w : World) : Prop :=
  (forall f, videoFile (w_modal w) = Some f -> videoTyped f)
  /\ (forall v, In v (db_videos (w_db w)) -> videoTyped (video_file v)).

(* ================================================================== *)
(** * [ChatSearch]: the input box *)

Module ChatSearch.

(** [handleSearch] of the form, with [query] in the input box; [isLoading]
    is the state of [App].  The call of [onSearch] is not awaited; the result
    is the content of the box afterwards. *)
Definition handleSearch (query : string) (onSearch : string -> Async unit)
  : Async string :=
  w <- get ;;
  if negb (String.eqb (trim query) "") && negb (isLoading (w_app w))
  then detached (onSearch (trim query)) ;; ret ""
  else ret query.

End ChatSearch.

(** The messages of the user are not empty and have no white space at
    their ends. *)
Definition userTextsTrimmed (h : list ChatMessage) : Prop :=
  Forall (fun m => msg_sender m = SenderUser ->
                   msg_text m <> "" /\ trim (msg_text m) = msg_text m) h.

(* ================================================================== *)
(** * Further notions: the soundness of the store *)

(** The current user, when its key is truthy, is a stored user. *)
Definition currentUserStored (w : World) : Prop :=
  forall userId,
    truthyUserId (currentUser (w_auth w)) = Some userId ->
    exists u, In u (db_users (w_db w)) /\ user_id u = Some userId.

(** The keys of the users come from the generator, the references between
    the tables hold, and the current user is stored. *)
Definition storeSound (w : World) : Prop :=
  usersWf w /\ refIntegrity (w_db w) /\ currentUserStored w.

(** The operation is one of the two wrappers of [db.ts] that store records
    handed to them as they are. *)
Definition storesGivenRecords (op : Operation) : bool :=
  match op with
  | OpAddVideo _ | OpAddFaces _ => true
  | _ => false
  end.

(* ================================================================== *)
(** * Further notions: the ids that an upload generates *)

(** The id of the [k]-th record that [handleUpload] builds from the state
    [w]: the prefix, the clock and the random suffix at their [k]-th reading
    from then on. *)
Definition generatedId (env : Env) (w : World) (kind : string) (k : nat) : string :=
  (kind ++ "-" ++ string_of_Z (env_now env (w_nowCalls w + k)) ++ "-"
        ++ env_random env (w_randomCalls w + k))%string.

(** The ids of the faces of an upload with [n] faces, and the id of its
    video. *)
Definition generatedFaceIds (env : Env) (w : World) (n : nat) : list string :=
  map (generatedId env w "face") (seq 0 n).

Definition generatedVideoId (env : Env) (w : World) (n : nat) : string :=
  generatedId env w "vid" n.

(* ================================================================== *)
(** * Sample data *)

Definition sampleFile : File :=
  {| file_name := "holiday.mp4"; file_type := "video/mp4"; file_content := "bytes" |}.

Definition sampleBox : Box :=
  {| y_min := Finite 0; x_min := Finite 0; y_max := Finite 1; x_max := Finite 1 |}.

(** A service that reports two faces, on frames 0 and 1, and a third on a
    frame that does not exist; the chat request fails. *)
Definition sampleArgs : AnalysisArgs :=
  {| args_description := Some "a beach";
     args_faces := Some [ {| ai_frameIndex := 0; ai_description := "smiling"; ai_box := sampleBox |};
                          {| ai_frameIndex := 1; ai_description := "glasses"; ai_box := sampleBox |};
                          {| ai_frameIndex := 99; ai_description := "ghost"; ai_box := sampleBox |} ];
     args_segments := Some [];
     args_transcript := Some "";
     args_onScreenText := Some [] |}.

Definition sampleEnvWith (search : SearchReply) (chat : option string)
  (analyze : AnalyzeReply) (seeked : JsNumber -> option string) : Env :=
  {| env_now := fun k => (1700000000000 + Z.of_nat k)%Z;
     env_random := fun k => string_of_nat k;
     env_createObjectURL := fun f => ("blob:" ++ file_name f)%string;
     env_showNumber := fun _ => "t";
     env_search := fun _ _ => search;
     env_chat := fun _ _ => chat;
     env_analyze := fun _ _ => analyze;
     env_cropImage := fun frame _ => Some ("crop:" ++ frame)%string;
     env_getContext := true;
     env_loadedmetadata := fun _ => Some (Finite 26);
     env_seeked := fun _ t => seeked t |}.

Definition sampleEnv : Env :=
  sampleEnvWith (SearchJsonStrings ["vid-1"]) None
                (AnalyzeFunctionCall "extractVideoDetails" sampleArgs)
                (fun _ => Some "frame").

Definition ann : User := {| user_id := Some 1%Z; user_email := "Ann@Example.com" |}.

Definition sampleVideo : Video :=
  {| video_id := "vid-1"; video_userId := 1%Z; video_name := "holiday.mp4";
     video_file := sampleFile; video_description := "a beach";
     video_duration := Finite 26; video_faceIds := ["face-a"];
     video_segments := []; video_transcript := ""; video_onScreenText := [] |}.

Definition sampleDB : DB :=
  {| db_users := [ann]; db_users_keygen := 2%Z; db_videos := [sampleVideo]; db_faces := [] |}.

Definition sampleWorld : World :=
  {| w_db := sampleDB;
     w_session := Some "1";
     w_auth := {| currentUser := Some ann; auth_isLoading := false |};
     w_loginForm := {| login_email := ""; login_password := ""; login_error := None;
                       login_isLoading := false; isSignupModalOpen := false |};
     w_signupForm := {| signup_email := ""; signup_password := ""; signup_error := None;
                        signup_isLoading := false |};
     w_app := {| videos := [ {| ui_video := sampleVideo; ui_url := "blob:holiday.mp4" |} ];
                 allFaces := []; chatHistory := []; isLoading := false; error := None;
                 isModalOpen := true; searchActive := false; selectedFaceIds := [] |};
     w_modal := {| videoFile := Some sampleFile; modal_error := None; isAnalyzing := false |};
     w_nowCalls := 0;
     w_randomCalls := 0 |}.

(* ================================================================== *)
(** * Properties *)

Unset Implicit Arguments.

(** ** Runs of the primitives *)

Lemma bind_resolved {A B} (m : Async A) (k : A -> Async B) env w a :
  outcome (m env w) = Resolved a ->
  bind m k env w =
  mkRun (outcome (k a env (world (m env w))))
        (world (k a env (world (m env w))))
        (trace (m env w) ++ trace (k a env (world (m env w)))).
Proof. intros H. unfold bind. destruct (m env w) as [o w1 t1]. simpl in H. subst o.
  simpl. now destruct (k a env w1). Qed.

Lemma bind_rejected {A B} (m : Async A) (k : A -> Async B) env w e :
  outcome (m env w) = Rejected e ->
  bind m k env w = mkRun (Rejected e) (world (m env w)) (trace (m env w)).
Proof. intros H. unfold bind. destruct (m env w) as [o w1 t1]. simpl in H. now subst o. Qed.

Lemma rejects_resolved {A} (r : Run A) a : outcome r = Resolved a -> ~ rejects r.
Proof. intros H [e He]. congruence. Qed.

Lemma rejects_rejected {A} (r : Run A) e : outcome r = Rejected e -> rejects r.
Proof. intros H. exists e. exact H. Qed.

Lemma not_rejects_resolved {A} (r : Run A) : ~ rejects r -> exists a, outcome r = Resolved a.
Proof.
  intros H. destruct (outcome r) as [a | e] eqn:E.
  - exists a. reflexivity.
  - exfalso. apply H. exists e. exact E.
Qed.

(** ** Case-insensitive lookup *)

Lemma lowerChar_idempotent c : lowerChar (lowerChar c) = lowerChar c.
Proof. destruct c as [[] [] [] [] [] [] [] []]; reflexivity. Qed.

Lemma sameLetter_lowerChar a b : sameLetter a b = true -> lowerChar a = lowerChar b.
Proof.
  unfold sameLetter. intros H.
  apply orb_true_iff in H. destruct H as [H | H].
  - apply orb_true_iff in H. destruct H as [H | H].
    + apply Ascii.eqb_eq in H. now subst.
    + apply andb_true_iff in H. destruct H as [_ H].
      apply Ascii.eqb_eq in H. subst b. now rewrite lowerChar_idempotent.
  - apply andb_true_iff in H. destruct H as [_ H].
    apply Ascii.eqb_eq in H. subst a. now rewrite lowerChar_idempotent.
Qed.

Lemma casingVariant_toLowerCase s : forall t,
  casingVariant s t = true -> toLowerCase s = toLowerCase t.
Proof.
  induction s as [| a s IH]; intros [| b t] H; simpl in *; try discriminate.
  - reflexivity.
  - apply andb_true_iff in H. destruct H as [Hab Hst].
    now rewrite (sameLetter_lowerChar _ _ Hab), (IH _ Hst).
Qed.

Lemma casingVariant_refl s : casingVariant s s = true.
Proof.
  induction s as [| a s IH]; simpl; [reflexivity |].
  rewrite IH. unfold sameLetter. now rewrite Ascii.eqb_refl.
Qed.

Lemma firstByEmail_None m t :
  firstByEmail m t = None <-> forall u, In u t -> m u = false.
Proof.
  induction t as [| u t IH]; simpl.
  - split; [intros _ v [] | reflexivity].
  - destruct (m u) eqn:Hu.
    + split.
      * destruct (firstByEmail m t) as [v |]; [destruct (_ <? _)%string |]; discriminate.
      * intros H. specialize (H u (or_introl eq_refl)). congruence.
    + rewrite IH. split.
      * intros H v [<- | Hv]; [exact Hu | now apply H].
      * intros H v Hv. apply H. now right.
Qed.

Lemma firstByEmail_Some m t u :
  firstByEmail m t = Some u -> In u t /\ m u = true.
Proof.
  revert u. induction t as [| v t IH]; simpl; intros u H; [discriminate |].
  destruct (m v) eqn:Hv.
  - destruct (firstByEmail m t) as [x |] eqn:Hx.
    + destruct (_ <? _)%string; inversion H; subst.
      * destruct (IH _ eq_refl) as [Hin Hm]. split; [now right | exact Hm].
      * split; [now left | exact Hv].
    + inversion H; subst. split; [now left | exact Hv].
  - destruct (IH _ H) as [Hin Hm]. split; [now right | exact Hm].
Qed.

Lemma firstByEmail_ext m m' t :
  (forall u, m u = m' u) -> firstByEmail m t = firstByEmail m' t.
Proof.
  intros H. induction t as [| u t IH]; simpl; [reflexivity |].
  now rewrite H, IH.
Qed.

Lemma getUserByEmail_None email d :
  db_getUserByEmail email d = None <-> ~ registered email d.
Proof.
  unfold db_getUserByEmail, registered. rewrite firstByEmail_None. split.
  - intros H (u & Hin & Hu). specialize (H u Hin). unfold equalsIgnoreCase in H.
    apply String.eqb_neq in H. contradiction.
  - intros H u Hin. unfold equalsIgnoreCase. apply String.eqb_neq.
    intros Hu. apply H. now exists u.
Qed.

Lemma getUserByEmail_Some email d u :
  db_getUserByEmail email d = Some u ->
  In u (db_users d) /\ toLowerCase (user_email u) = toLowerCase email.
Proof.
  unfold db_getUserByEmail. intros H. apply firstByEmail_Some in H.
  destruct H as [Hin Hm]. split; [exact Hin |].
  now apply String.eqb_eq in Hm.
Qed.

Lemma getUserByEmail_casing d e1 e2 :
  casingVariant e1 e2 = true -> db_getUserByEmail e1 d = db_getUserByEmail e2 d.
Proof.
  intros H. unfold db_getUserByEmail. apply firstByEmail_ext.
  intros u. unfold equalsIgnoreCase. now rewrite (casingVariant_toLowerCase _ _ H).
Qed.

(** ** The generated keys *)

Lemma wfUsers_In d u :
  wfUsers d = true -> In u (db_users d) ->
  exists k, user_id u = Some k /\ (1 <= k < db_users_keygen d)%Z.
Proof.
  unfold wfUsers. rewrite andb_true_iff, forallb_forall. intros [_ H] Hin.
  specialize (H u Hin).
  destruct (user_id u) as [k |]; [| discriminate]. exists k. split; [reflexivity | lia].
Qed.

Lemma wfUsers_truthy d u :
  wfUsers d = true -> In u (db_users d) -> falsyId (user_id u) = false.
Proof.
  intros H Hin. destruct (wfUsers_In _ _ H Hin) as (k & -> & Hk). simpl.
  apply Z.eqb_neq. lia.
Qed.

Lemma wfUsers_emptyDB : wfUsers emptyDB = true.
Proof. reflexivity. Qed.

Lemma createUser_fresh email d :
  ~ registered email d ->
  db_createUser email d =
  Some (db_users_keygen d,
        {| db_users := db_users d ++ [{| user_id := Some (db_users_keygen d);
                                         user_email := email |}];
           db_users_keygen := Z.succ (db_users_keygen d);
           db_videos := db_videos d;
           db_faces := db_faces d |}).
Proof.
  intros H. unfold db_createUser.
  destruct (existsb _ (db_users d)) eqn:E; [| reflexivity].
  exfalso. apply H. apply existsb_exists in E. destruct E as (u & Hin & Hu).
  apply String.eqb_eq in Hu. exists u. split; [exact Hin | now rewrite Hu].
Qed.

Lemma find_app_fresh (k : Z) (us : list User) (u : User) :
  (forall v, In v us -> user_id v <> Some k) ->
  user_id u = Some k ->
  find (fun v => match user_id v with Some j => Z.eqb j k | None => false end)
       (us ++ [u]) = Some u.
Proof.
  intros Hus Hu. induction us as [| v us IH]; simpl.
  - rewrite Hu, Z.eqb_refl. reflexivity.
  - destruct (user_id v) as [j |] eqn:Hj.
    + destruct (Z.eqb_spec j k) as [-> | _].
      * exfalso. apply (Hus v); [now left | exact Hj].
      * apply IH. intros x Hx. apply Hus. now right.
    + apply IH. intros x Hx. apply Hus. now right.
Qed.

Lemma wfUsers_keygen d : wfUsers d = true -> (1 <= db_users_keygen d)%Z.
Proof. unfold wfUsers. rewrite andb_true_iff. intros [H _]. lia. Qed.

Lemma readBack_created email d :
  wfUsers d = true -> ~ registered email d ->
  exists d', db_createUser email d = Some (db_users_keygen d, d')
    /\ db_getUserById (db_users_keygen d) d'
       = Some {| user_id := Some (db_users_keygen d); user_email := email |}
    /\ In {| user_id := Some (db_users_keygen d); user_email := email |} (db_users d')
    /\ falsyId (Some (db_users_keygen d)) = false
    /\ wfUsers d' = true.
Proof.
  intros Hwf Hreg. eexists. split; [apply createUser_fresh; exact Hreg |].
  pose proof (wfUsers_keygen _ Hwf) as Hpos.
  split; [| split; [| split]].
  - unfold db_getUserById. simpl. apply find_app_fresh; [| reflexivity].
    intros v Hv Hk. destruct (wfUsers_In _ _ Hwf Hv) as (k & Hk' & Hlt).
    rewrite Hk in Hk'. inversion Hk'. lia.
  - simpl. apply in_or_app. right. now left.
  - simpl. apply Z.eqb_neq. lia.
  - unfold wfUsers. simpl. apply andb_true_iff. split; [apply Z.leb_le; lia |].
    rewrite forallb_app. apply andb_true_iff. split.
    + apply forallb_forall. intros v Hv.
      destruct (wfUsers_In _ _ Hwf Hv) as (k & -> & Hlt).
      apply andb_true_iff. split; [apply Z.leb_le | apply Z.ltb_lt]; lia.
    + simpl. rewrite andb_true_r.
      apply andb_true_iff. split; [apply Z.leb_le | apply Z.ltb_lt]; lia.
Qed.

(** ** [login] and [signup] *)

Lemma login_run email password env w :
  login email password env w =
  match db_getUserByEmail email (w_db w) with
  | Some u =>
      if falsyId (user_id u)
      then mkRun (Rejected noAccount) w [Await (CallGetUserByEmail email)]
      else mkRun (Resolved tt)
                 (with_session (Some (idString u)) (with_auth (put_currentUser (Some u)) w))
                 [Await (CallGetUserByEmail email)]
  | None => mkRun (Rejected noAccount) w [Await (CallGetUserByEmail email)]
  end.
Proof.
  unfold login, getUserByEmail, bind, get, await. simpl.
  destruct (db_getUserByEmail email (w_db w)) as [u |]; [| reflexivity].
  destruct (falsyId (user_id u)); reflexivity.
Qed.

Lemma login_rejects_iff email password env w :
  wfUsers (w_db w) = true ->
  rejects (login email password env w) <-> ~ registered email (w_db w).
Proof.
  intros Hwf. rewrite login_run, <- getUserByEmail_None.
  destruct (db_getUserByEmail email (w_db w)) as [u |] eqn:E.
  - apply getUserByEmail_Some in E. destruct E as [Hin _].
    rewrite (wfUsers_truthy _ _ Hwf Hin). split; [| discriminate].
    intros [e He]. discriminate.
  - split; [reflexivity |]. intros _. now exists noAccount.
Qed.

Lemma signup_registered email password env w :
  registered email (w_db w) ->
  signup email password env w =
  mkRun (Rejected (Error "An account with this email already exists.")) w
        [Await (CallGetUserByEmail email)].
Proof.
  intros H. unfold signup, getUserByEmail, bind, get, await. simpl.
  destruct (db_getUserByEmail email (w_db w)) as [u |] eqn:E; [reflexivity |].
  apply getUserByEmail_None in E. contradiction.
Qed.

Lemma signup_fresh email password env w :
  ~ registered email (w_db w) ->
  exists d', db_createUser email (w_db w) = Some (db_users_keygen (w_db w), d')
  /\ signup email password env w =
     let t := [Await (CallGetUserByEmail email); Await (CallCreateUser email);
               Await (CallGetUserById (Finite (inject_Z (db_users_keygen (w_db w)))))] in
     let w' := with_db (fun _ => d') w in
     match db_getUserById (db_users_keygen (w_db w)) d' with
     | Some u =>
         if falsyId (user_id u)
         then mkRun (Rejected (Error "Failed to create a new user account.")) w' t
         else mkRun (Resolved tt)
                    (with_session (Some (idString u)) (with_auth (put_currentUser (Some u)) w'))
                    t
     | None => mkRun (Rejected (Error "Failed to create a new user account.")) w' t
     end.
Proof.
  intros H. eexists. split; [apply createUser_fresh; exact H |].
  unfold signup, getUserByEmail, createUser, getUserById, bind, get, await, modify. simpl.
  rewrite (proj2 (getUserByEmail_None _ _) H). simpl.
  rewrite (createUser_fresh _ _ H). simpl.
  match goal with |- context [db_getUserById ?k ?d] => destruct (db_getUserById k d) as [u |] end;
    [| reflexivity].
  destruct (falsyId (user_id u)); reflexivity.
Qed.

Lemma readBack_never_fails email d :
  wfUsers d = true -> ~ registered email d -> ~ readBackFails email d.
Proof.
  intros Hwf Hreg (k & d' & Hc & Hr).
  destruct (readBack_created email d Hwf Hreg) as (d'' & Hc' & Hget & _ & Htruthy & _).
  rewrite Hc' in Hc. inversion Hc; subst k d'. rewrite Hget in Hr. simpl in Hr.
  simpl in Htruthy. congruence.
Qed.

Lemma signup_rejects_iff email password env w :
  rejects (signup email password env w)
  <-> registered email (w_db w) \/ readBackFails email (w_db w).
Proof.
  destruct (db_getUserByEmail email (w_db w)) as [u0 |] eqn:E.
  - assert (Hreg : registered email (w_db w)).
    { apply getUserByEmail_Some in E. destruct E. now exists u0. }
    rewrite (signup_registered email password env w Hreg).
    split; [now left | intros _; eexists; reflexivity].
  - apply getUserByEmail_None in E.
    destruct (signup_fresh email password env w E) as (d' & Hc & Hrun).
    rewrite Hrun. cbv zeta. split.
    + intros Hrej. right. exists (db_users_keygen (w_db w)), d'. split; [exact Hc |].
      destruct (db_getUserById _ d') as [u |]; [| exact I].
      destruct (falsyId (user_id u)); [reflexivity |].
      destruct Hrej as [e He]. discriminate.
    + intros [Hreg | (k & d'' & Hc' & Hr)]; [contradiction |].
      rewrite Hc in Hc'. inversion Hc'; subst k d''.
      destruct (db_getUserById _ d') as [u |]; [| eexists; reflexivity].
      rewrite Hr. eexists; reflexivity.
Qed.

(** C1. The login operation only looks the email up in the local store and
    never looks at the password: for every environment, state of the page and
    email, the runs of [login] with two passwords are the same run (the same
    settled promise, the same state, the same awaited call), and the one call
    it awaits is the lookup by email. *)
Theorem login_independent_of_password :
  forall env w email password1 password2,
    login email password1 env w = login email password2 env w
    /\ trace (login email password1 env w) = [Await (CallGetUserByEmail email)].
Proof.
  intros. rewrite !login_run. split; [reflexivity |].
  destruct (db_getUserByEmail email (w_db w)) as [u |]; [| reflexivity].
  destruct (falsyId (user_id u)); reflexivity.
Qed.

(** C2. On a store whose user keys come from the key generator, [login] is
    rejected exactly when no stored user has the email (looked up through the
    email index, which ignores case), and [signup] is rejected exactly when
    such a user exists or the user it has just stored cannot be read back;
    when they are not rejected, [login] sets the current user to the record
    found and [signup] to the record it created. *)
Theorem login_signup_rejections :
  forall env w email password,
    wfUsers (w_db w) = true ->
    (rejects (login email password env w) <-> ~ registered email (w_db w))
    /\ (rejects (signup email password env w)
        <-> registered email (w_db w) \/ readBackFails email (w_db w))
    /\ (~ rejects (login email password env w) ->
        exists u, db_getUserByEmail email (w_db w) = Some u
          /\ currentUser (w_auth (after (login email password) env w)) = Some u)
    /\ (~ rejects (signup email password env w) ->
        exists u, user_email u = email
          /\ ~ In u (db_users (w_db w))
          /\ In u (db_users (w_db (after (signup email password) env w)))
          /\ currentUser (w_auth (after (signup email password) env w)) = Some u).
Proof.
  intros env w email password Hwf.
  split; [apply login_rejects_iff; exact Hwf |].
  split; [apply signup_rejects_iff |].
  split.
  - intros Hok. unfold after. rewrite login_run in *.
    destruct (db_getUserByEmail email (w_db w)) as [u |] eqn:E.
    + exists u. split; [reflexivity |].
      destruct (falsyId (user_id u)); [| reflexivity].
      exfalso. apply Hok. eexists; reflexivity.
    + exfalso. apply Hok. eexists; reflexivity.
  - intros Hok.
    assert (Hreg : ~ registered email (w_db w)).
    { intros Hreg. apply Hok. apply signup_rejects_iff. now left. }
    destruct (readBack_created email (w_db w) Hwf Hreg)
      as (d' & Hc & Hget & Hin & Htruthy & _).
    destruct (signup_fresh email password env w Hreg) as (d'' & Hc' & Hrun).
    rewrite Hc in Hc'. inversion Hc'; subst d''.
    exists {| user_id := Some (db_users_keygen (w_db w)); user_email := email |}.
    unfold after. rewrite Hrun. cbv zeta. rewrite Hget. cbn [user_id].
    rewrite Htruthy. simpl. repeat split; try assumption.
    intros Hold. destruct (wfUsers_In _ _ Hwf Hold) as (k & Hk & Hlt).
    simpl in Hk. inversion Hk. lia.
Qed.

Lemma login_signup_rejections_witness :
  wfUsers (w_db sampleWorld) = true
  /\ (rejects (login "bob@example.com" "secret" sampleEnv sampleWorld)
      <-> ~ registered "bob@example.com" (w_db sampleWorld)).
Proof.
  split; [reflexivity |].
  apply (login_signup_rejections sampleEnv sampleWorld "bob@example.com" "secret").
  reflexivity.
Defined.

(** C9. The lookup of a user by email ignores the case of the letters: for
    every store, [getUserByEmail] gives the same result for two emails that
    differ only in case.  So [signup] is rejected for an email that differs
    only in case from the email of a stored user, and on a store whose keys
    come from the key generator [login] succeeds with any casing of the email
    of a stored user. *)
Theorem lookup_ignores_case :
  forall env w email1 email2 password,
    casingVariant email1 email2 = true ->
    outcome (getUserByEmail email1 env w) = outcome (getUserByEmail email2 env w)
    /\ ((exists u, In u (db_users (w_db w)) /\ user_email u = email1) ->
        rejects (signup email2 password env w))
    /\ (wfUsers (w_db w) = true ->
        (exists u, In u (db_users (w_db w)) /\ user_email u = email1) ->
        outcome (login email2 password env w) = Resolved tt).
Proof.
  intros env w email1 email2 password Hcase.
  assert (Hreg : (exists u, In u (db_users (w_db w)) /\ user_email u = email1) ->
                 registered email2 (w_db w)).
  { intros (u & Hin & Hu). exists u. split; [exact Hin |].
    rewrite Hu. now apply casingVariant_toLowerCase. }
  split; [| split].
  - unfold getUserByEmail, bind, get, await. simpl.
    now rewrite (getUserByEmail_casing (w_db w) email1 email2 Hcase).
  - intros H. apply signup_rejects_iff. left. now apply Hreg.
  - intros Hwf H. specialize (Hreg H).
    destruct (outcome (login email2 password env w)) as [[] | e] eqn:E; [reflexivity |].
    exfalso. apply (proj1 (login_rejects_iff email2 password env w Hwf)); [| exact Hreg].
    now exists e.
Qed.

Lemma lookup_ignores_case_witness :
  casingVariant "Ann@Example.com" "ann@EXAMPLE.com" = true
  /\ outcome (login "ann@EXAMPLE.com" "secret" sampleEnv sampleWorld) = Resolved tt.
Proof.
  split; [reflexivity |].
  apply (lookup_ignores_case sampleEnv sampleWorld "Ann@Example.com" "ann@EXAMPLE.com"
           "secret"); [reflexivity | reflexivity |].
  exists ann. split; [now left | reflexivity].
Defined.

(** ** Sorting *)

Section SortFacts.
Variable A : Type.
Variable cmp : A -> A -> comparison.

Hypothesis cmp_total : forall a b, cmp a b = Gt -> mayPrecede cmp b a.
Hypothesis cmp_trans : forall a b c, mayPrecede cmp a b -> mayPrecede cmp b c -> mayPrecede cmp a c.

Lemma insertSorted_perm x l : Permutation (insertSorted cmp x l) (x :: l).
Proof.
  induction l as [| y l IH]; simpl; [reflexivity |].
  destruct (cmp x y); try reflexivity.
  rewrite IH. apply perm_swap.
Qed.

Lemma sortBy_perm l : Permutation (sortBy cmp l) l.
Proof.
  induction l as [| x l IH]; simpl; [reflexivity |].
  rewrite insertSorted_perm. now constructor.
Qed.

Lemma insertSorted_sorted x l :
  StronglySorted (mayPrecede cmp) l -> StronglySorted (mayPrecede cmp) (insertSorted cmp x l).
Proof.
  induction 1 as [| y l Hl IH Hy]; simpl.
  - repeat constructor.
  - destruct (cmp x y) eqn:E.
    + constructor; [now constructor |]. constructor; [unfold mayPrecede; congruence |].
      eapply Forall_impl; [| exact Hy]. intros z Hz.
      apply cmp_trans with y; [unfold mayPrecede; congruence | exact Hz].
    + constructor; [now constructor |]. constructor; [unfold mayPrecede; congruence |].
      eapply Forall_impl; [| exact Hy]. intros z Hz.
      apply cmp_trans with y; [unfold mayPrecede; congruence | exact Hz].
    + constructor; [exact IH |].
      eapply Permutation_Forall; [symmetry; apply insertSorted_perm |].
      constructor; [now apply cmp_total | exact Hy].
Qed.

Lemma sortBy_sorted l : StronglySorted (mayPrecede cmp) (sortBy cmp l).
Proof.
  induction l as [| x l IH]; simpl; [constructor | now apply insertSorted_sorted].
Qed.
End SortFacts.

Lemma string_leb_cases a b :
  String.leb a b = true <-> a = b \/ String_as_OT.lt a b.
Proof.
  unfold String.leb. destruct (String.compare a b) eqn:E.
  - split; [intros _ | reflexivity]. left. now apply String_as_OT.cmp_eq.
  - split; [intros _ | reflexivity]. right. now apply String_as_OT.cmp_lt.
  - split; [discriminate |]. intros [-> | H].
    + assert (H : String_as_OT.cmp b b = Eq) by now apply String_as_OT.cmp_eq.
      unfold String_as_OT.cmp in H. congruence.
    + apply String_as_OT.cmp_lt in H. unfold String_as_OT.cmp in H. congruence.
Qed.

Lemma string_leb_trans a b c :
  String.leb a b = true -> String.leb b c = true -> String.leb a c = true.
Proof.
  rewrite !string_leb_cases. intros [-> | Hab] [-> | Hbc]; auto.
  right. eapply String_as_OT.lt_trans; eassumption.
Qed.

Lemma byIdDescending_before a b : byIdDescending a b <> Gt <-> idDescending a b.
Proof.
  unfold byIdDescending, localeCompare, idDescending, String.leb.
  destruct (String.compare _ _); split; congruence.
Qed.

Lemma sortBy_idDescending l : StronglySorted idDescending (sortBy byIdDescending l).
Proof.
  assert (H : StronglySorted (mayPrecede byIdDescending) (sortBy byIdDescending l)).
  { apply sortBy_sorted.
    - intros a b E. unfold mayPrecede, byIdDescending, localeCompare in *.
      rewrite String.compare_antisym, E. discriminate.
    - intros a b c. unfold mayPrecede. rewrite !byIdDescending_before. unfold idDescending.
      intros Hab Hbc. eapply string_leb_trans; eassumption. }
  induction H as [| x l' Hs IH Hx]; constructor; [exact IH |].
  eapply Forall_impl; [| exact Hx]. intros y. apply byIdDescending_before.
Qed.

(** ** The face filter *)

Lemma includes_In xs x : includes xs x = true <-> In x xs.
Proof.
  unfold includes. rewrite existsb_exists. split.
  - intros (y & Hy & E). apply String.eqb_eq in E. now subst.
  - intros H. exists x. split; [exact H | apply String.eqb_refl].
Qed.

Lemma hasEveryFace_spec selected v :
  hasEveryFace selected v = true
  <-> forall faceId, In faceId selected -> In faceId (video_faceIds (ui_video v)).
Proof.
  unfold hasEveryFace. rewrite forallb_forall. split; intros H f Hf.
  - now apply includes_In, H.
  - now apply includes_In, H.
Qed.

Lemma length_positive {A} (l : list A) : (0 <? List.length l)%nat = true <-> l <> [].
Proof.
  destruct l as [| a l]; split; intros H.
  - discriminate H.
  - now contradiction H.
  - discriminate.
  - reflexivity.
Qed.

Lemma displayedVideos_run env w :
  displayedVideos env w =
  if (0 <? List.length (selectedFaceIds (w_app w)))%nat
  then mkRun (Resolved (sortBy byIdDescending
                          (filter (hasEveryFace (selectedFaceIds (w_app w)))
                                  (videos (w_app w))))) w []
  else mkRun (Resolved (sortBy byIdDescending (videos (w_app w))))
             (with_app (put_videos (sortBy byIdDescending (videos (w_app w)))) w) [].
Proof.
  unfold displayedVideos, bind, get. simpl.
  destruct (0 <? List.length (selectedFaceIds (w_app w)))%nat; reflexivity.
Qed.

(** ** The search *)

Lemma findMatchingVideos_run query vs env w :
  findMatchingVideos query vs env w =
  match vs with
  | [] => mkRun (Resolved []) w []
  | _ :: _ =>
      mkRun (match env_search env query (simplifiedVideos vs) with
             | SearchThrows => Rejected (Error "Failed to search videos. Please try again.")
             | SearchJsonOther => Resolved []
             | SearchJsonStrings ids => Resolved ids
             end) w [Await (CallSearch query (simplifiedVideos vs))]
  end.
Proof.
  destruct vs as [| v vs]; [reflexivity |].
  unfold findMatchingVideos, try_catch, bind, ask, await, ret, throw.
  cbn [List.length Nat.eqb outcome world trace].
  destruct (env_search env query (simplifiedVideos (v :: vs))); reflexivity.
Qed.

Lemma generateChatResponse_run userQuery n env w :
  generateChatResponse userQuery n env w =
  mkRun (Resolved (match env_chat env userQuery n with
                   | Some text => trim text
                   | None => fallbackReply n
                   end)) w [Await (CallChat userQuery n)].
Proof.
  unfold generateChatResponse, try_catch, bind, ask, await, ret, fallbackReply.
  cbn [outcome world trace].
  destruct (env_chat env userQuery n); cbn [outcome world trace].
  - reflexivity.
  - destruct (0 <? n)%nat; reflexivity.
Qed.

(** Two states of the page are equal when their components are. *)
Lemma world_ext w1 w2 :
  w_db w1 = w_db w2 -> w_session w1 = w_session w2 -> w_auth w1 = w_auth w2 ->
  w_loginForm w1 = w_loginForm w2 -> w_signupForm w1 = w_signupForm w2 ->
  w_app w1 = w_app w2 -> w_modal w1 = w_modal w2 ->
  w_nowCalls w1 = w_nowCalls w2 -> w_randomCalls w1 = w_randomCalls w2 ->
  w1 = w2.
Proof. destruct w1, w2; simpl; intros; subst; reflexivity. Qed.

Lemma app_ext a1 a2 :
  videos a1 = videos a2 -> allFaces a1 = allFaces a2 ->
  chatHistory a1 = chatHistory a2 -> isLoading a1 = isLoading a2 ->
  error a1 = error a2 -> isModalOpen a1 = isModalOpen a2 ->
  searchActive a1 = searchActive a2 -> selectedFaceIds a1 = selectedFaceIds a2 ->
  a1 = a2.
Proof. destruct a1, a2; simpl; intros; subst; reflexivity. Qed.

Ltac same_world :=
  apply world_ext; cbn -[string_of_Z]; try reflexivity;
  apply app_ext; cbn -[string_of_Z]; rewrite <- ?app_assoc; reflexivity.

Lemma handleSearch_run query env w :
  let vs := videos (w_app w) in
  let search := findMatchingVideos query (videosToSearch vs (selectedFaceIds (w_app w))) env w in
  let userMessage := {| msg_id := ("msg-" ++ string_of_Z (env_now env (w_nowCalls w)))%string;
                        msg_sender := SenderUser; msg_text := query; msg_videos := None |} in
  let aiId := ("msg-" ++ string_of_Z (env_now env (S (w_nowCalls w)) + 1))%string in
  let finish (err : option string) (aiMessage : ChatMessage) :=
    with_app (fun a => put_isLoading false
                         (put_chatHistory (chatHistory a ++ [userMessage; aiMessage])
                            (put_error err (put_searchActive true a))))
             (with_nowCalls (fun n => S (S n)) w) in
  handleSearch query env w =
  match outcome search with
  | Resolved matchingIds =>
      let matchingVideos := filter (fun v => includes matchingIds (video_id (ui_video v))) vs in
      let chat := generateChatResponse query (List.length matchingVideos) env w in
      mkRun (Resolved tt)
            (finish None {| msg_id := aiId; msg_sender := SenderAi;
                            msg_text := match outcome chat with
                                        | Resolved text => text
                                        | Rejected _ => ""
                                        end;
                            msg_videos := Some matchingVideos |})
            (trace search ++ trace chat)
  | Rejected err =>
      let errorMessage := messageOr "An unknown error occurred." err in
      mkRun (Resolved tt)
            (finish (Some errorMessage)
                    {| msg_id := aiId; msg_sender := SenderAi;
                       msg_text := ("Sorry, I encountered an error: " ++ errorMessage)%string;
                       msg_videos := None |})
            (trace search)
  end.
Proof.
  cbv zeta. unfold handleSearch, try_finally, try_catch, bind, get, setIsLoading,
    setSearchActive, setError, dateNow, appendChat, modify.
  rewrite !findMatchingVideos_run.
  destruct (videosToSearch (videos (w_app w)) (selectedFaceIds (w_app w))) as [| c cs].
  - cbn [outcome world trace]. rewrite !generateChatResponse_run.
    cbn [outcome world trace app]. f_equal. same_world.
  - cbn [outcome world trace].
    destruct (env_search env query (simplifiedVideos (c :: cs))) as [| | ids];
      cbn [outcome world trace]; rewrite ?generateChatResponse_run;
      cbn [outcome world trace app]; f_equal; same_world.
Qed.

Lemma generateChatResponse_resolves userQuery n env w :
  exists text, outcome (generateChatResponse userQuery n env w) = Resolved text.
Proof. rewrite generateChatResponse_run. eexists. reflexivity. Qed.

(** C6. The library that is displayed is a rearrangement of the candidates
    that [handleSearch] hands to the search; with at least one selected face
    these are exactly the videos whose [faceIds] contain every selected face
    id, and without a selected face they are all the videos of the user; the
    displayed list is in descending order of the video ids; and the request
    that [handleSearch] sends to the service carries these candidates. *)
Theorem face_filter_selects_and_orders :
  forall env w query,
    let vs := videos (w_app w) in
    let selected := selectedFaceIds (w_app w) in
    let candidates := videosToSearch vs selected in
    exists shown,
      outcome (displayedVideos env w) = Resolved shown
      /\ Permutation shown candidates
      /\ (selected <> [] ->
          forall v, In v candidates
                    <-> In v vs /\ forall faceId, In faceId selected ->
                                                  In faceId (video_faceIds (ui_video v)))
      /\ (selected = [] -> candidates = vs)
      /\ StronglySorted idDescending shown
      /\ (candidates <> [] ->
          hd_error (trace (handleSearch query env w))
          = Some (Await (CallSearch query (simplifiedVideos candidates)))).
Proof.
  intros env w query vs selected candidates.
  exists (sortBy byIdDescending candidates).
  assert (Hshown : outcome (displayedVideos env w)
                   = Resolved (sortBy byIdDescending candidates)).
  { rewrite displayedVideos_run. subst candidates. unfold videosToSearch.
    fold vs. fold selected. destruct (0 <? List.length selected)%nat; reflexivity. }
  split; [exact Hshown |].
  split; [apply sortBy_perm |].
  split; [| split; [| split]].
  - intros Hsel v. subst candidates. unfold videosToSearch.
    rewrite (proj2 (length_positive selected) Hsel).
    rewrite filter_In, hasEveryFace_spec. reflexivity.
  - intros Hsel. subst candidates. unfold videosToSearch. now rewrite Hsel.
  - apply sortBy_idDescending.
  - intros Hne. rewrite handleSearch_run. cbv zeta. fold vs. fold selected.
    fold candidates. rewrite findMatchingVideos_run.
    destruct candidates as [| c cs]; [now contradiction Hne |].
    cbn [outcome trace].
    destruct (env_search env query (simplifiedVideos (c :: cs))); reflexivity.
Qed.

Lemma face_filter_selects_and_orders_witness :
  exists shown,
    outcome (displayedVideos sampleEnv sampleWorld) = Resolved shown
    /\ Permutation shown (videos (w_app sampleWorld)).
Proof.
  destruct (face_filter_selects_and_orders sampleEnv sampleWorld "beach")
    as (shown & Hshown & Hperm & _).
  exists shown. split; [exact Hshown | exact Hperm].
Defined.

(** ** The chat history *)

Lemma alternates_app next h userMessage aiMessage :
  msg_sender userMessage = SenderUser -> msg_sender aiMessage = SenderAi ->
  alternates next h -> alternates next (h ++ [userMessage; aiMessage]).
Proof.
  intros Hu Ha. revert next. induction h as [| m h IH]; simpl; intros next H.
  - subst next. repeat split; assumption.
  - destruct H as [Hm H]. split; [exact Hm | now apply IH].
Qed.

Lemma onlyAiVideos_app h userMessage aiMessage :
  msg_videos userMessage = None -> msg_sender aiMessage = SenderAi ->
  onlyAiVideos h -> onlyAiVideos (h ++ [userMessage; aiMessage]).
Proof.
  intros Hu Ha H. unfold onlyAiVideos in *. apply Forall_app. split; [exact H |].
  repeat constructor; [now intros _ | intros E; congruence].
Qed.

Lemma handleSearch_history query env w :
  exists userMessage aiMessage,
    chatHistory (w_app (after (handleSearch query) env w))
    = chatHistory (w_app w) ++ [userMessage; aiMessage]
    /\ msg_sender userMessage = SenderUser
    /\ msg_text userMessage = query
    /\ msg_videos userMessage = None
    /\ msg_sender aiMessage = SenderAi.
Proof.
  unfold after. rewrite handleSearch_run. cbv zeta.
  destruct (outcome (findMatchingVideos _ _ _ _)); cbn -[string_of_Z];
    do 2 eexists; (split; [reflexivity |]); repeat split.
Qed.

Lemma chatStep_invariant env w a :
  alternates SenderUser (chatHistory (w_app w)) /\ onlyAiVideos (chatHistory (w_app w)) ->
  alternates SenderUser (chatHistory (w_app (chatStep env w a)))
  /\ onlyAiVideos (chatHistory (w_app (chatStep env w a))).
Proof.
  intros [Halt Hvid]. destruct a as [query | | faceId]; simpl.
  - destruct (handleSearch_history query env w) as (u & m & -> & Hu & _ & Huv & Hm).
    split; [now apply alternates_app | now apply onlyAiVideos_app].
  - split; [reflexivity | constructor].
  - split; [reflexivity | constructor].
Qed.



(** ** Operations that do not touch the state of the page *)

Lemma stateless_world {A} (m : Async A) env w : stateless m -> world (m env w) = w.
Proof. intros H. now rewrite (H env w w). Qed.

Lemma stateless_ret {A} (a : A) : stateless (ret a).
Proof. intros env w w'. reflexivity. Qed.

Lemma stateless_throw {A} e : stateless (@throw A e).
Proof. intros env w w'. reflexivity. Qed.

Lemma stateless_await {A} c (o : Outcome A) : stateless (await c o).
Proof. intros env w w'. reflexivity. Qed.

Lemma stateless_start c : stateless (start c).
Proof. intros env w w'. reflexivity. Qed.

Lemma stateless_shape {A} (m : Async A) env w w' :
  stateless m ->
  exists o t, m env w = mkRun o w t /\ m env w' = mkRun o w' t.
Proof.
  intros H. exists (outcome (m env w)), (trace (m env w)).
  split; [apply (H env w w) | apply (H env w w')].
Qed.

Lemma stateless_bind {A B} (m : Async A) (k : A -> Async B) :
  stateless m -> (forall a, stateless (k a)) -> stateless (bind m k).
Proof.
  intros Hm Hk env w w'. unfold bind.
  destruct (stateless_shape m env w w' Hm) as (o & t & -> & ->).
  destruct o as [a | e]; [| reflexivity].
  destruct (stateless_shape (k a) env w w' (Hk a)) as (o' & t' & -> & ->).
  reflexivity.
Qed.

Lemma stateless_ask {A} (k : Env -> Async A) :
  (forall env, stateless (k env)) -> stateless (bind ask k).
Proof.
  intros Hk env w w'. unfold bind, ask.
  destruct (stateless_shape (k env) env w w' (Hk env)) as (o' & t' & -> & ->).
  reflexivity.
Qed.

Lemma stateless_try_catch {A} (m : Async A) (h : Thrown -> Async A) :
  stateless m -> (forall e, stateless (h e)) -> stateless (try_catch m h).
Proof.
  intros Hm Hh env w w'. unfold try_catch.
  destruct (stateless_shape m env w w' Hm) as (o & t & -> & ->).
  destruct o as [a | e]; [reflexivity |].
  destruct (stateless_shape (h e) env w w' (Hh e)) as (o' & t' & -> & ->).
  reflexivity.
Qed.

Lemma startAll_stateless {A} (ms : list (Async A)) env w w' :
  Forall stateless ms ->
  exists os bs, startAll ms env w = (os, w, bs) /\ startAll ms env w' = (os, w', bs).
Proof.
  intros H. induction H as [| m ms Hm _ IH].
  - exists [], []. split; reflexivity.
  - destruct IH as (os & bs & E & E'). simpl.
    destruct (stateless_shape m env w w' Hm) as (o & t & -> & ->).
    rewrite E, E'. exists (o :: os), (calls_of t :: bs). split; reflexivity.
Qed.

Lemma stateless_promiseAll {A} (ms : list (Async A)) :
  Forall stateless ms -> stateless (promiseAll ms).
Proof.
  intros H env w w'. unfold promiseAll.
  destruct (startAll_stateless ms env w w' H) as (os & bs & -> & ->). reflexivity.
Qed.

Ltac stateless_step :=
  match goal with
  | |- stateless (ret _) => apply stateless_ret
  | |- stateless (throw _) => apply stateless_throw
  | |- stateless (await _ _) => apply stateless_await
  | |- stateless (start _) => apply stateless_start
  | |- stateless (bind ask _) => apply stateless_ask; intros ?env
  | |- stateless (bind _ _) => apply stateless_bind; [| intros ?]
  | |- stateless (try_catch _ _) => apply stateless_try_catch; [| intros ?]
  | |- stateless (if ?b then _ else _) => destruct b
  | |- stateless (match ?x with _ => _ end) => destruct x
  | |- stateless (let (_, _) := ?x in _) => destruct x
  end.

Lemma stateless_findMatchingVideos query vs : stateless (findMatchingVideos query vs).
Proof. unfold findMatchingVideos. repeat stateless_step. Qed.

Lemma stateless_generateChatResponse q n : stateless (generateChatResponse q n).
Proof. unfold generateChatResponse. repeat stateless_step. Qed.

Lemma stateless_cropFace frame box : stateless (cropFace frame box).
Proof. unfold cropFace. repeat stateless_step. Qed.

Lemma stateless_cropOne frames face : stateless (cropOne frames face).
Proof.
  unfold cropOne. repeat stateless_step; apply stateless_cropFace.
Qed.

Lemma stateless_analyzeVideoContent frames duration :
  stateless (analyzeVideoContent frames duration).
Proof.
  unfold analyzeVideoContent. repeat stateless_step.
  all: try (apply stateless_promiseAll, Forall_forall; intros m Hm;
            apply in_map_iff in Hm; destruct Hm as (face & <- & _);
            apply stateless_cropOne).
Qed.

Lemma stateless_captureFrameAt file time : stateless (captureFrameAt file time).
Proof. unfold captureFrameAt. repeat stateless_step. Qed.

Lemma stateless_captureLoop file interval remaining :
  forall i frames, stateless (captureLoop file interval i remaining frames).
Proof.
  induction remaining as [| r IH]; intros i frames; simpl.
  - apply stateless_ret.
  - apply stateless_bind; [apply stateless_captureFrameAt | intros data; apply IH].
Qed.

Lemma stateless_extractFrames file frameCount : stateless (extractFrames file frameCount).
Proof.
  unfold extractFrames. repeat stateless_step. all: try apply stateless_captureLoop.
Qed.

(** ** The analysis of the frames *)

Lemma frameAt_valid frames i frame :
  frameAt frames i = Some frame ->
  validIndex frames i /\ nth_error frames (Z.to_nat i) = Some frame /\ In frame frames.
Proof.
  unfold frameAt, validIndex. destruct (Z.ltb_spec i 0) as [Hneg | Hpos]; [discriminate |].
  intros H. split; [| split; [exact H | eapply nth_error_In; exact H]].
  assert (Hlt : (Z.to_nat i < List.length frames)%nat).
  { apply nth_error_Some. congruence. }
  lia.
Qed.

Lemma frameAt_invalid frames i : ~ validIndex frames i -> frameAt frames i = None.
Proof.
  unfold frameAt, validIndex. intros H.
  destruct (Z.ltb_spec i 0) as [Hneg | Hpos]; [reflexivity |].
  apply nth_error_None. lia.
Qed.

Lemma cropOne_run frames face env w :
  cropOne frames face env w =
  match frameAt frames (ai_frameIndex face) with
  | Some frame =>
      if String.eqb frame "" then mkRun (Resolved None) w []
      else match env_cropImage env frame (ai_box face) with
           | Some image =>
               mkRun (Resolved (Some {| af_description := ai_description face;
                                        af_image := image |}))
                     w [Await (CallCropFace frame)]
           | None => mkRun (Rejected NotAnError) w [Await (CallCropFace frame)]
           end
  | None => mkRun (Resolved None) w []
  end.
Proof.
  unfold cropOne. destruct (frameAt frames (ai_frameIndex face)) as [frame |]; [| reflexivity].
  destruct (String.eqb frame ""); [reflexivity |].
  unfold cropFace, bind, ask, await.
  destruct (env_cropImage env frame (ai_box face)); reflexivity.
Qed.

Lemma crops_settle frames faces env w :
  exists os bs,
    startAll (map (cropOne frames) faces) env w = (os, w, bs)
    /\ (forall l, settleAll os = Resolved l ->
                  filterBoolean l = flat_map (contribution env frames) faces)
    /\ Forall (fun b => b = [] \/ exists frame, b = [CallCropFace frame] /\ In frame frames) bs
    /\ ((forall face frame,
            In face faces -> frameAt frames (ai_frameIndex face) = Some frame ->
            frame <> "" -> env_cropImage env frame (ai_box face) <> None) ->
        exists l, settleAll os = Resolved l).
Proof.
  induction faces as [| face faces IH].
  - exists [], []. repeat split.
    + intros l H. inversion H. reflexivity.
    + constructor.
    + intros _. now exists [].
  - destruct IH as (os & bs & Hstart & Hres & Hbs & Hok).
    simpl. rewrite cropOne_run. unfold contribution.
    destruct (frameAt frames (ai_frameIndex face)) as [frame |] eqn:Hframe.
    + destruct (String.eqb_spec frame "") as [Hempty | Hne].
      * rewrite Hstart. do 2 eexists. split; [reflexivity |]. split; [| split].
        -- simpl. intros l H. destruct (settleAll os) as [l' |]; [| discriminate].
           inversion H; subst. simpl. now apply Hres.
        -- constructor; [now left | exact Hbs].
        -- intros Hall. destruct Hok as [l Hl].
           { intros f fr Hin. apply Hall. now right. }
           exists (None :: l). simpl. now rewrite Hl.
      * destruct (env_cropImage env frame (ai_box face)) as [image |] eqn:Hcrop.
        -- rewrite Hstart. do 2 eexists. split; [reflexivity |]. split; [| split].
           ++ simpl. intros l H. destruct (settleAll os) as [l' |]; [| discriminate].
              inversion H; subst. simpl. f_equal. now apply Hres.
           ++ constructor; [| exact Hbs]. right. exists frame. split; [reflexivity |].
              now apply (frameAt_valid _ _ _ Hframe).
           ++ intros Hall. destruct Hok as [l Hl].
              { intros f fr Hin. apply Hall. now right. }
              eexists. simpl. rewrite Hl. reflexivity.
        -- rewrite Hstart. do 2 eexists. split; [reflexivity |]. split; [| split].
           ++ simpl. discriminate.
           ++ constructor; [| exact Hbs]. right. exists frame. split; [reflexivity |].
              now apply (frameAt_valid _ _ _ Hframe).
           ++ intros Hall. exfalso.
              apply (Hall face frame); [now left | exact Hframe | exact Hne | exact Hcrop].
    + rewrite Hstart. do 2 eexists. split; [reflexivity |]. split; [| split].
      * simpl. intros l H. destruct (settleAll os) as [l' |]; [| discriminate].
        inversion H; subst. simpl. now apply Hres.
      * constructor; [now left | exact Hbs].
      * intros Hall. destruct Hok as [l Hl].
        { intros f fr Hin. apply Hall. now right. }
        exists (None :: l). simpl. now rewrite Hl.
Qed.

Lemma analyzeVideoContent_cases frames duration env w :
  (exists args description faces segments transcript onScreenText os bs,
      env_analyze env frames duration = AnalyzeFunctionCall "extractVideoDetails" args
      /\ args_description args = Some description
      /\ description <> ""
      /\ args_faces args = Some faces
      /\ args_segments args = Some segments
      /\ args_transcript args = Some transcript
      /\ args_onScreenText args = Some onScreenText
      /\ startAll (map (cropOne frames) faces) env w = (os, w, bs)
      /\ analyzeVideoContent frames duration env w =
         mkRun (match settleAll os with
                | Resolved faceCrops =>
                    Resolved {| ar_description := description;
                                ar_faces := filterBoolean faceCrops;
                                ar_segments := segments;
                                ar_transcript := transcript;
                                ar_onScreenText := onScreenText |}
                | Rejected _ =>
                    Rejected (Error "Failed to analyze video content with face detection.")
                end) w [Await (CallAnalyze frames); AwaitAll bs])
  \/ analyzeVideoContent frames duration env w =
     mkRun (Rejected (Error "Failed to analyze video content with face detection."))
           w [Await (CallAnalyze frames)].
Proof.
  unfold analyzeVideoContent, try_catch, bind, ask, await.
  destruct (env_analyze env frames duration) as [| | name args] eqn:Hreply;
    try (right; reflexivity).
  destruct (String.eqb_spec name "extractVideoDetails") as [-> | Hname];
    [| right; reflexivity].
  cbn [negb].
  destruct (args_description args) as [description |] eqn:Hd; [| right; reflexivity].
  destruct (args_faces args) as [faces |] eqn:Hf; [| right; reflexivity].
  destruct (args_segments args) as [segments |] eqn:Hs; [| right; reflexivity].
  destruct (args_transcript args) as [transcript |] eqn:Ht; [| right; reflexivity].
  destruct (args_onScreenText args) as [onScreenText |] eqn:Ho; [| right; reflexivity].
  destruct (String.eqb_spec description "") as [-> | Hne]; [right; reflexivity |].
  left. destruct (crops_settle frames faces env w) as (os & bs & Hstart & _).
  exists args, description, faces, segments, transcript, onScreenText, os, bs.
  repeat (split; [assumption || reflexivity |]).
  unfold promiseAll, ret, throw. rewrite Hstart.
  destruct (settleAll os); reflexivity.
Qed.

(** C10. In [analyzeVideoContent] a face whose [frameIndex] is not an index of
    the array of frames is dropped without an error: the faces of a result
    are the crops of the reported faces that have a frame, in order; a face
    with an invalid index adds nothing; every face of the result is the crop
    of the frame at a valid index; every crop that the operation starts is of
    a frame of the array; and when the reply of the service is well formed
    and the crops of the existing frames succeed, the analysis succeeds
    whatever the other indices are. *)
Theorem analysis_drops_missing_frames :
  forall env w frames duration,
    (forall result,
        outcome (analyzeVideoContent frames duration env w) = Resolved result ->
        exists args faces,
          env_analyze env frames duration = AnalyzeFunctionCall "extractVideoDetails" args
          /\ args_faces args = Some faces
          /\ ar_faces result = flat_map (contribution env frames) faces)
    /\ (forall face,
           ~ validIndex frames (ai_frameIndex face) -> contribution env frames face = [])
    /\ (forall face f,
           In f (contribution env frames face) ->
           validIndex frames (ai_frameIndex face)
           /\ exists frame,
               nth_error frames (Z.to_nat (ai_frameIndex face)) = Some frame
               /\ env_cropImage env frame (ai_box face) = Some (af_image f)
               /\ af_description f = ai_description face)
    /\ (forall frame,
           In (CallCropFace frame)
              (calls_of (trace (analyzeVideoContent frames duration env w))) ->
           In frame frames)
    /\ (forall args description faces segments transcript onScreenText,
           env_analyze env frames duration = AnalyzeFunctionCall "extractVideoDetails" args ->
           args_description args = Some description -> description <> "" ->
           args_faces args = Some faces ->
           args_segments args = Some segments ->
           args_transcript args = Some transcript ->
           args_onScreenText args = Some onScreenText ->
           (forall face frame,
               In face faces -> frameAt frames (ai_frameIndex face) = Some frame ->
               frame <> "" -> env_cropImage env frame (ai_box face) <> None) ->
           exists result,
             outcome (analyzeVideoContent frames duration env w) = Resolved result).
Proof.
  intros env w frames duration.
  split; [| split; [| split; [| split]]].
  - intros result Hres.
    destruct (analyzeVideoContent_cases frames duration env w)
      as [(args & description & faces & segments & transcript & ost & os & bs
           & Hreply & _ & _ & Hfaces & _ & _ & _ & Hstart & Hrun) | Hrun];
      rewrite Hrun in Hres; cbn [outcome] in Hres; [| discriminate].
    exists args, faces. split; [exact Hreply |]. split; [exact Hfaces |].
    destruct (crops_settle frames faces env w) as (os' & bs' & Hstart' & Hsettle & _).
    rewrite Hstart in Hstart'. inversion Hstart'; subst os' bs'.
    destruct (settleAll os) as [l |] eqn:E; [| discriminate].
    inversion Hres; subst result. cbn [ar_faces]. now apply Hsettle.
  - intros face Hinvalid. unfold contribution.
    now rewrite (frameAt_invalid _ _ Hinvalid).
  - intros face f. unfold contribution.
    destruct (frameAt frames (ai_frameIndex face)) as [frame |] eqn:Hframe; [| intros []].
    destruct (String.eqb frame ""); [intros [] |].
    destruct (env_cropImage env frame (ai_box face)) as [image |] eqn:Hcrop; [| intros []].
    intros [<- | []]. destruct (frameAt_valid _ _ _ Hframe) as (Hvalid & Hnth & _).
    split; [exact Hvalid |]. exists frame. repeat split; assumption.
  - intros frame.
    destruct (analyzeVideoContent_cases frames duration env w)
      as [(args & description & faces & segments & transcript & ost & os & bs
           & _ & _ & _ & _ & _ & _ & _ & Hstart & Hrun) | Hrun];
      rewrite Hrun; cbn [trace calls_of flat_map app].
    + destruct (crops_settle frames faces env w) as (os' & bs' & Hstart' & _ & Hbs & _).
      rewrite Hstart in Hstart'. inversion Hstart'; subst os' bs'.
      intros [H | H]; [discriminate |]. rewrite app_nil_r in H.
      apply in_concat in H. destruct H as (b & Hb & Hin).
      rewrite Forall_forall in Hbs. destruct (Hbs b Hb) as [-> | (fr & -> & Hfr)].
      * destruct Hin.
      * destruct Hin as [E | []]. inversion E; subst. exact Hfr.
    + intros [H | []]. discriminate.
  - intros args description faces segments transcript ost Hreply Hd Hne Hf Hs Ht Ho Hcrops.
    destruct (analyzeVideoContent_cases frames duration env w)
      as [(args' & description' & faces' & segments' & transcript' & ost' & os & bs
           & Hreply' & Hd' & _ & Hf' & _ & _ & _ & Hstart & Hrun) | Hrun].
    + rewrite Hreply in Hreply'. inversion Hreply'; subst args'.
      rewrite Hf in Hf'. inversion Hf'; subst faces'.
      destruct (crops_settle frames faces env w) as (os' & bs' & Hstart' & _ & _ & Hok).
      rewrite Hstart in Hstart'. inversion Hstart'; subst os' bs'.
      destruct (Hok Hcrops) as [l Hl]. rewrite Hrun, Hl. eexists. reflexivity.
    + exfalso. revert Hrun.
      unfold analyzeVideoContent, try_catch, bind, ask, await.
      rewrite Hreply. cbn [negb String.eqb Ascii.eqb Bool.eqb andb outcome world trace].
      rewrite Hd, Hf, Hs, Ht, Ho.
      destruct (String.eqb_spec description "") as [E | _]; [contradiction |].
      destruct (crops_settle frames faces env w) as (os & bs & Hstart & _ & _ & Hok).
      destruct (Hok Hcrops) as [l Hl].
      unfold promiseAll, ret. rewrite Hstart, Hl. discriminate.
Qed.

Lemma analysis_drops_missing_frames_witness :
  ~ validIndex ["frame0"; "frame1"] 99
  /\ contribution sampleEnv ["frame0"; "frame1"]
       {| ai_frameIndex := 99; ai_description := "ghost"; ai_box := sampleBox |} = [].
Proof.
  assert (H : ~ validIndex ["frame0"; "frame1"] 99).
  { unfold validIndex. simpl. lia. }
  split; [exact H |].
  exact (proj1 (proj2 (analysis_drops_missing_frames sampleEnv sampleWorld
                         ["frame0"; "frame1"] (Finite 26)))
           {| ai_frameIndex := 99; ai_description := "ghost"; ai_box := sampleBox |} H).
Defined.

(** ** The extraction of the frames *)

Lemma captureFrameAt_run file time env w :
  captureFrameAt file time env w =
  mkRun (match env_seeked env file time with
         | Some base64Data => Resolved base64Data
         | None => Rejected (Error ("Seek timed out at " ++ env_showNumber env time ++ "s")%string)
         end) w [Await (CallSeek time)].
Proof. reflexivity. Qed.

Lemma captureLoop_completes file interval env w remaining :
  forall i frames,
    (forall t, In t (seekTimes interval i remaining) -> env_seeked env file t <> None) ->
    captureLoop file interval i remaining frames env w =
    mkRun (Resolved (frames ++ map (capturedAt env file) (seekTimes interval i remaining)))
          w (map (fun t => Await (CallSeek t)) (seekTimes interval i remaining)).
Proof.
  induction remaining as [| r IH]; intros i frames Hall; simpl.
  - unfold ret. now rewrite app_nil_r.
  - unfold bind. rewrite captureFrameAt_run. unfold capturedAt at 1.
    destruct (env_seeked env file (jsMulPos i interval)) as [data |] eqn:E.
    + rewrite IH; [| intros t Ht; apply Hall; now right].
      cbn [app]. now rewrite <- app_assoc.
    + exfalso. apply (Hall (jsMulPos i interval)); [now left | exact E].
Qed.

Lemma captureLoop_times_out file interval env w remaining :
  forall i frames t,
    In t (seekTimes interval i remaining) -> env_seeked env file t = None ->
    exists t', In t' (seekTimes interval i remaining)
      /\ outcome (captureLoop file interval i remaining frames env w)
         = Rejected (Error ("Seek timed out at " ++ env_showNumber env t' ++ "s")%string).
Proof.
  induction remaining as [| r IH]; intros i frames t Hin Hnone; simpl in *; [destruct Hin |].
  unfold bind. rewrite captureFrameAt_run.
  destruct (env_seeked env file (jsMulPos i interval)) as [data |] eqn:E.
  - destruct Hin as [<- | Hin]; [congruence |].
    destruct (IH (Pos.succ i) (frames ++ [data]) t Hin Hnone) as (t' & Hin' & Hout).
    exists t'. split; [now right |].
    destruct (captureLoop file interval (Pos.succ i) r (frames ++ [data]) env w); simpl in *.
    exact Hout.
  - exists (jsMulPos i interval). split; [now left | reflexivity].
Qed.

Lemma seekTimes_length interval remaining : forall i,
  List.length (seekTimes interval i remaining) = remaining.
Proof. induction remaining as [| r IH]; intros i; simpl; [reflexivity | now rewrite IH]. Qed.

Lemma seekTimes_nth interval remaining : forall i k,
  (k < remaining)%nat ->
  nth_error (seekTimes interval i remaining) k
  = Some (jsMulPos (Pos.of_nat (Pos.to_nat i + k)) interval).
Proof.
  induction remaining as [| r IH]; intros i k Hk; [lia |].
  destruct k as [| k]; simpl.
  - now rewrite Nat.add_0_r, Pos2Nat.id.
  - rewrite IH by lia. do 3 f_equal. rewrite Pos2Nat.inj_succ. lia.
Qed.

Lemma extractFrames_run file frameCount env w duration :
  env_getContext env = true ->
  env_loadedmetadata env file = Some duration ->
  extractFrames file frameCount env w =
  if isZero duration || negb (isFinite duration)
  then mkRun (Rejected (Error "Video has no duration or is invalid.")) w
             [Await (CallLoadMetadata file); Started CallPlay]
  else
    match captureLoop file (jsDivPos duration (Pos.of_succ_nat frameCount)) 1 frameCount []
                      env w with
    | mkRun (Resolved frames) w1 t1 =>
        mkRun (Resolved (frames, duration)) w1
              (Await (CallLoadMetadata file) :: Started CallPlay :: t1)
    | mkRun (Rejected e) w1 t1 =>
        mkRun (Rejected e) w1 (Await (CallLoadMetadata file) :: Started CallPlay :: t1)
    end.
Proof.
  intros Hctx Hmeta. unfold extractFrames, bind, ask, await, start, try_catch, throw, ret.
  rewrite Hctx, Hmeta. cbn [negb].
  destruct (isZero duration || negb (isFinite duration)); [reflexivity |].
  destruct (captureLoop _ _ _ _ _ env w) as [[frames | e] w1 t1]; cbn [app];
    now rewrite ?app_nil_r.
Qed.

Lemma sample_time d n k :
  jsMulPos (Pos.of_nat (Pos.to_nat 1 + k)) (jsDivPos (Finite d) (Pos.of_succ_nat n))
  = Finite (inject_Z (Z.of_nat (S k)) * (d / inject_Z (Z.of_nat n + 1))).
Proof.
  unfold jsMulPos, jsDivPos. rewrite Pos2Nat.inj_1. cbn [Nat.add].
  rewrite <- Pos.of_nat_succ, !Zpos_P_of_succ_nat.
  rewrite Nat2Z.inj_succ. reflexivity.
Qed.

Lemma interval_positive d n : (0 < d)%Q -> (0 < d / inject_Z (Z.of_nat n + 1))%Q.
Proof.
  intros Hd. apply Qlt_shift_div_l.
  - change 0%Q with (inject_Z 0). rewrite <- Zlt_Qlt. lia.
  - now rewrite Qmult_0_l.
Qed.



(** ** Tables *)

Section TableFacts.
Variable R : Type.
Variable key : R -> string.

Lemma table_get_None k t :
  table_get key k t = None <-> forall r, In r t -> key r <> k.
Proof.
  induction t as [| r t IH]; simpl.
  - split; [intros _ r [] | reflexivity].
  - destruct (String.eqb_spec (key r) k) as [E | E].
    + split; [discriminate |]. intros H. exfalso. apply (H r); [now left | exact E].
    + rewrite IH. split.
      * intros H x [<- | Hx]; [exact E | now apply H].
      * intros H x Hx. apply H. now right.
Qed.

Lemma table_get_Some k t r :
  table_get key k t = Some r -> In r t /\ key r = k.
Proof.
  induction t as [| x t IH]; simpl; [discriminate |].
  destruct (String.eqb_spec (key x) k) as [E | E].
  - intros H. inversion H; subst. split; [now left | reflexivity].
  - intros H. destruct (IH H) as [Hin Hk]. split; [now right | exact Hk].
Qed.

Lemma table_insert_perm r t : Permutation (table_insert key r t) (r :: t).
Proof.
  induction t as [| x t IH]; simpl; [reflexivity |].
  destruct (key r <? key x)%string; [reflexivity |].
  rewrite IH. apply perm_swap.
Qed.

Lemma table_insert_In r t x : In x (table_insert key r t) <-> x = r \/ In x t.
Proof.
  split.
  - intros H. apply (Permutation_in _ (table_insert_perm r t)) in H.
    destruct H as [<- | H]; [now left | now right].
  - intros H. apply (Permutation_in _ (Permutation_sym (table_insert_perm r t))).
    destruct H as [-> | H]; [now left | now right].
Qed.

Lemma table_bulkAdd_keeps rs : forall t x,
  In x t -> In x (fst (table_bulkAdd key rs t)).
Proof.
  induction rs as [| r rs IH]; intros t x Hx; simpl; [exact Hx |].
  unfold table_add. destruct (table_get key (key r) t).
  - simpl. now apply IH.
  - apply IH. apply table_insert_In. now right.
Qed.

Lemma table_bulkAdd_users (P : R -> Prop) rs : forall t,
  Forall P rs -> Forall P t -> Forall P (fst (table_bulkAdd key rs t)).
Proof.
  induction rs as [| r rs IH]; intros t Hrs Ht; simpl; [exact Ht |].
  inversion Hrs; subst. unfold table_add. destruct (table_get key (key r) t).
  - simpl. now apply IH.
  - apply IH; [assumption |]. apply Forall_forall. intros x Hx.
    apply table_insert_In in Hx. destruct Hx as [-> | Hx]; [assumption |].
    rewrite Forall_forall in Ht. now apply Ht.
Qed.

Lemma table_bulkAdd_all rs : forall t,
  snd (table_bulkAdd key rs t) = true ->
  forall r, In r rs ->
            In r (fst (table_bulkAdd key rs t)) /\ table_get key (key r) t = None.
Proof.
  induction rs as [| r rs IH]; intros t Hok x Hx; [destruct Hx |].
  simpl in *. unfold table_add in *.
  destruct (table_get key (key r) t) eqn:Hfree; [discriminate |].
  destruct Hx as [<- | Hx].
  - split; [| exact Hfree]. apply table_bulkAdd_keeps, table_insert_In. now left.
  - destruct (IH _ Hok x Hx) as [Hin Hnone]. split; [exact Hin |].
    apply table_get_None. intros y Hy. rewrite table_get_None in Hnone.
    apply Hnone, table_insert_In. now right.
Qed.
End TableFacts.

(** ** The upload *)

Lemma loadUserData_run env w :
  loadUserData env w =
  match truthyUserId (currentUser (w_auth w)) with
  | None => mkRun (Resolved tt) w []
  | Some userId =>
      mkRun (Resolved tt)
            (with_app (fun a =>
                         put_isLoading false
                           (put_allFaces (db_getFacesForUser userId (w_db w))
                              (put_videos
                                 (map (fun v => {| ui_video := v;
                                                   ui_url := env_createObjectURL env (video_file v) |})
                                      (db_getVideosForUser userId (w_db w))) a))) w)
            [AwaitAll [[CallGetVideosForUser userId]; [CallGetFacesForUser userId]]]
  end.
Proof.
  unfold loadUserData, bind, get.
  destruct (truthyUserId (currentUser (w_auth w))) as [userId |]; [| reflexivity].
  cbn. f_equal; same_world.
Qed.

Lemma collectFaces_run userId env faces : forall newFaces w,
  exists added w',
    collectFaces userId faces newFaces env w
    = mkRun (Resolved (map face_id added, newFaces ++ added)) w' []
    /\ w_db w' = w_db w
    /\ w_auth w' = w_auth w
    /\ Forall2 (faceOf userId) faces added.
Proof.
  induction faces as [| faceData faces IH]; intros newFaces w.
  - exists [], w. simpl. unfold ret. rewrite app_nil_r. repeat split. constructor.
  - simpl. unfold bind at 1. unfold dateNow. unfold bind at 1. unfold randomSuffix.
    unfold bind at 1.
    match goal with
    | |- context [collectFaces userId faces (newFaces ++ [?f]) env ?w1] =>
        destruct (IH (newFaces ++ [f]) w1) as (added & w' & Hrun & Hdb & Hauth & Hall);
        exists (f :: added), w'; rewrite Hrun
    end.
    cbn -[string_of_Z]. rewrite <- app_assoc. split; [reflexivity |].
    split; [exact Hdb |]. split; [exact Hauth |].
    constructor; [repeat split | exact Hall].
Qed.

Lemma handleUpload_skips env w file analysisResult duration :
  truthyUserId (currentUser (w_auth w)) = None ->
  handleUpload file analysisResult duration env w = mkRun (Resolved tt) w [].
Proof. intros H. unfold handleUpload, bind, get. now rewrite H. Qed.

Lemma addFaces_stage added env w :
  exists o w' t,
    (if (0 <? List.length added)%nat then (addFaces added ;; ret tt) else ret tt) env w
    = mkRun o w' t
    /\ db_users (w_db w') = db_users (w_db w)
    /\ db_videos (w_db w') = db_videos (w_db w)
    /\ db_faces (w_db w') = fst (table_bulkAdd face_id added (db_faces (w_db w)))
    /\ w_auth w' = w_auth w
    /\ ((o = Resolved tt /\ snd (table_bulkAdd face_id added (db_faces (w_db w))) = true)
        \/ exists e, o = Rejected e).
Proof.
  destruct added as [| f added].
  - exists (Resolved tt), w, []. repeat split. left. split; reflexivity.
  - cbn [List.length Nat.ltb Nat.leb]. unfold addFaces, bind, get, db_addFaces.
    destruct (table_bulkAdd face_id (f :: added) (db_faces (w_db w))) as [t ok] eqn:E.
    destruct ok; do 3 eexists; (split; [reflexivity |]); cbn; repeat split.
    + left. split; reflexivity.
    + right. eexists; reflexivity.
Qed.

Lemma addVideo_stage video env w :
  exists o w' t,
    addVideo video env w = mkRun o w' t
    /\ db_users (w_db w') = db_users (w_db w)
    /\ db_faces (w_db w') = db_faces (w_db w)
    /\ w_auth w' = w_auth w
    /\ ((o = Resolved (video_id video)
         /\ table_get video_id (video_id video) (db_videos (w_db w)) = None
         /\ db_videos (w_db w') = table_insert video_id video (db_videos (w_db w)))
        \/ ((exists e, o = Rejected e) /\ db_videos (w_db w') = db_videos (w_db w))).
Proof.
  unfold addVideo, bind, get, db_addVideo, table_add.
  destruct (table_get video_id (video_id video) (db_videos (w_db w))) eqn:E;
    do 3 eexists; (split; [reflexivity |]); cbn; repeat split.
  - right. split; [eexists; reflexivity | reflexivity].
  - left. repeat split.
Qed.

Lemma loadUserData_keeps_db env w :
  w_db (world (loadUserData env w)) = w_db w
  /\ outcome (loadUserData env w) = Resolved tt.
Proof.
  rewrite loadUserData_run.
  destruct (truthyUserId (currentUser (w_auth w))); split; reflexivity.
Qed.

Lemma handleUpload_db env w file analysisResult duration userId :
  truthyUserId (currentUser (w_auth w)) = Some userId ->
  let r := handleUpload file analysisResult duration env w in
  let d := w_db w in
  let d' := w_db (world r) in
  exists newFaces video,
    Forall2 (faceOf userId) (ar_faces analysisResult) newFaces
    /\ videoOf userId file analysisResult duration (map face_id newFaces) video
    /\ db_users d' = db_users d
    /\ db_faces d' = fst (table_bulkAdd face_id newFaces (db_faces d))
    /\ ((outcome r = Resolved tt
         /\ snd (table_bulkAdd face_id newFaces (db_faces d)) = true
         /\ table_get video_id (video_id video) (db_videos d) = None
         /\ db_videos d' = table_insert video_id video (db_videos d))
        \/ (rejects r /\ db_videos d' = db_videos d)).
Proof.
  intros Huser. cbv zeta.
  remember (handleUpload file analysisResult duration env w) as r eqn:Hr.
  unfold handleUpload in Hr. unfold bind at 1 in Hr. unfold get in Hr.
  rewrite Huser in Hr. unfold bind at 1 in Hr.
  destruct (collectFaces_run userId env (ar_faces analysisResult) [] w)
    as (added & w1 & Hrun & Hdb & Hauth & Hall).
  rewrite Hrun in Hr. cbn [app] in Hr. clear Hrun.
  unfold bind at 1 in Hr.
  destruct (addFaces_stage added env w1)
    as (o2 & w2 & t2 & Hrun & Husers2 & Hvideos2 & Hfaces2 & Hauth2 & Ho2).
  rewrite Hrun in Hr. clear Hrun. rewrite Hdb in *.
  exists added.
  destruct Ho2 as [[-> Hok] | [e ->]].
  - unfold bind at 1, dateNow in Hr. unfold bind at 1, randomSuffix in Hr.
    unfold bind at 1 in Hr.
    match type of Hr with
    | context [addVideo ?v env ?w3] =>
        destruct (addVideo_stage v env w3)
          as (o4 & w4 & t4 & Hrun & Husers4 & Hfaces4 & Hauth4 & Ho4);
        rewrite Hrun in Hr; clear Hrun; exists v
    end.
    cbn [w_db w_auth with_nowCalls with_randomCalls] in *.
    split; [exact Hall |]. split; [repeat split |].
    destruct Ho4 as [(-> & Hfree & Hvideos4) | [[e ->] Hvideos4]].
    + destruct (loadUserData_keeps_db env w4) as [Hdb5 Hout5].
      destruct (loadUserData env w4) as [o5 w5 t5]. cbn [outcome world] in *.
      subst r o5. cbn [outcome world]. rewrite Hdb5.
      split; [congruence |]. split; [congruence |]. left.
      split; [reflexivity |]. split; [exact Hok |].
      rewrite Hvideos2 in *. split; assumption.
    + subst r. cbn [outcome world].
      split; [congruence |]. split; [congruence |]. right.
      split; [eexists; reflexivity | congruence].
  - subst r. cbn [outcome world].
    eexists {| video_id := ""; video_userId := userId; video_name := file_name file;
               video_file := file; video_description := ar_description analysisResult;
               video_duration := duration; video_faceIds := map face_id added;
               video_segments := ar_segments analysisResult;
               video_transcript := ar_transcript analysisResult;
               video_onScreenText := ar_onScreenText analysisResult |}.
    split; [exact Hall |]. split; [repeat split |].
    split; [congruence |]. split; [congruence |]. right.
    split; [eexists; reflexivity | congruence].
Qed.

Lemma faceOf_userId userId faces newFaces :
  Forall2 (faceOf userId) faces newFaces ->
  forall f, In f newFaces -> face_userId f = userId.
Proof.
  induction 1 as [| faceData f faces newFaces Hf _ IH]; intros x Hx; [destruct Hx |].
  destruct Hx as [<- | Hx]; [apply Hf | now apply IH].
Qed.

Lemma upload_keeps_integrity d d' userId newFaces :
  refIntegrity d ->
  (exists u, In u (db_users d) /\ user_id u = Some userId) ->
  (forall f, In f newFaces -> face_userId f = userId) ->
  db_users d' = db_users d ->
  db_faces d' = fst (table_bulkAdd face_id newFaces (db_faces d)) ->
  (db_videos d' = db_videos d
   \/ exists video,
       db_videos d' = table_insert video_id video (db_videos d)
       /\ video_userId video = userId
       /\ video_faceIds video = map face_id newFaces
       /\ snd (table_bulkAdd face_id newFaces (db_faces d)) = true) ->
  refIntegrity d'.
Proof.
  intros (Hvf & Hvu & Hfu) Huser Hnew Husers Hfaces Hvideos.
  assert (Hold : forall v faceId,
             In v (db_videos d) -> In faceId (video_faceIds v) ->
             exists f, In f (db_faces d') /\ face_id f = faceId
                       /\ face_userId f = video_userId v).
  { intros v faceId Hv Hid. destruct (Hvf v faceId Hv Hid) as (f & Hf & Hrest).
    exists f. split; [| exact Hrest]. rewrite Hfaces. now apply table_bulkAdd_keeps. }
  split; [| split].
  - intros v faceId Hv Hid. destruct Hvideos as [E | (video & E & Hvuser & Hvids & Hok)];
      rewrite E in Hv; [now apply Hold |].
    apply table_insert_In in Hv. destruct Hv as [-> | Hv]; [| now apply Hold].
    rewrite Hvids in Hid. apply in_map_iff in Hid. destruct Hid as (f & <- & Hf).
    exists f. split; [| split; [reflexivity | rewrite Hvuser; now apply Hnew]].
    rewrite Hfaces. now apply (table_bulkAdd_all _ face_id newFaces (db_faces d) Hok f Hf).
  - intros v Hv. rewrite Husers. destruct Hvideos as [E | (video & E & Hvuser & _)];
      rewrite E in Hv; [now apply Hvu |].
    apply table_insert_In in Hv. destruct Hv as [-> | Hv]; [| now apply Hvu].
    now rewrite Hvuser.
  - rewrite Husers, Hfaces.
    apply (proj1 (Forall_forall
                    (fun f => exists u, In u (db_users d) /\ user_id u = Some (face_userId f))
                    _)).
    apply table_bulkAdd_users.
    + apply Forall_forall. intros f Hf. now rewrite (Hnew f Hf).
    + apply Forall_forall. exact Hfu.
Qed.



(** ** Errors of the service *)

Lemma analyzeVideoContent_rejection frames duration env w e :
  outcome (analyzeVideoContent frames duration env w) = Rejected e ->
  e = Error "Failed to analyze video content with face detection.".
Proof.
  destruct (analyzeVideoContent_cases frames duration env w)
    as [(args & description & faces & segments & transcript & ost & os & bs
         & _ & _ & _ & _ & _ & _ & _ & _ & Hrun) | Hrun]; rewrite Hrun; cbn [outcome].
  - destruct (settleAll os); congruence.
  - congruence.
Qed.

Lemma analyzeVideoContent_one_request frames duration env w :
  exists rest,
    trace (analyzeVideoContent frames duration env w) = Await (CallAnalyze frames) :: rest
    /\ forall c, In c (calls_of rest) -> exists frame, c = CallCropFace frame.
Proof.
  destruct (analyzeVideoContent_cases frames duration env w)
    as [(args & description & faces & segments & transcript & ost & os & bs
         & _ & _ & _ & _ & _ & _ & _ & Hstart & Hrun) | Hrun]; rewrite Hrun; cbn [trace].
  - eexists. split; [reflexivity |]. cbn [calls_of flat_map]. rewrite app_nil_r.
    intros c Hc. apply in_concat in Hc. destruct Hc as (b & Hb & Hc).
    destruct (crops_settle frames faces env w) as (os' & bs' & Hstart' & _ & Hbs & _).
    rewrite Hstart in Hstart'. inversion Hstart'; subst os' bs'.
    rewrite Forall_forall in Hbs. destruct (Hbs b Hb) as [-> | (frame & -> & _)].
    + destruct Hc.
    + destruct Hc as [<- | []]. now exists frame.
  - exists []. split; [reflexivity | intros c []].
Qed.

Lemma submitUpload_analysis_fails env w file frames duration e :
  videoFile (w_modal w) = Some file ->
  outcome (extractFrames file 12 env w) = Resolved (frames, duration) ->
  frames <> [] ->
  outcome (analyzeVideoContent frames duration env w) = Rejected e ->
  submitUpload env w =
  mkRun (Resolved tt)
        (with_modal (fun m =>
           put_isAnalyzing false
             (put_modal_error
                (Some ("Analysis failed: "
                       ++ messageOr "An unknown error occurred during analysis." e)%string) m))
           w)
        (trace (extractFrames file 12 env w)
         ++ trace (analyzeVideoContent frames duration env w)).
Proof.
  intros Hfile Hframes Hne Hfail.
  unfold submitUpload, handleSubmit. unfold bind at 1. unfold get. rewrite Hfile.
  unfold setIsAnalyzing, setModalError, modify. unfold bind at 1. unfold bind at 1.
  unfold try_finally, try_catch. unfold bind at 1.
  match goal with
  | |- context [extractFrames file 12 env ?w1] =>
      destruct (stateless_shape (extractFrames file 12) env w w1
                  (stateless_extractFrames file 12)) as (o & t & E0 & E1);
      rewrite E1; rewrite E0 in *; cbn [outcome trace] in *; subst o;
      destruct frames as [| f frames]; [now contradiction Hne |];
      cbn [List.length Nat.eqb]; unfold bind at 1;
      destruct (stateless_shape (analyzeVideoContent (f :: frames) duration) env w w1
                  (stateless_analyzeVideoContent (f :: frames) duration))
        as (o' & t' & E0' & E1');
      rewrite E1'; rewrite E0' in *; cbn [outcome trace] in *; subst o'
  end.
  cbn [app]. f_equal; first [now rewrite !app_nil_r | apply world_ext; reflexivity].
Qed.

Lemma submitUpload_extraction_fails env w file e :
  videoFile (w_modal w) = Some file ->
  outcome (extractFrames file 12 env w) = Rejected e ->
  submitUpload env w =
  mkRun (Resolved tt)
        (with_modal (fun m =>
           put_isAnalyzing false
             (put_modal_error
                (Some ("Analysis failed: "
                       ++ messageOr "An unknown error occurred during analysis." e)%string) m))
           w)
        (trace (extractFrames file 12 env w)).
Proof.
  intros Hfile Hfail.
  unfold submitUpload, handleSubmit. unfold bind at 1. unfold get. rewrite Hfile.
  unfold setIsAnalyzing, setModalError, modify. unfold bind at 1. unfold bind at 1.
  unfold try_finally, try_catch. unfold bind at 1.
  match goal with
  | |- context [extractFrames file 12 env ?w1] =>
      destruct (stateless_shape (extractFrames file 12) env w w1
                  (stateless_extractFrames file 12)) as (o & t & E0 & E1);
      rewrite E1; rewrite E0 in *; cbn [outcome trace] in *; subst o
  end.
  cbn [app]. f_equal; first [now rewrite !app_nil_r | apply world_ext; reflexivity].
Qed.

(** A failing chat request is answered with a sentence made from the number
    of matches, and no error is shown: it is not so that every failing call
    of the service ends in an error message. *)
Lemma chat_failure_yields_fallback :
  env_chat sampleEnv "beach" 1 = None
  /\ outcome (generateChatResponse "beach" 1 sampleEnv sampleWorld)
     = Resolved "I found 1 video(s) that match your memory."
  /\ error (w_app (after (handleSearch "beach") sampleEnv sampleWorld)) = None
  /\ map msg_text (chatHistory (w_app (after (handleSearch "beach") sampleEnv sampleWorld)))
     = ["beach"; "I found 1 video(s) that match your memory."]
  /\ ~ (forall env w query n,
          env_chat env query n = None -> rejects (generateChatResponse query n env w)).
Proof.
  split; [reflexivity |]. split; [vm_compute; reflexivity |].
  split; [vm_compute; reflexivity |]. split; [vm_compute; reflexivity |].
  intros H. destruct (H sampleEnv sampleWorld "beach" 1%nat eq_refl) as [e He].
  vm_compute in He. discriminate.
Qed.

(** C3, as amended.  The errors of the search request and of the analysis
    request are caught where the service is called and shown as plain
    strings, without a second attempt: when the search request fails,
    [handleSearch] has made that one request, sets the error of the page to
    the message of the search and answers in the chat with an apology and no
    videos; when the extraction of the frames or the analysis fails, the
    upload dialog shows its message after ["Analysis failed: "], the store is
    left as it was, and the analysis was requested at most once.  A failing
    chat request is the exception: [generateChatResponse] then resolves to
    the fallback reply for the number of matches, and a search that succeeds
    leaves the error of the page empty. *)
Theorem service_errors_surface_except_chat :
  forall env w query,
    let vs := videos (w_app w) in
    let candidates := videosToSearch vs (selectedFaceIds (w_app w)) in
    (candidates <> [] ->
     env_search env query (simplifiedVideos candidates) = SearchThrows ->
     trace (handleSearch query env w)
     = [Await (CallSearch query (simplifiedVideos candidates))]
     /\ error (w_app (after (handleSearch query) env w))
        = Some "Failed to search videos. Please try again."
     /\ exists userMessage aiMessage,
         chatHistory (w_app (after (handleSearch query) env w))
         = chatHistory (w_app w) ++ [userMessage; aiMessage]
         /\ msg_text aiMessage
            = "Sorry, I encountered an error: Failed to search videos. Please try again."
         /\ msg_videos aiMessage = None)
    /\ (forall n,
           env_chat env query n = None ->
           generateChatResponse query n env w
           = mkRun (Resolved (fallbackReply n)) w [Await (CallChat query n)])
    /\ (~ rejects (findMatchingVideos query candidates env w) ->
        error (w_app (after (handleSearch query) env w)) = None)
    /\ (forall file frames duration e,
           videoFile (w_modal w) = Some file ->
           outcome (extractFrames file 12 env w) = Resolved (frames, duration) ->
           frames <> [] ->
           outcome (analyzeVideoContent frames duration env w) = Rejected e ->
           modal_error (w_modal (after submitUpload env w))
           = Some "Analysis failed: Failed to analyze video content with face detection."
           /\ w_db (after submitUpload env w) = w_db w
           /\ exists rest,
               trace (submitUpload env w)
               = trace (extractFrames file 12 env w) ++ Await (CallAnalyze frames) :: rest
               /\ forall c, In c (calls_of rest) -> exists frame, c = CallCropFace frame)
    /\ (forall file e,
           videoFile (w_modal w) = Some file ->
           outcome (extractFrames file 12 env w) = Rejected e ->
           modal_error (w_modal (after submitUpload env w))
           = Some ("Analysis failed: "
                   ++ messageOr "An unknown error occurred during analysis." e)%string
           /\ w_db (after submitUpload env w) = w_db w
           /\ trace (submitUpload env w) = trace (extractFrames file 12 env w)).
Proof.
  intros env w query vs candidates.
  split; [| split; [| split; [| split]]].
  - intros Hne Hthrows. unfold after. rewrite handleSearch_run. cbv zeta.
    fold vs. fold candidates. rewrite findMatchingVideos_run.
    destruct candidates as [| c cs] eqn:Hc; [now contradiction Hne |].
    rewrite Hthrows. cbn -[string_of_Z]. split; [reflexivity |]. split; [reflexivity |].
    do 2 eexists. split; [reflexivity |]. split; reflexivity.
  - intros n Hn. rewrite generateChatResponse_run, Hn. reflexivity.
  - intros Hok. unfold after. rewrite handleSearch_run. cbv zeta.
    fold vs. fold candidates.
    destruct (outcome (findMatchingVideos query candidates env w)) as [ids | e] eqn:E.
    + reflexivity.
    + exfalso. apply Hok. now exists e.
  - intros file frames duration e Hfile Hframes Hne Hfail. unfold after.
    rewrite (submitUpload_analysis_fails env w file frames duration e Hfile Hframes Hne Hfail).
    rewrite (analyzeVideoContent_rejection frames duration env w e Hfail).
    split; [reflexivity |]. split; [reflexivity |].
    destruct (analyzeVideoContent_one_request frames duration env w) as (rest & Ht & Hrest).
    exists rest. cbn [trace]. rewrite Ht. split; [reflexivity | exact Hrest].
  - intros file e Hfile Hfail. unfold after.
    rewrite (submitUpload_extraction_fails env w file e Hfile Hfail).
    repeat split.
Qed.

Lemma service_errors_surface_except_chat_witness :
  env_chat sampleEnv "beach" 1 = None
  /\ generateChatResponse "beach" 1 sampleEnv sampleWorld
     = mkRun (Resolved (fallbackReply 1)) sampleWorld [Await (CallChat "beach" 1)].
Proof.
  split; [reflexivity |].
  apply (proj1 (proj2 (service_errors_surface_except_chat sampleEnv sampleWorld "beach"))).
  reflexivity.
Defined.

(** ** Promises that are awaited together *)

Section Together.
Variable P : list (list Call) -> Prop.

Lemma together_ret {A} (a : A) : awaitsTogether P (ret a).
Proof. intros env w bs []. Qed.

Lemma together_throw {A} e : awaitsTogether P (@throw A e).
Proof. intros env w bs []. Qed.

Lemma together_ask : awaitsTogether P ask.
Proof. intros env w bs []. Qed.

Lemma together_get : awaitsTogether P get.
Proof. intros env w bs []. Qed.

Lemma together_modify f : awaitsTogether P (modify f).
Proof. intros env w bs []. Qed.

Lemma together_dateNow : awaitsTogether P dateNow.
Proof. intros env w bs []. Qed.

Lemma together_randomSuffix : awaitsTogether P randomSuffix.
Proof. intros env w bs []. Qed.

Lemma together_await {A} c (o : Outcome A) : awaitsTogether P (await c o).
Proof. intros env w bs [H | []]. discriminate. Qed.

Lemma together_start c : awaitsTogether P (start c).
Proof. intros env w bs [H | []]. discriminate. Qed.

Lemma together_bind {A B} (m : Async A) (k : A -> Async B) :
  awaitsTogether P m -> (forall a, awaitsTogether P (k a)) -> awaitsTogether P (bind m k).
Proof.
  intros Hm Hk env w bs. unfold bind. specialize (Hm env w bs).
  destruct (m env w) as [[a | e] w1 t1]; cbn [trace] in *; [| exact Hm].
  specialize (Hk a env w1 bs). destruct (k a env w1) as [o w2 t2]. cbn [trace] in *.
  intros H. apply in_app_or in H. destruct H; auto.
Qed.

Lemma together_try_catch {A} (m : Async A) (h : Thrown -> Async A) :
  awaitsTogether P m -> (forall e, awaitsTogether P (h e)) ->
  awaitsTogether P (try_catch m h).
Proof.
  intros Hm Hh env w bs. unfold try_catch. specialize (Hm env w bs).
  destruct (m env w) as [[a | e] w1 t1]; cbn [trace] in *; [exact Hm |].
  specialize (Hh e env w1 bs). destruct (h e env w1) as [o w2 t2]. cbn [trace] in *.
  intros H. apply in_app_or in H. destruct H; auto.
Qed.

Lemma together_try_finally {A} (m : Async A) (f : Async unit) :
  awaitsTogether P m -> awaitsTogether P f -> awaitsTogether P (try_finally m f).
Proof.
  intros Hm Hf env w bs. unfold try_finally. specialize (Hm env w bs).
  destruct (m env w) as [o w1 t1]. cbn [trace] in *.
  specialize (Hf env w1 bs). destruct (f env w1) as [[[] | e] w2 t2]; cbn [trace] in *;
    intros H; apply in_app_or in H; destruct H; auto.
Qed.

Lemma together_detached {A} (m : Async A) :
  awaitsTogether P m -> awaitsTogether P (detached m).
Proof.
  intros Hm env w bs. unfold detached. specialize (Hm env w bs).
  destruct (m env w) as [o w1 t1]. cbn [trace] in *.
  intros [H | H]; [discriminate | auto].
Qed.

Lemma together_ignore {A} (m : Async A) :
  awaitsTogether P m -> awaitsTogether P (ignore m).
Proof.
  intros Hm. unfold ignore. apply together_bind; [exact Hm |].
  intros a. apply together_ret.
Qed.
End Together.

Ltac together_step :=
  match goal with
  | |- awaitsTogether _ (ret _) => apply together_ret
  | |- awaitsTogether _ (throw _) => apply together_throw
  | |- awaitsTogether _ ask => apply together_ask
  | |- awaitsTogether _ get => apply together_get
  | |- awaitsTogether _ (modify _) => apply together_modify
  | |- awaitsTogether _ dateNow => apply together_dateNow
  | |- awaitsTogether _ randomSuffix => apply together_randomSuffix
  | |- awaitsTogether _ (await _ _) => apply together_await
  | |- awaitsTogether _ (start _) => apply together_start
  | |- awaitsTogether _ (ignore _) => apply together_ignore
  | |- awaitsTogether _ (bind _ _) => apply together_bind; [| intros ?]
  | |- awaitsTogether _ (try_catch _ _) => apply together_try_catch; [| intros ?]
  | |- awaitsTogether _ (try_finally _ _) => apply together_try_finally
  | |- awaitsTogether _ (detached _) => apply together_detached
  | |- awaitsTogether _ (if ?b then _ else _) => destruct b
  | |- awaitsTogether _ (match ?x with _ => _ end) => destruct x
  | |- awaitsTogether _ (let (_, _) := ?x in _) => destruct x
  | |- awaitsTogether _ (setCurrentUser _) => unfold setCurrentUser
  | |- awaitsTogether _ (setVideos _) => unfold setVideos
  | |- awaitsTogether _ (setAllFaces _) => unfold setAllFaces
  | |- awaitsTogether _ (setIsLoading _) => unfold setIsLoading
  | |- awaitsTogether _ (setError _) => unfold setError
  | |- awaitsTogether _ (setSearchActive _) => unfold setSearchActive
  | |- awaitsTogether _ (setIsModalOpen _) => unfold setIsModalOpen
  | |- awaitsTogether _ (setSelectedFaceIds _) => unfold setSelectedFaceIds
  | |- awaitsTogether _ (appendChat _) => unfold appendChat
  | |- awaitsTogether _ (setModalError _) => unfold setModalError
  | |- awaitsTogether _ (setIsAnalyzing _) => unfold setIsAnalyzing
  | |- awaitsTogether _ (getUserByEmail _) => unfold getUserByEmail
  | |- awaitsTogether _ (getUserById _) => unfold getUserById
  | |- awaitsTogether _ (createUser _) => unfold createUser
  | |- awaitsTogether _ (addVideo _) => unfold addVideo
  | |- awaitsTogether _ (getVideosForUser _) => unfold getVideosForUser
  | |- awaitsTogether _ (addFaces _) => unfold addFaces
  | |- awaitsTogether _ (getFacesForUser _) => unfold getFacesForUser
  | |- awaitsTogether _ (updateFaceName _ _) => unfold updateFaceName
  | |- awaitsTogether _ (cropFace _ _) => unfold cropFace
  | |- awaitsTogether _ (captureFrameAt _ _) => unfold captureFrameAt
  end.

Section TogetherOperations.
Variable P : list (list Call) -> Prop.
Hypothesis P_reads : forall branches, readPair branches -> P branches.
Hypothesis P_crops : forall branches, faceCrops branches -> P branches.

Lemma together_login email password : awaitsTogether P (login email password).
Proof. unfold login. repeat together_step. Qed.

Lemma together_signup email password : awaitsTogether P (signup email password).
Proof. unfold signup. repeat together_step. Qed.

Lemma together_logout : awaitsTogether P logout.
Proof. unfold logout. repeat together_step. Qed.

Lemma together_checkLoggedInUser : awaitsTogether P checkLoggedInUser.
Proof. unfold checkLoggedInUser. repeat together_step. Qed.

Lemma together_handleLogin : awaitsTogether P handleLogin.
Proof. unfold handleLogin. repeat together_step. all: apply together_login. Qed.

Lemma together_handleSignup onClose :
  awaitsTogether P onClose -> awaitsTogether P (handleSignup onClose).
Proof.
  intros H. unfold handleSignup. repeat together_step;
    first [apply together_signup | exact H].
Qed.

Lemma together_findMatchingVideos query vs :
  awaitsTogether P (findMatchingVideos query vs).
Proof. unfold findMatchingVideos. repeat together_step. Qed.

Lemma together_generateChatResponse q n : awaitsTogether P (generateChatResponse q n).
Proof. unfold generateChatResponse. repeat together_step. Qed.

Lemma together_analyzeVideoContent frames duration :
  awaitsTogether P (analyzeVideoContent frames duration).
Proof.
  intros env w branches.
  destruct (analyzeVideoContent_cases frames duration env w)
    as [(args & description & faces & segments & transcript & ost & os & bs
         & _ & _ & _ & _ & _ & _ & _ & Hstart & Hrun) | Hrun]; rewrite Hrun; cbn [trace].
  - intros [H | [H | []]]; [discriminate |]. inversion H; subst branches.
    apply P_crops.
    destruct (crops_settle frames faces env w) as (os' & bs' & Hstart' & _ & Hbs & _).
    rewrite Hstart in Hstart'. inversion Hstart'; subst os' bs'.
    eapply Forall_impl; [| exact Hbs]. intros b [-> | (frame & -> & _)];
      [now left | right; now exists frame].
  - intros [H | []]. discriminate.
Qed.

Lemma together_captureLoop file interval remaining :
  forall i frames, awaitsTogether P (captureLoop file interval i remaining frames).
Proof.
  induction remaining as [| r IH]; intros i frames; simpl; repeat together_step.
  apply IH.
Qed.

Lemma together_extractFrames file frameCount :
  awaitsTogether P (extractFrames file frameCount).
Proof.
  unfold extractFrames. repeat together_step. all: apply together_captureLoop.
Qed.

Lemma together_loadUserData : awaitsTogether P loadUserData.
Proof.
  intros env w branches. rewrite loadUserData_run.
  destruct (truthyUserId (currentUser (w_auth w))) as [userId |]; cbn [trace];
    [| intros []].
  intros [H | []]. inversion H; subst branches. apply P_reads. now exists userId.
Qed.

Lemma together_collectFaces userId faces :
  forall newFaces, awaitsTogether P (collectFaces userId faces newFaces).
Proof.
  induction faces as [| faceData faces IH]; intros newFaces; simpl; repeat together_step.
  apply IH.
Qed.

Lemma together_handleUpload file analysisResult duration :
  awaitsTogether P (handleUpload file analysisResult duration).
Proof.
  unfold handleUpload. repeat together_step;
    first [apply together_collectFaces | apply together_loadUserData].
Qed.

Lemma together_handleSubmit onUpload onClose :
  (forall file analysisResult duration,
      awaitsTogether P (onUpload file analysisResult duration)) ->
  awaitsTogether P onClose ->
  awaitsTogether P (handleSubmit onUpload onClose).
Proof.
  intros Hupload Hclose. unfold handleSubmit. repeat together_step;
    first [apply together_extractFrames | apply together_analyzeVideoContent
          | apply Hupload | exact Hclose].
Qed.

Lemma together_handleSearch query : awaitsTogether P (handleSearch query).
Proof.
  unfold handleSearch. repeat together_step;
    first [apply together_findMatchingVideos | apply together_generateChatResponse].
Qed.

Lemma together_displayedVideos : awaitsTogether P displayedVideos.
Proof. unfold displayedVideos. repeat together_step. Qed.

Lemma together_handleClearSearch : awaitsTogether P handleClearSearch.
Proof. unfold handleClearSearch. repeat together_step. Qed.

Lemma together_handleToggleFaceSelection faceId :
  awaitsTogether P (handleToggleFaceSelection faceId).
Proof. unfold handleToggleFaceSelection. repeat together_step. Qed.

Lemma together_handleNameFace faceId name : awaitsTogether P (handleNameFace faceId name).
Proof. unfold handleNameFace. repeat together_step. Qed.

Lemma together_perform op : awaitsTogether P (perform op).
Proof.
  destruct op; cbn [perform]; repeat together_step;
    first [ apply together_checkLoggedInUser | apply together_login
          | apply together_signup | apply together_logout | apply together_handleLogin
          | apply together_handleSignup; together_step
          | apply together_findMatchingVideos | apply together_generateChatResponse
          | apply together_analyzeVideoContent | apply together_extractFrames
          | apply together_loadUserData | apply together_handleUpload
          | apply together_handleSearch | apply together_displayedVideos
          | apply together_handleClearSearch | apply together_handleToggleFaceSelection
          | apply together_handleNameFace
          | unfold submitUpload; apply together_handleSubmit;
            [intros; apply together_handleUpload | repeat together_step] ].
Qed.
End TogetherOperations.




(** ** The keys of the users are an invariant of the program *)

Section Preserves.
Variable I : World -> Prop.

Lemma preserves_ret {A} (a : A) : preserves I (ret a).
Proof. intros env w H. exact H. Qed.

Lemma preserves_throw {A} e : preserves I (@throw A e).
Proof. intros env w H. exact H. Qed.

Lemma preserves_ask : preserves I ask.
Proof. intros env w H. exact H. Qed.

Lemma preserves_get : preserves I get.
Proof. intros env w H. exact H. Qed.

Lemma preserves_await {A} c (o : Outcome A) : preserves I (await c o).
Proof. intros env w H. exact H. Qed.

Lemma preserves_start c : preserves I (start c).
Proof. intros env w H. exact H. Qed.

Lemma preserves_modify f : (forall w, I w -> I (f w)) -> preserves I (modify f).
Proof. intros Hf env w H. now apply Hf. Qed.

Lemma preserves_bind {A B} (m : Async A) (k : A -> Async B) :
  preserves I m -> (forall a, preserves I (k a)) -> preserves I (bind m k).
Proof.
  intros Hm Hk env w H. unfold bind. specialize (Hm env w H).
  destruct (m env w) as [[a | e] w1 t1]; cbn [world] in *; [| exact Hm].
  specialize (Hk a env w1 Hm). now destruct (k a env w1).
Qed.

Lemma preserves_try_catch {A} (m : Async A) (h : Thrown -> Async A) :
  preserves I m -> (forall e, preserves I (h e)) -> preserves I (try_catch m h).
Proof.
  intros Hm Hh env w H. unfold try_catch. specialize (Hm env w H).
  destruct (m env w) as [[a | e] w1 t1]; cbn [world] in *; [exact Hm |].
  specialize (Hh e env w1 Hm). now destruct (h e env w1).
Qed.

Lemma preserves_try_finally {A} (m : Async A) (f : Async unit) :
  preserves I m -> preserves I f -> preserves I (try_finally m f).
Proof.
  intros Hm Hf env w H. unfold try_finally. specialize (Hm env w H).
  destruct (m env w) as [o w1 t1]. cbn [world] in *.
  specialize (Hf env w1 Hm). now destruct (f env w1) as [[[] | e] w2 t2].
Qed.

Lemma preserves_detached {A} (m : Async A) : preserves I m -> preserves I (detached m).
Proof.
  intros Hm env w H. unfold detached. specialize (Hm env w H).
  now destruct (m env w).
Qed.

Lemma preserves_ignore {A} (m : Async A) : preserves I m -> preserves I (ignore m).
Proof.
  intros Hm. unfold ignore. apply preserves_bind; [exact Hm |].
  intros a. apply preserves_ret.
Qed.

Lemma preserves_stateless {A} (m : Async A) : stateless m -> preserves I m.
Proof. intros Hm env w H. now rewrite (stateless_world m env w Hm). Qed.
End Preserves.

Lemma createUser_wf email d k d' :
  wfUsers d = true -> db_createUser email d = Some (k, d') -> wfUsers d' = true.
Proof.
  intros Hwf. unfold db_createUser.
  destruct (existsb _ (db_users d)); [discriminate |]. intros H. inversion H; subst.
  pose proof (wfUsers_keygen _ Hwf) as Hpos.
  unfold wfUsers. simpl. apply andb_true_iff. split; [apply Z.leb_le; lia |].
  rewrite forallb_app. apply andb_true_iff. split.
  - apply forallb_forall. intros v Hv.
    destruct (wfUsers_In _ _ Hwf Hv) as (j & -> & Hlt).
    apply andb_true_iff. split; [apply Z.leb_le | apply Z.ltb_lt]; lia.
  - simpl. rewrite andb_true_r.
    apply andb_true_iff. split; [apply Z.leb_le | apply Z.ltb_lt]; lia.
Qed.

Ltac preserves_step :=
  match goal with
  | |- preserves _ (ret _) => apply preserves_ret
  | |- preserves _ (throw _) => apply preserves_throw
  | |- preserves _ ask => apply preserves_ask
  | |- preserves _ get => apply preserves_get
  | |- preserves _ (await _ _) => apply preserves_await
  | |- preserves _ (start _) => apply preserves_start
  | |- preserves _ (ignore _) => apply preserves_ignore
  | |- preserves _ (modify _) => apply preserves_modify; intros ? ?; assumption
  | |- preserves _ (bind _ _) => apply preserves_bind; [| intros ?]
  | |- preserves _ (try_catch _ _) => apply preserves_try_catch; [| intros ?]
  | |- preserves _ (try_finally _ _) => apply preserves_try_finally
  | |- preserves _ (detached _) => apply preserves_detached
  | |- preserves _ (if ?b then _ else _) => destruct b
  | |- preserves _ (match ?x with _ => _ end) => destruct x
  | |- preserves _ (let (_, _) := ?x in _) => destruct x
  | |- preserves _ dateNow => intros ? ? ?; assumption
  | |- preserves _ randomSuffix => intros ? ? ?; assumption
  | |- preserves _ (setCurrentUser _) => unfold setCurrentUser
  | |- preserves _ (setVideos _) => unfold setVideos
  | |- preserves _ (setAllFaces _) => unfold setAllFaces
  | |- preserves _ (setIsLoading _) => unfold setIsLoading
  | |- preserves _ (setError _) => unfold setError
  | |- preserves _ (setSearchActive _) => unfold setSearchActive
  | |- preserves _ (setIsModalOpen _) => unfold setIsModalOpen
  | |- preserves _ (setSelectedFaceIds _) => unfold setSelectedFaceIds
  | |- preserves _ (appendChat _) => unfold appendChat
  | |- preserves _ (setModalError _) => unfold setModalError
  | |- preserves _ (setIsAnalyzing _) => unfold setIsAnalyzing
  | |- preserves _ (getUserByEmail _) => unfold getUserByEmail
  | |- preserves _ (getUserById _) => unfold getUserById
  | |- preserves _ (getVideosForUser _) => unfold getVideosForUser
  | |- preserves _ (getFacesForUser _) => unfold getFacesForUser
  end.

Lemma usersWf_createUser email : preserves usersWf (createUser email).
Proof.
  intros env w H. unfold createUser, bind, get.
  destruct (db_createUser email (w_db w)) as [[k d] |] eqn:E; cbn; [| exact H].
  unfold usersWf. cbn. now apply (createUser_wf email (w_db w) k d).
Qed.

Lemma usersWf_addVideo video : preserves usersWf (addVideo video).
Proof.
  intros env w H. unfold addVideo, bind, get, db_addVideo.
  destruct (table_add video_id video (db_videos (w_db w))); cbn; exact H.
Qed.

Lemma usersWf_addFaces fs : preserves usersWf (addFaces fs).
Proof.
  intros env w H. unfold addFaces, bind, get, db_addFaces.
  destruct (table_bulkAdd face_id fs (db_faces (w_db w))) as [t ok]. cbn. exact H.
Qed.

Lemma usersWf_updateFaceName faceId name : preserves usersWf (updateFaceName faceId name).
Proof.
  intros env w H. unfold updateFaceName, bind, get, db_updateFaceName.
  destruct (table_get face_id faceId (db_faces (w_db w))) as [face |]; [| exact H].
  destruct (face_name face) as [old |]; [destruct (String.eqb old name) |]; exact H.
Qed.

Lemma usersWf_loadUserData : preserves usersWf loadUserData.
Proof.
  intros env w H. unfold usersWf. now rewrite (proj1 (loadUserData_keeps_db env w)).
Qed.

Lemma usersWf_collectFaces userId faces newFaces :
  preserves usersWf (collectFaces userId faces newFaces).
Proof.
  intros env w H.
  destruct (collectFaces_run userId env faces newFaces w) as (added & w' & -> & Hdb & _).
  unfold usersWf. cbn. now rewrite Hdb.
Qed.

(** Every operation of the program keeps the keys of the stored users
    between 1 and the next key of the generator; the database that was just
    created satisfies this. *)
Lemma usersWf_perform op : preserves usersWf (perform op).
Proof.
  destruct op; cbn [perform];
    unfold login, signup, logout, checkLoggedInUser, handleLogin, handleSignup, login,
      signup, submitUpload, handleSubmit, handleUpload, handleSearch, displayedVideos,
      handleClearSearch, handleToggleFaceSelection, handleNameFace;
    repeat preserves_step;
    first [ apply usersWf_createUser | apply usersWf_addVideo | apply usersWf_addFaces
          | apply usersWf_updateFaceName | apply usersWf_loadUserData
          | apply usersWf_collectFaces
          | apply preserves_stateless;
            first [ apply stateless_findMatchingVideos | apply stateless_generateChatResponse
                  | apply stateless_cropFace | apply stateless_analyzeVideoContent
                  | apply stateless_extractFrames ] ].
Qed.

(** ** Sample runs *)

Example login_any_casing :
  outcome (login "ann@EXAMPLE.com" "one" sampleEnv sampleWorld) = Resolved tt
  /\ currentUser (w_auth (after (login "ann@EXAMPLE.com" "two") sampleEnv sampleWorld))
     = Some ann.
Proof. split; reflexivity. Qed.

Example signup_same_email_other_case :
  outcome (signup "ANN@example.com" "secret" sampleEnv sampleWorld)
  = Rejected (Error "An account with this email already exists.").
Proof. reflexivity. Qed.

Example signup_new_email :
  db_users (w_db (after (signup "bob@example.com" "secret") sampleEnv sampleWorld))
  = [ann; {| user_id := Some 2%Z; user_email := "bob@example.com" |}]
  /\ w_session (after (signup "bob@example.com" "secret") sampleEnv sampleWorld) = Some "2".
Proof. split; reflexivity. Qed.

Example search_that_throws :
  let env := sampleEnvWith SearchThrows None AnalyzeThrows (fun _ => Some "frame") in
  error (w_app (after (handleSearch "beach") env sampleWorld))
  = Some "Failed to search videos. Please try again."
  /\ trace (handleSearch "beach" env sampleWorld)
     = [Await (CallSearch "beach" [("vid-1", "a beach")])].
Proof. split; vm_compute; reflexivity. Qed.

Example upload_sample :
  let w' := after submitUpload sampleEnv sampleWorld in
  map video_id (db_videos (w_db w')) = ["vid-1"; "vid-1700000000002-2"]
  /\ map face_id (db_faces (w_db w')) = ["face-1700000000000-0"; "face-1700000000001-1"]
  /\ modal_error (w_modal w') = None
  /\ isModalOpen (w_app w') = false
  /\ List.length (videos (w_app w')) = 2%nat.
Proof. repeat split; vm_compute; reflexivity. Qed.

Example seek_times_of_a_26_second_video :
  seekTimes (jsDivPos (Finite 26) (Pos.of_succ_nat 12)) 1 3
  = [Finite ((1 # 1) * ((26 # 1) / (13 # 1)));
     Finite ((2 # 1) * ((26 # 1) / (13 # 1)));
     Finite ((3 # 1) * ((26 # 1) / (13 # 1)))].
Proof. reflexivity. Qed.

Example upload_seek_that_times_out :
  let env := sampleEnvWith SearchThrows None AnalyzeThrows
               (fun t => match t with
                         | Finite q => if Qle_bool q 10 then Some "frame" else None
                         | _ => None
                         end) in
  modal_error (w_modal (after submitUpload env sampleWorld))
  = Some "Analysis failed: Seek timed out at ts"
  /\ db_videos (w_db (after submitUpload env sampleWorld)) = [sampleVideo].
Proof. split; vm_compute; reflexivity. Qed.

(* ================================================================== *)
(** * Further properties of the code *)

(** ** The key of the session *)

Lemma digitsValue_digit c r acc :
  isDigit c = true ->
  digitsValue acc (String c r) = digitsValue (acc * 10 + Z.of_nat (nat_of_ascii c - 48)) r.
Proof. intros H. cbn [digitsValue]. now rewrite H. Qed.

Lemma digitsValue_of_uint_acc d : forall acc,
  digitsValue (Z.pos acc) (NilEmpty.string_of_uint d) = Z.pos (Pos.of_uint_acc d acc).
Proof.
  induction d; intros acc; cbn [NilEmpty.string_of_uint Pos.of_uint_acc];
    [reflexivity | ..];
    (rewrite digitsValue_digit by reflexivity);
    rewrite <- IHd; f_equal; rewrite ?Pos2Z.inj_add, Pos2Z.inj_mul;
    match goal with |- context [Z.of_nat ?n] => let v := eval vm_compute in (Z.of_nat n) in change (Z.of_nat n) with v end; lia.
Qed.

Lemma digitsValue_of_uint d :
  digitsValue 0 (NilEmpty.string_of_uint d) = Z.of_N (Pos.of_uint d).
Proof.
  induction d; cbn [NilEmpty.string_of_uint Pos.of_uint];
    [reflexivity | ..];
    (rewrite digitsValue_digit by reflexivity);
    first [ exact IHd | apply (digitsValue_of_uint_acc d) ].
Qed.

Lemma string_of_uint_digits d :
  d <> Decimal.Nil ->
  exists c r, NilEmpty.string_of_uint d = String c r /\ isDigit c = true.
Proof.
  destruct d; intros H; [now contradiction H | ..]; cbn [NilEmpty.string_of_uint];
    do 2 eexists; (split; [reflexivity | reflexivity]).
Qed.

Lemma parseInt10_digits c r :
  isDigit c = true -> parseInt10 (String c r) = Some (digitsValue 0 (String c r)).
Proof.
  intros H. unfold parseInt10.
  assert (Hs : isSpace c = false).
  { destruct c as [[] [] [] [] [] [] [] []]; try reflexivity; discriminate. }
  cbn [trimStart]. rewrite Hs.
  destruct c as [[] [] [] [] [] [] [] []]; try discriminate; reflexivity.
Qed.

Lemma parseInt10_string_of_Z z : parseInt10 (string_of_Z z) = Some z.
Proof.
  unfold string_of_Z. destruct z as [| p | p]; cbn [Z.to_int NilEmpty.string_of_int].
  - reflexivity.
  - destruct (string_of_uint_digits (Pos.to_uint p) (DecimalPos.Unsigned.to_uint_nonnil p))
      as (c & r & E & Hc).
    rewrite E, (parseInt10_digits c r Hc), <- E, digitsValue_of_uint, DecimalPos.Unsigned.of_to.
    reflexivity.
  - destruct (string_of_uint_digits (Pos.to_uint p) (DecimalPos.Unsigned.to_uint_nonnil p))
      as (c & r & E & Hc).
    rewrite E. unfold parseInt10. cbn [trimStart].
    change (isSpace "-") with false. cbv iota. rewrite Hc, <- E.
    rewrite digitsValue_of_uint, DecimalPos.Unsigned.of_to. reflexivity.
Qed.

(** ** The users table under every operation *)

Lemma usersOk_createUser email : preserves usersOk (createUser email).
Proof.
  intros env w (Hwf & Hkeys & Hemails). unfold createUser, bind, get.
  destruct (db_createUser email (w_db w)) as [[k d] |] eqn:E; cbn;
    [| now repeat split].
  unfold usersOk. cbn. split; [now apply (createUser_wf email (w_db w) k d) |].
  unfold db_createUser in E.
  destruct (existsb _ (db_users (w_db w))) eqn:Hex; [discriminate |].
  inversion E; subst k d. clear E.
  unfold userKeysDistinct, userEmailsDistinct in *. cbn. rewrite !map_app. cbn.
  split.
  - apply NoDup_app; [exact Hkeys | repeat constructor; intros [] |].
    intros x Hx [<- | []]. apply in_map_iff in Hx. destruct Hx as (u & Hu & Hin).
    destruct (wfUsers_In _ _ Hwf Hin) as (j & Hj & Hlt). rewrite Hj in Hu.
    inversion Hu. lia.
  - apply NoDup_app; [exact Hemails | repeat constructor; intros [] |].
    intros x Hx [<- | []]. apply in_map_iff in Hx. destruct Hx as (u & Hu & Hin).
    assert (Hfalse : existsb (fun v => String.eqb (user_email v) email)
                             (db_users (w_db w)) = true).
    { apply existsb_exists. exists u. split; [exact Hin | now apply String.eqb_eq]. }
    congruence.
Qed.

Lemma usersOk_same_db {A} (m : Async A) :
  (forall env w, db_users (w_db (world (m env w))) = db_users (w_db w)
                 /\ db_users_keygen (w_db (world (m env w))) = db_users_keygen (w_db w)) ->
  preserves usersOk m.
Proof.
  intros H env w (Hwf & Hkeys & Hemails). destruct (H env w) as [Hu Hk].
  unfold usersOk, wfUsers, userKeysDistinct, userEmailsDistinct in *.
  rewrite Hu, Hk. now repeat split.
Qed.

Lemma usersOk_addVideo video : preserves usersOk (addVideo video).
Proof.
  apply usersOk_same_db. intros env w. unfold addVideo, bind, get, db_addVideo.
  destruct (table_add video_id video (db_videos (w_db w))); cbn; split; reflexivity.
Qed.

Lemma usersOk_addFaces fs : preserves usersOk (addFaces fs).
Proof.
  apply usersOk_same_db. intros env w. unfold addFaces, bind, get, db_addFaces.
  destruct (table_bulkAdd face_id fs (db_faces (w_db w))) as [t ok]. cbn.
  split; reflexivity.
Qed.

Lemma usersOk_updateFaceName faceId name : preserves usersOk (updateFaceName faceId name).
Proof.
  apply usersOk_same_db. intros env w. unfold updateFaceName, bind, get, db_updateFaceName.
  destruct (table_get face_id faceId (db_faces (w_db w))) as [face |];
    [| split; reflexivity].
  destruct (face_name face) as [old |]; [destruct (String.eqb old name) |];
    split; reflexivity.
Qed.

Lemma usersOk_loadUserData : preserves usersOk loadUserData.
Proof.
  apply usersOk_same_db. intros env w.
  now rewrite (proj1 (loadUserData_keeps_db env w)).
Qed.

Lemma usersOk_collectFaces userId faces newFaces :
  preserves usersOk (collectFaces userId faces newFaces).
Proof.
  apply usersOk_same_db. intros env w.
  destruct (collectFaces_run userId env faces newFaces w) as (added & w' & -> & Hdb & _).
  cbn. now rewrite Hdb.
Qed.

Lemma usersOk_perform op : preserves usersOk (perform op).
Proof.
  destruct op; cbn [perform];
    unfold login, signup, logout, checkLoggedInUser, handleLogin, handleSignup, login,
      signup, submitUpload, handleSubmit, handleUpload, handleSearch, displayedVideos,
      handleClearSearch, handleToggleFaceSelection, handleNameFace;
    repeat preserves_step;
    first [ apply usersOk_createUser | apply usersOk_addVideo | apply usersOk_addFaces
          | apply usersOk_updateFaceName | apply usersOk_loadUserData
          | apply usersOk_collectFaces
          | apply preserves_stateless;
            first [ apply stateless_findMatchingVideos | apply stateless_generateChatResponse
                  | apply stateless_cropFace | apply stateless_analyzeVideoContent
                  | apply stateless_extractFrames ] ].
Qed.

(** X1. Whatever operations of the program run, in any order and with any
    outcome, on a store whose users table is as the key generator and the
    unique email index leave it (keys between 1 and the next key, no key and
    no email twice), the users table stays so; the empty database is so. *)
Theorem users_table_stays_consistent :
  forall env ops w,
    usersOk w ->
    usersOk (fold_left (fun w' op => after (perform op) env w') ops w).
Proof.
  intros env ops. induction ops as [| op ops IH]; intros w H; simpl; [exact H |].
  apply IH. now apply usersOk_perform.
Qed.

Lemma users_table_stays_consistent_witness :
  usersOk sampleWorld
  /\ usersOk (fold_left (fun w' op => after (perform op) sampleEnv w')
                        [OpSignup "bob@example.com" "secret"; OpLogout;
                         OpLogin "BOB@example.com" "other"] sampleWorld).
Proof.
  assert (H : usersOk sampleWorld).
  { split; [reflexivity |]. split; repeat constructor; intros []. }
  split; [exact H |].
  exact (users_table_stays_consistent sampleEnv _ sampleWorld H).
Defined.

(** ** Sign up, log in, reload *)

Lemma firstByEmail_app_last m l x :
  (forall u, In u l -> m u = false) ->
  firstByEmail m (l ++ [x]) = if m x then Some x else None.
Proof.
  intros H. induction l as [| u l IH]; simpl.
  - destruct (m x); reflexivity.
  - rewrite (H u (or_introl eq_refl)). apply IH. intros v Hv. apply H. now right.
Qed.

Lemma getUserById_In d u k :
  userKeysDistinct d -> In u (db_users d) -> user_id u = Some k ->
  db_getUserById k d = Some u.
Proof.
  unfold userKeysDistinct, db_getUserById. intros Hnd Hin Hk.
  induction (db_users d) as [| v l IH]; [destruct Hin |].
  simpl in *. inversion Hnd as [| ? ? Hnotin Hnd']; subst.
  destruct Hin as [-> | Hin].
  - rewrite Hk, Z.eqb_refl. reflexivity.
  - destruct (user_id v) as [j |] eqn:Hj.
    + destruct (Z.eqb_spec j k) as [-> | _]; [| now apply IH].
      exfalso. apply Hnotin. rewrite <- Hk. now apply in_map.
    + now apply IH.
Qed.

Lemma auth_ext a1 a2 :
  currentUser a1 = currentUser a2 -> auth_isLoading a1 = auth_isLoading a2 -> a1 = a2.
Proof. destruct a1, a2; simpl; intros; subst; reflexivity. Qed.

Lemma checkLoggedInUser_world env w :
  exists t,
    checkLoggedInUser env w =
    mkRun (Resolved tt)
          (with_auth
             (fun a =>
                {| currentUser :=
                     match w_session w with
                     | Some userIdStr =>
                         if String.eqb userIdStr "" then currentUser a
                         else match parseInt10 userIdStr with
                              | Some userId => db_getUserById userId (w_db w)
                              | None => None
                              end
                     | None => currentUser a
                     end;
                   auth_isLoading := false |}) w) t.
Proof.
  unfold checkLoggedInUser, try_finally, try_catch, bind, get, getUserById, await,
    setCurrentUser, modify.
  destruct (w_session w) as [userIdStr |] eqn:Hs.
  - destruct (String.eqb userIdStr "") eqn:He.
    + eexists. cbn. f_equal.
    + destruct (parseInt10 userIdStr) as [userId |] eqn:Hp; eexists; cbn; f_equal.
  - eexists. cbn. f_equal.
Qed.

Lemma checkLoggedInUser_run env w :
  outcome (checkLoggedInUser env w) = Resolved tt
  /\ w_db (after checkLoggedInUser env w) = w_db w
  /\ w_session (after checkLoggedInUser env w) = w_session w
  /\ auth_isLoading (w_auth (after checkLoggedInUser env w)) = false
  /\ currentUser (w_auth (after checkLoggedInUser env w))
     = match w_session w with
       | Some userIdStr =>
           if String.eqb userIdStr "" then currentUser (w_auth w)
           else match parseInt10 userIdStr with
                | Some userId => db_getUserById userId (w_db w)
                | None => None
                end
       | None => currentUser (w_auth w)
       end.
Proof.
  unfold after. destruct (checkLoggedInUser_world env w) as [t ->]. cbn.
  repeat split.
Qed.

Lemma login_resolved email password env w :
  outcome (login email password env w) = Resolved tt ->
  exists u,
    db_getUserByEmail email (w_db w) = Some u
    /\ falsyId (user_id u) = false
    /\ after (login email password) env w
       = with_session (Some (idString u)) (with_auth (put_currentUser (Some u)) w).
Proof.
  unfold after. rewrite login_run.
  destruct (db_getUserByEmail email (w_db w)) as [u |]; [| discriminate].
  destruct (falsyId (user_id u)) eqn:E; [discriminate |]. intros _.
  exists u. repeat split. exact E.
Qed.

(** X2. After a sign-up that succeeds, on a users table that is consistent,
    a login with the same email in any casing, and with any password,
    succeeds and makes the account that was just created the current user;
    that account has the email as it was typed and the key that the generator
    held. *)
Theorem signup_then_login :
  forall env w email password email' password',
    usersOk w ->
    outcome (signup email password env w) = Resolved tt ->
    casingVariant email email' = true ->
    let w1 := after (signup email password) env w in
    let created := {| user_id := Some (db_users_keygen (w_db w)); user_email := email |} in
    currentUser (w_auth w1) = Some created
    /\ db_users (w_db w1) = db_users (w_db w) ++ [created]
    /\ outcome (login email' password' env w1) = Resolved tt
    /\ currentUser (w_auth (after (login email' password') env w1)) = Some created.
Proof.
  intros env w email password email' password' (Hwf & Hkeys & Hemails) Hok Hcase. cbv zeta.
  assert (Hreg : ~ registered email (w_db w)).
  { intros Hreg. rewrite (signup_registered email password env w Hreg) in Hok.
    discriminate. }
  destruct (readBack_created email (w_db w) Hwf Hreg)
    as (d' & Hc & Hget & Hin & Htruthy & Hwf').
  destruct (signup_fresh email password env w Hreg) as (d'' & Hc' & Hrun).
  rewrite Hc in Hc'. inversion Hc'; subst d''. clear Hc'.
  unfold after. rewrite Hrun. cbv zeta. rewrite Hget. cbn [user_id]. rewrite Htruthy.
  cbn [world outcome].
  assert (Husers : db_users d' = db_users (w_db w)
                     ++ [{| user_id := Some (db_users_keygen (w_db w));
                            user_email := email |}]).
  { rewrite (createUser_fresh email (w_db w) Hreg) in Hc. now inversion Hc. }
  assert (Hfind : db_getUserByEmail email' d'
                  = Some {| user_id := Some (db_users_keygen (w_db w));
                            user_email := email |}).
  { unfold db_getUserByEmail. rewrite Husers, firstByEmail_app_last.
    - unfold equalsIgnoreCase. cbn [user_email].
      rewrite (casingVariant_toLowerCase _ _ Hcase), String.eqb_refl. reflexivity.
    - intros u Hu. unfold equalsIgnoreCase. apply String.eqb_neq. intros E.
      apply Hreg. exists u. split; [exact Hu |].
      now rewrite (casingVariant_toLowerCase _ _ Hcase). }
  split; [reflexivity |]. split; [exact Husers |].
  rewrite login_run. cbn [w_db with_session with_auth with_db].
  rewrite Hfind. cbn [user_id]. rewrite Htruthy. split; reflexivity.
Qed.

Lemma signup_then_login_witness :
  usersOk sampleWorld
  /\ outcome (login "BOB@Example.com" "other" sampleEnv
                    (after (signup "bob@example.com" "secret") sampleEnv sampleWorld))
     = Resolved tt.
Proof.
  assert (H : usersOk sampleWorld).
  { split; [reflexivity |]. split; repeat constructor; intros []. }
  split; [exact H |].
  apply (signup_then_login sampleEnv sampleWorld "bob@example.com" "secret"
           "BOB@Example.com" "other" H); reflexivity.
Defined.

(** X3. The session survives a reload of the page and ends with a logout:
    after a login that succeeds on a consistent users table, reloading the
    page and running [checkLoggedInUser] restores the same current user and
    ends the loading state, because the key written to the session storage
    reads back to the key of that user; after a logout the same reload leaves
    no current user. *)
Theorem session_survives_reload :
  forall env w email password,
    usersOk w ->
    outcome (login email password env w) = Resolved tt ->
    let w1 := after (login email password) env w in
    let w2 := after checkLoggedInUser env (reload w1) in
    let w3 := after checkLoggedInUser env (reload (after logout env w1)) in
    currentUser (w_auth w2) = currentUser (w_auth w1)
    /\ currentUser (w_auth w1) <> None
    /\ auth_isLoading (w_auth w2) = false
    /\ currentUser (w_auth w3) = None.
Proof.
  intros env w email password (Hwf & Hkeys & Hemails) Hok. cbv zeta.
  destruct (login_resolved email password env w Hok) as (u & Hfind & Htruthy & ->).
  destruct (getUserByEmail_Some email (w_db w) u Hfind) as [Hin _].
  destruct (wfUsers_In _ _ Hwf Hin) as (k & Hk & Hrange).
  assert (Hid : idString u = string_of_Z k) by (unfold idString; now rewrite Hk).
  rewrite Hid.
  assert (Hne : String.eqb (string_of_Z k) "" = false).
  { apply String.eqb_neq. intros E.
    pose proof (parseInt10_string_of_Z k) as P. rewrite E in P. discriminate. }
  destruct (checkLoggedInUser_run env
              (reload (with_session (Some (string_of_Z k))
                         (with_auth (put_currentUser (Some u)) w))))
    as (_ & _ & _ & Hloading & Hcur).
  cbn [reload w_session w_db with_session with_auth w_auth] in Hcur.
  rewrite Hne, parseInt10_string_of_Z, (getUserById_In (w_db w) u k Hkeys Hin Hk) in Hcur.
  split; [exact Hcur |]. split; [discriminate |]. split; [exact Hloading |].
  destruct (checkLoggedInUser_run env
              (reload (after logout env
                         (with_session (Some (string_of_Z k))
                            (with_auth (put_currentUser (Some u)) w)))))
    as (_ & _ & _ & _ & Hcur3).
  rewrite Hcur3. reflexivity.
Qed.

Lemma session_survives_reload_witness :
  usersOk sampleWorld
  /\ currentUser
       (w_auth (after checkLoggedInUser sampleEnv
                  (reload (after (login "ann@example.com" "secret") sampleEnv sampleWorld))))
     = Some ann.
Proof.
  assert (H : usersOk sampleWorld).
  { split; [reflexivity |]. split; repeat constructor; intros []. }
  split; [exact H |].
  refine (eq_trans
            (proj1 (session_survives_reload sampleEnv sampleWorld "ann@example.com"
                      "secret" H eq_refl)) _).
  reflexivity.
Defined.

Lemma signup_users email password env w :
  db_users (w_db (after (signup email password) env w)) = db_users (w_db w)
  \/ (~ registered email (w_db w)
      /\ db_users (w_db (after (signup email password) env w))
         = db_users (w_db w)
             ++ [{| user_id := Some (db_users_keygen (w_db w)); user_email := email |}]).
Proof.
  unfold after. destruct (db_getUserByEmail email (w_db w)) as [u0 |] eqn:E.
  - left. assert (Hreg : registered email (w_db w)).
    { apply getUserByEmail_Some in E. destruct E. now exists u0. }
    now rewrite (signup_registered email password env w Hreg).
  - right. apply getUserByEmail_None in E. split; [exact E |].
    destruct (signup_fresh email password env w E) as (d' & Hc & ->). cbv zeta.
    rewrite (createUser_fresh email (w_db w) E) in Hc. inversion Hc; subst d'.
    destruct (db_getUserById _ _) as [u |]; [destruct (falsyId (user_id u)) |];
      reflexivity.
Qed.

(** X4. A sign-up never changes or removes an account: afterwards the users
    table is the one before, or the one before followed by one new record
    with the email as typed; and if no two stored emails differed only in
    case before, none do afterwards, whatever the outcome. *)
Theorem signup_keeps_accounts :
  forall env w email password,
    let users := db_users (w_db w) in
    let users' := db_users (w_db (after (signup email password) env w)) in
    (users' = users \/ exists created, user_email created = email /\ users' = users ++ [created])
    /\ (emailsDistinctModuloCase (w_db w) ->
        emailsDistinctModuloCase (w_db (after (signup email password) env w))).
Proof.
  intros env w email password. cbv zeta.
  destruct (signup_users email password env w) as [E | [Hreg E]].
  - split; [now left |]. unfold emailsDistinctModuloCase. now rewrite E.
  - split; [right; eexists; split; [| exact E]; reflexivity |].
    unfold emailsDistinctModuloCase. rewrite E, map_app. cbn. intros Hnd.
    apply NoDup_app; [exact Hnd | repeat constructor; intros [] |].
    intros x Hx [<- | []]. apply in_map_iff in Hx. destruct Hx as (u & Hu & Hin).
    apply Hreg. now exists u.
Qed.

Lemma signup_keeps_accounts_witness :
  emailsDistinctModuloCase (w_db sampleWorld)
  /\ emailsDistinctModuloCase
       (w_db (after (signup "ANN@example.com" "secret") sampleEnv sampleWorld)).
Proof.
  assert (H : emailsDistinctModuloCase (w_db sampleWorld)).
  { repeat constructor. intros []. }
  split; [exact H |].
  exact (proj2 (signup_keeps_accounts sampleEnv sampleWorld "ANN@example.com" "secret") H).
Defined.

(** ** The check of an email address *)

Lemma plainChars_app a b : plainChars (a ++ b) = plainChars a && plainChars b.
Proof.
  induction a as [| c a IH]; simpl; [reflexivity |].
  rewrite IH. now rewrite !andb_assoc.
Qed.

Lemma splitAt_Some s a b :
  splitAt s = Some (a, b) -> s = (a ++ String "@" b)%string.
Proof.
  revert a. induction s as [| c s IH]; simpl; intros a H; [discriminate |].
  destruct (Ascii.eqb_spec c "@") as [-> | _].
  - inversion H; subst. reflexivity.
  - destruct (splitAt s) as [[a' b'] |]; [| discriminate].
    inversion H; subst. simpl. now rewrite (IH a' eq_refl).
Qed.

Lemma splitAt_plain a b :
  plainChars a = true -> splitAt (a ++ String "@" b) = Some (a, b).
Proof.
  induction a as [| c a IH]; simpl; intros H; [reflexivity |].
  apply andb_true_iff in H. destruct H as [H Ha].
  apply andb_true_iff in H. destruct H as [_ Hc].
  destruct (Ascii.eqb c "@"); [discriminate |]. now rewrite (IH Ha).
Qed.

Lemma hasInnerDot_split s : forall atStart,
  hasInnerDot atStart s = true
  <-> exists a b, s = (a ++ String "." b)%string /\ b <> ""
                  /\ (atStart = true -> a <> "").
Proof.
  induction s as [| c s IH]; intros atStart; simpl.
  - split; [discriminate |]. intros (a & b & E & _). destruct a; discriminate.
  - rewrite orb_true_iff, (IH false). split.
    + intros [H | (a & b & -> & Hb & _)].
      * apply andb_true_iff in H. destruct H as [H Hs].
        apply andb_true_iff in H. destruct H as [Hc Hstart].
        apply Ascii.eqb_eq in Hc. subst c. exists "", s.
        split; [reflexivity |]. split.
        -- intros ->. discriminate.
        -- intros ->. discriminate.
      * exists (String c a), b. split; [reflexivity |]. split; [exact Hb |].
        intros _. discriminate.
    + intros (a & b & E & Hb & Ha). destruct a as [| c' a]; simpl in E.
      * inversion E; subst. left. destruct atStart; [now contradiction Ha |].
        simpl. apply String.eqb_neq in Hb. now rewrite Hb.
      * inversion E; subst. right. exists a, b. split; [reflexivity |].
        split; [exact Hb | discriminate].
Qed.

(** X5. [validateEmail] accepts exactly the strings [name@host.tld] in which
    the three parts are non-empty and hold neither white space nor ["@"]: so
    an address without a dot after the ["@"], with two ["@"], or with a space
    is refused. *)
Theorem validateEmail_accepts :
  forall email,
    validateEmail email = true
    <-> exists name host tld,
          email = (name ++ "@" ++ host ++ "." ++ tld)%string
          /\ name <> "" /\ host <> "" /\ tld <> ""
          /\ plainChars name = true /\ plainChars host = true /\ plainChars tld = true.
Proof.
  intros email. unfold validateEmail. split.
  - destruct (splitAt email) as [[name domain] |] eqn:E; [| discriminate].
    intros H. apply andb_true_iff in H. destruct H as [H Hdot].
    apply andb_true_iff in H. destruct H as [H Hdomain].
    apply andb_true_iff in H. destruct H as [Hname Hplain].
    apply (hasInnerDot_split domain true) in Hdot.
    destruct Hdot as (host & tld & -> & Htld & Hhost).
    rewrite plainChars_app in Hdomain. apply andb_true_iff in Hdomain.
    destruct Hdomain as [Hh Ht]. cbn [plainChars] in Ht.
    apply andb_true_iff in Ht. destruct Ht as [_ Ht].
    exists name, host, tld. split; [now apply splitAt_Some |].
    split. { intros ->. discriminate. }
    split; [now apply Hhost |]. repeat split; assumption.
  - intros (name & host & tld & -> & Hname & Hhost & Htld & Hpn & Hph & Hpt).
    cbn [append]. rewrite (splitAt_plain name _ Hpn).
    apply String.eqb_neq in Hname. rewrite Hname, Hpn. cbn [negb andb].
    rewrite plainChars_app, Hph. cbn [plainChars]. rewrite Hpt. cbn.
    apply (hasInnerDot_split (host ++ String "." tld) true).
    exists host, tld. repeat split; [exact Htld | now intros _].
Qed.

(** ** The login and sign-up forms *)

Lemma handleLogin_run env w :
  let email := login_email (w_loginForm w) in
  let password := login_password (w_loginForm w) in
  let shows (e : option string) (w' : World) :=
    with_loginForm (fun f => put_login_isLoading false (put_login_error e f)) w' in
  handleLogin env w =
  if String.eqb (trim email) "" || String.eqb (trim password) "" then
    mkRun (Resolved tt)
          (with_loginForm (put_login_error (Some "Please enter your email and password.")) w) []
  else if negb (validateEmail email) then
    mkRun (Resolved tt)
          (with_loginForm (put_login_error (Some "Please enter a valid email address.")) w) []
  else
    match db_getUserByEmail email (w_db w) with
    | Some u =>
        if falsyId (user_id u)
        then mkRun (Resolved tt)
                   (shows (Some "No account found with this email. Please sign up.") w)
                   [Await (CallGetUserByEmail email)]
        else mkRun (Resolved tt)
                   (shows None (with_session (Some (idString u))
                                  (with_auth (put_currentUser (Some u)) w)))
                   [Await (CallGetUserByEmail email)]
    | None => mkRun (Resolved tt)
                    (shows (Some "No account found with this email. Please sign up.") w)
                    [Await (CallGetUserByEmail email)]
    end.
Proof.
  cbv zeta. unfold handleLogin. unfold bind at 1. unfold get.
  destruct (_ || _); [reflexivity |].
  destruct (negb _); [reflexivity |].
  unfold try_finally, try_catch, bind, modify. rewrite login_run.
  cbn [w_db with_loginForm].
  destruct (db_getUserByEmail _ (w_db w)) as [u |];
    [destruct (falsyId (user_id u)) |]; cbn; f_equal; apply world_ext; reflexivity.
Qed.

(** X6. The login form never lets an error escape and never writes to the
    store.  With a blank email or password, or an email that [validateEmail]
    refuses, it shows a message and asks the store nothing; the session stays
    as it was.  Otherwise it looks the email up once and stops loading: for a
    registered email the error is cleared and a stored user with that email,
    up to case, becomes the current user; for an unknown email the message
    of [login] is shown and nobody is logged in. *)
Theorem handleLogin_checks_input :
  forall env w,
    usersWf w ->
    let email := login_email (w_loginForm w) in
    let password := login_password (w_loginForm w) in
    let r := handleLogin env w in
    outcome r = Resolved tt
    /\ w_db (world r) = w_db w
    /\ (trim email = "" \/ trim password = "" \/ validateEmail email = false ->
        trace r = []
        /\ w_auth (world r) = w_auth w /\ w_session (world r) = w_session w
        /\ login_error (w_loginForm (world r)) <> None)
    /\ (trim email <> "" -> trim password <> "" -> validateEmail email = true ->
        login_isLoading (w_loginForm (world r)) = false
        /\ calls_of (trace r) = [CallGetUserByEmail email]
        /\ (registered email (w_db w) ->
            login_error (w_loginForm (world r)) = None
            /\ exists u, currentUser (w_auth (world r)) = Some u
                         /\ w_session (world r) = Some (idString u)
                         /\ In u (db_users (w_db w))
                         /\ toLowerCase (user_email u) = toLowerCase email)
        /\ (~ registered email (w_db w) ->
            login_error (w_loginForm (world r))
            = Some "No account found with this email. Please sign up."
            /\ w_auth (world r) = w_auth w /\ w_session (world r) = w_session w)).
Proof.
  intros env w Hwf. cbv zeta. rewrite handleLogin_run. cbv zeta.
  destruct (String.eqb_spec (trim (login_email (w_loginForm w))) "") as [He | He];
    cbn [orb].
  { split; [reflexivity |]; split; [reflexivity |]; split;
      [intros _; do 3 (split; [reflexivity |]); discriminate
      | intros Hn1 Hn2 Hn3; exfalso; solve [now apply Hn1 | now apply Hn2 | congruence]]. }
  destruct (String.eqb_spec (trim (login_password (w_loginForm w))) "") as [Hp | Hp].
  { split; [reflexivity |]; split; [reflexivity |]; split;
      [intros _; do 3 (split; [reflexivity |]); discriminate
      | intros Hn1 Hn2 Hn3; exfalso; solve [now apply Hn1 | now apply Hn2 | congruence]]. }
  destruct (validateEmail (login_email (w_loginForm w))) eqn:Hv; cbn [negb].
  2: { split; [reflexivity |]; split; [reflexivity |]; split;
      [intros _; do 3 (split; [reflexivity |]); discriminate
      | intros Hn1 Hn2 Hn3; exfalso; solve [now apply Hn1 | now apply Hn2 | congruence]]. }
  destruct (db_getUserByEmail _ (w_db w)) as [u |] eqn:E.
  - destruct (getUserByEmail_Some _ _ _ E) as [Hin Hu].
    rewrite (wfUsers_truthy _ _ Hwf Hin).
    split; [reflexivity |]. split; [reflexivity |].
    split. { intros [H | [H | H]]; [contradiction | contradiction | discriminate]. }
    intros _ _ _. split; [reflexivity |]. split; [reflexivity |]. split.
    + intros _. split; [reflexivity |]. exists u. repeat split; assumption.
    + intros Hn. exfalso. apply Hn. now exists u.
  - split; [reflexivity |]. split; [reflexivity |].
    split. { intros [H | [H | H]]; [contradiction | contradiction | discriminate]. }
    intros _ _ _. split; [reflexivity |]. split; [reflexivity |]. split.
    + intros Hreg. apply getUserByEmail_None in E. contradiction.
    + intros _. repeat split.
Qed.

Lemma handleLogin_checks_input_witness :
  usersWf sampleWorld
  /\ trace (handleLogin sampleEnv sampleWorld) = []
  /\ login_error (w_loginForm (world (handleLogin sampleEnv sampleWorld))) <> None.
Proof.
  split; [reflexivity |].
  assert (H : trim (login_email (w_loginForm sampleWorld)) = ""
              \/ trim (login_password (w_loginForm sampleWorld)) = ""
              \/ validateEmail (login_email (w_loginForm sampleWorld)) = false)
    by (left; reflexivity).
  split;
    apply (proj1 (proj2 (proj2 (handleLogin_checks_input sampleEnv sampleWorld eq_refl))) H).
Defined.

Lemma handleSignup_run env w :
  let email := signup_email (w_signupForm w) in
  let password := signup_password (w_signupForm w) in
  let shows (e : option string) (w' : World) :=
    with_signupForm (fun f => put_signup_isLoading false (put_signup_error e f)) w' in
  let created := {| user_id := Some (db_users_keygen (w_db w)); user_email := email |} in
  wfUsers (w_db w) = true ->
  handleSignup (modify (with_loginForm (put_isSignupModalOpen false))) env w =
  if String.eqb (trim email) "" || String.eqb (trim password) "" then
    mkRun (Resolved tt)
          (with_signupForm (put_signup_error (Some "Please enter both email and password.")) w) []
  else if negb (validateEmail email) then
    mkRun (Resolved tt)
          (with_signupForm (put_signup_error (Some "Please enter a valid email address.")) w) []
  else if (String.length password <? 6)%nat then
    mkRun (Resolved tt)
          (with_signupForm
             (put_signup_error (Some "Password must be at least 6 characters long.")) w) []
  else
    match db_getUserByEmail email (w_db w) with
    | Some _ =>
        mkRun (Resolved tt)
              (shows (Some "An account with this email already exists.") w)
              [Await (CallGetUserByEmail email)]
    | None =>
        mkRun (Resolved tt)
              (shows None
                 (with_loginForm (put_isSignupModalOpen false)
                    (with_session (Some (idString created))
                       (with_auth (put_currentUser (Some created))
                          (with_db (fun d =>
                             {| db_users := db_users d ++ [created];
                                db_users_keygen := Z.succ (db_users_keygen d);
                                db_videos := db_videos d;
                                db_faces := db_faces d |}) w)))))
              [Await (CallGetUserByEmail email); Await (CallCreateUser email);
               Await (CallGetUserById (Finite (inject_Z (db_users_keygen (w_db w)))))]
    end.
Proof.
  cbv zeta. intros Hwf. unfold handleSignup. unfold bind at 1. unfold get.
  destruct (_ || _); [reflexivity |].
  destruct (negb _); [reflexivity |].
  destruct (_ <? _)%nat; [reflexivity |].
  unfold bind at 1. unfold modify at 1. unfold bind at 1. unfold modify at 1.
  unfold try_finally, try_catch. unfold bind at 1.
  destruct (db_getUserByEmail _ (w_db w)) as [u0 |] eqn:E.
  - match goal with
    | |- context [signup ?e ?p env ?w1] =>
        rewrite (signup_registered e p env w1)
    end.
    + cbn. f_equal; first [reflexivity | apply world_ext; reflexivity].
    + apply getUserByEmail_Some in E. destruct E. now exists u0.
  - apply getUserByEmail_None in E.
    destruct (readBack_created _ _ Hwf E) as (d' & Hc & Hget & _ & Htruthy & _).
    match goal with
    | |- context [signup ?e ?p env ?w1] =>
        destruct (signup_fresh e p env w1 E) as (d'' & Hc' & ->)
    end.
    cbn [w_db with_signupForm] in Hc'. rewrite Hc in Hc'. inversion Hc'; subst d''.
    cbv zeta. cbn [w_db with_signupForm]. rewrite Hget. cbn [user_id]. rewrite Htruthy.
    rewrite (createUser_fresh _ _ E) in Hc. inversion Hc; subst d'.
    cbn. f_equal; first [reflexivity | apply world_ext; reflexivity].
Qed.

(** X7. The sign-up form, as [Auth] mounts it.  It never lets an error
    escape.  With a blank email or password, an email that [validateEmail]
    refuses, or a password of fewer than six characters, it shows a message,
    asks the store nothing and leaves the store, the session and the dialog as
    they were.  Otherwise it stops loading, and: for an email that is
    registered, up to case, the store is unchanged, the message of [signup] is
    shown and the dialog stays open; for a new email one user record is added
    with the email as typed and the next key, that user becomes the current
    user, no error is shown and the dialog is closed. *)
Theorem handleSignup_checks_input :
  forall env w,
    usersWf w ->
    let email := signup_email (w_signupForm w) in
    let password := signup_password (w_signupForm w) in
    let r := handleSignup (modify (with_loginForm (put_isSignupModalOpen false))) env w in
    let created := {| user_id := Some (db_users_keygen (w_db w)); user_email := email |} in
    outcome r = Resolved tt
    /\ (trim email = "" \/ trim password = "" \/ validateEmail email = false
        \/ (String.length password < 6)%nat ->
        trace r = []
        /\ w_db (world r) = w_db w
        /\ w_auth (world r) = w_auth w /\ w_session (world r) = w_session w
        /\ w_loginForm (world r) = w_loginForm w
        /\ signup_error (w_signupForm (world r)) <> None)
    /\ (trim email <> "" -> trim password <> "" -> validateEmail email = true ->
        (6 <= String.length password)%nat ->
        signup_isLoading (w_signupForm (world r)) = false
        /\ (registered email (w_db w) ->
            w_db (world r) = w_db w
            /\ w_auth (world r) = w_auth w
            /\ w_loginForm (world r) = w_loginForm w
            /\ signup_error (w_signupForm (world r))
               = Some "An account with this email already exists.")
        /\ (~ registered email (w_db w) ->
            db_users (w_db (world r)) = db_users (w_db w) ++ [created]
            /\ db_videos (w_db (world r)) = db_videos (w_db w)
            /\ db_faces (w_db (world r)) = db_faces (w_db w)
            /\ currentUser (w_auth (world r)) = Some created
            /\ isSignupModalOpen (w_loginForm (world r)) = false
            /\ signup_error (w_signupForm (world r)) = None)).
Proof.
  intros env w Hwf. cbv zeta. rewrite (handleSignup_run env w Hwf). cbv zeta.
  destruct (String.eqb_spec (trim (signup_email (w_signupForm w))) "") as [He | He];
    cbn [orb].
  { split; [reflexivity |]; split;
      [intros _; do 5 (split; [reflexivity |]); discriminate
      | intros Hn1 Hn2 Hn3 Hn4; exfalso;
        solve [now apply Hn1 | now apply Hn2 | congruence | lia]]. }
  destruct (String.eqb_spec (trim (signup_password (w_signupForm w))) "") as [Hp | Hp].
  { split; [reflexivity |]; split;
      [intros _; do 5 (split; [reflexivity |]); discriminate
      | intros Hn1 Hn2 Hn3 Hn4; exfalso;
        solve [now apply Hn1 | now apply Hn2 | congruence | lia]]. }
  destruct (validateEmail (signup_email (w_signupForm w))) eqn:Hv; cbn [negb].
  2: { split; [reflexivity |]; split;
      [intros _; do 5 (split; [reflexivity |]); discriminate
      | intros Hn1 Hn2 Hn3 Hn4; exfalso;
        solve [now apply Hn1 | now apply Hn2 | congruence | lia]]. }
  destruct (Nat.ltb_spec (String.length (signup_password (w_signupForm w))) 6) as [Hl | Hl].
  { split; [reflexivity |]; split;
      [intros _; do 5 (split; [reflexivity |]); discriminate
      | intros Hn1 Hn2 Hn3 Hn4; exfalso;
        solve [now apply Hn1 | now apply Hn2 | congruence | lia]]. }
  assert (Hguard : ~ (trim (signup_email (w_signupForm w)) = ""
                      \/ trim (signup_password (w_signupForm w)) = ""
                      \/ true = false
                      \/ (String.length (signup_password (w_signupForm w)) < 6)%nat)).
  { intros [H | [H | [H | H]]]; [contradiction | contradiction | discriminate | lia]. }
  destruct (db_getUserByEmail _ (w_db w)) as [u |] eqn:E.
  - split; [reflexivity |]. split; [intros H; now contradiction Hguard |].
    intros _ _ _ _. split; [reflexivity |]. split.
    + intros _. repeat split.
    + intros Hn. exfalso. apply Hn. apply getUserByEmail_Some in E. destruct E.
      now exists u.
  - split; [reflexivity |]. split; [intros H; now contradiction Hguard |].
    intros _ _ _ _. split; [reflexivity |]. split.
    + intros Hreg. apply getUserByEmail_None in E. contradiction.
    + intros _. repeat split.
Qed.

Lemma handleSignup_checks_input_witness :
  usersWf sampleWorld
  /\ w_db (world (handleSignup (modify (with_loginForm (put_isSignupModalOpen false)))
                    sampleEnv
                    (with_signupForm
                       (fun f => {| signup_email := "bob@example.com";
                                    signup_password := "12345";
                                    signup_error := None;
                                    signup_isLoading := false |})
                       sampleWorld)))
     = sampleDB.
Proof.
  split; [reflexivity |].
  refine (proj1 (proj2 (proj1 (proj2
            (handleSignup_checks_input sampleEnv
               (with_signupForm
                  (fun f => {| signup_email := "bob@example.com";
                               signup_password := "12345";
                               signup_error := None;
                               signup_isLoading := false |})
                  sampleWorld) eq_refl)) _))).
  right. right. right. cbn. lia.
Defined.

(** ** The primary keys of the tables *)

Lemma string_ltb_trans a b c :
  String.ltb a b = true -> String.ltb b c = true -> String.ltb a c = true.
Proof.
  unfold String.ltb. intros Hab Hbc.
  destruct (String.compare a b) eqn:E1; try discriminate.
  destruct (String.compare b c) eqn:E2; try discriminate.
  assert (H : String_as_OT.cmp a c = Lt).
  { apply String_as_OT.cmp_lt. eapply String_as_OT.lt_trans.
    - apply String_as_OT.cmp_lt. exact E1.
    - apply String_as_OT.cmp_lt. exact E2. }
  unfold String_as_OT.cmp in H. now rewrite H.
Qed.

Lemma string_ltb_total a b :
  String.ltb a b = false -> String.eqb a b = false -> String.ltb b a = true.
Proof.
  unfold String.ltb. intros Hab Hne. rewrite String.compare_antisym.
  destruct (String.compare a b) eqn:E; try discriminate; [| reflexivity].
  apply String.compare_eq_iff in E. apply String.eqb_neq in Hne. contradiction.
Qed.

Lemma string_ltb_irrefl a : String.ltb a a = false.
Proof.
  unfold String.ltb. pose proof (String.compare_antisym a a) as H.
  destruct (String.compare a a); try reflexivity; discriminate.
Qed.

Section AscendingTables.
Variable R : Type.
Variable key : R -> string.

Lemma table_insert_ascending r t :
  table_get key (key r) t = None -> ascending key t -> ascending key (table_insert key r t).
Proof.
  unfold ascending. intros Hfree Hs. induction Hs as [| r' t' Hs IH Hall]; simpl.
  - repeat constructor.
  - simpl in Hfree. destruct (String.eqb (key r') (key r)) eqn:Hk; [discriminate |].
    destruct (String.ltb (key r) (key r')) eqn:Hlt.
    + constructor; [now constructor |]. constructor; [exact Hlt |].
      eapply Forall_impl; [| exact Hall]. intros x Hx.
      now apply string_ltb_trans with (key r').
    + constructor; [now apply IH |].
      eapply Permutation_Forall; [symmetry; apply table_insert_perm |].
      constructor; [| exact Hall].
      apply string_ltb_total; [exact Hlt |].
      rewrite String.eqb_sym. exact Hk.
Qed.

Lemma table_bulkAdd_ascending rs : forall t,
  ascending key t -> ascending key (fst (table_bulkAdd key rs t)).
Proof.
  induction rs as [| r rs IH]; intros t Hs; simpl; [exact Hs |].
  unfold table_add. destruct (table_get key (key r) t) eqn:E; simpl.
  - now apply IH.
  - apply IH. now apply table_insert_ascending.
Qed.

Lemma ascending_map (f : R -> R) t :
  (forall r, key (f r) = key r) -> ascending key t -> ascending key (map f t).
Proof.
  unfold ascending. intros Hf Hs. induction Hs as [| r t Hs IH Hall]; simpl;
    constructor; [exact IH |].
  apply Forall_map. eapply Forall_impl; [| exact Hall]. intros x Hx.
  now rewrite !Hf.
Qed.

Lemma ascending_NoDup t : ascending key t -> NoDup (map key t).
Proof.
  unfold ascending. intros Hs. induction Hs as [| r t Hs IH Hall]; simpl; constructor;
    [| exact IH].
  intros Hin. apply in_map_iff in Hin. destruct Hin as (x & Hx & Hin).
  rewrite Forall_forall in Hall. specialize (Hall x Hin). rewrite Hx in Hall.
  now rewrite string_ltb_irrefl in Hall.
Qed.

Lemma ascending_get t r :
  ascending key t -> In r t -> table_get key (key r) t = Some r.
Proof.
  unfold ascending. intros Hs. induction Hs as [| r' t Hs IH Hall]; intros Hin;
    [destruct Hin |].
  simpl. destruct Hin as [-> | Hin]; [now rewrite String.eqb_refl |].
  destruct (String.eqb_spec (key r') (key r)) as [E | _]; [| now apply IH].
  rewrite Forall_forall in Hall. specialize (Hall r Hin). rewrite E in Hall.
  now rewrite string_ltb_irrefl in Hall.
Qed.
End AscendingTables.

Lemma keysAscending_addVideo video : preserves keysAscending (addVideo video).
Proof.
  intros env w [Hv Hf]. unfold addVideo, bind, get, db_addVideo, table_add.
  destruct (table_get video_id (video_id video) (db_videos (w_db w))) eqn:E; cbn;
    [now split |].
  split; [| exact Hf]. now apply table_insert_ascending.
Qed.

Lemma keysAscending_addFaces fs : preserves keysAscending (addFaces fs).
Proof.
  intros env w [Hv Hf]. unfold addFaces, bind, get, db_addFaces.
  pose proof (table_bulkAdd_ascending _ face_id fs (db_faces (w_db w)) Hf) as H.
  destruct (table_bulkAdd face_id fs (db_faces (w_db w))) as [t ok]. cbn in *.
  now split.
Qed.

Lemma keysAscending_updateFaceName faceId name :
  preserves keysAscending (updateFaceName faceId name).
Proof.
  intros env w [Hv Hf]. unfold updateFaceName, bind, get, db_updateFaceName.
  destruct (table_get face_id faceId (db_faces (w_db w))) as [face |]; [| now split].
  assert (H : keysAscending
                (with_db (fun _ =>
                   {| db_users := db_users (w_db w);
                      db_users_keygen := db_users_keygen (w_db w);
                      db_videos := db_videos (w_db w);
                      db_faces :=
                        map (fun f => if String.eqb (face_id f) faceId
                                      then {| face_id := face_id f;
                                              face_userId := face_userId f;
                                              face_name := Some name;
                                              face_image := face_image f;
                                              face_description := face_description f |}
                                      else f) (db_faces (w_db w)) |}) w)).
  { split; [exact Hv |]. cbn. apply ascending_map; [| exact Hf].
    intros f. now destruct (String.eqb (face_id f) faceId). }
  destruct (face_name face) as [old |]; [destruct (String.eqb old name) |];
    first [exact H | now split].
Qed.

Lemma keysAscending_same_db {A} (m : Async A) :
  (forall env w, w_db (world (m env w)) = w_db w) -> preserves keysAscending m.
Proof. intros H env w Hk. unfold keysAscending. now rewrite H. Qed.

Lemma keysAscending_createUser email : preserves keysAscending (createUser email).
Proof.
  intros env w Hk. unfold createUser, bind, get, db_createUser.
  destruct (existsb _ (db_users (w_db w))); exact Hk.
Qed.

Lemma keysAscending_perform op : preserves keysAscending (perform op).
Proof.
  destruct op; cbn [perform];
    unfold login, signup, logout, checkLoggedInUser, handleLogin, handleSignup, login,
      signup, submitUpload, handleSubmit, handleUpload, handleSearch, displayedVideos,
      handleClearSearch, handleToggleFaceSelection, handleNameFace;
    repeat preserves_step;
    first [ apply keysAscending_createUser | apply keysAscending_addVideo
          | apply keysAscending_addFaces | apply keysAscending_updateFaceName
          | apply keysAscending_same_db; intros;
            first [ apply loadUserData_keeps_db
                  | match goal with
                    | |- w_db (world (collectFaces ?u ?fs ?nf ?env ?w)) = _ =>
                        destruct (collectFaces_run u env fs nf w)
                          as (added & w' & -> & Hdb & _); exact Hdb
                    end ]
          | apply preserves_stateless;
            first [ apply stateless_findMatchingVideos | apply stateless_generateChatResponse
                  | apply stateless_cropFace | apply stateless_analyzeVideoContent
                  | apply stateless_extractFrames ] ].
Qed.

(** X8. The tables of videos and of faces stay in strictly ascending order
    of their primary keys under every operation of the program, in any order
    and with any outcome, so that no video id and no face id is ever stored
    twice and [get] by key finds every stored record. *)
Theorem store_keys_stay_unique :
  forall env ops w,
    keysAscending w ->
    let d := w_db (fold_left (fun w' op => after (perform op) env w') ops w) in
    keysAscending (fold_left (fun w' op => after (perform op) env w') ops w)
    /\ NoDup (map video_id (db_videos d))
    /\ NoDup (map face_id (db_faces d))
    /\ (forall v, In v (db_videos d) -> table_get video_id (video_id v) (db_videos d) = Some v)
    /\ (forall f, In f (db_faces d) -> table_get face_id (face_id f) (db_faces d) = Some f).
Proof.
  intros env ops w H. cbv zeta.
  assert (Hk : keysAscending (fold_left (fun w' op => after (perform op) env w') ops w)).
  { revert w H. induction ops as [| op ops IH]; intros w H; simpl; [exact H |].
    apply IH. now apply keysAscending_perform. }
  split; [exact Hk |]. destruct Hk as [Hv Hf].
  split; [now apply ascending_NoDup |]. split; [now apply ascending_NoDup |].
  split; intros x Hx; now apply ascending_get.
Qed.

Lemma store_keys_stay_unique_witness :
  keysAscending sampleWorld
  /\ keysAscending
       (fold_left (fun w' op => after (perform op) sampleEnv w')
                  [OpHandleSubmit; OpHandleNameFace "face-a" "Ann"] sampleWorld).
Proof.
  assert (H : keysAscending sampleWorld).
  { split; repeat constructor. }
  split; [exact H |].
  exact (proj1 (store_keys_stay_unique sampleEnv
                  [OpHandleSubmit; OpHandleNameFace "face-a" "Ann"] sampleWorld H)).
Defined.

(** ** What a search leaves behind *)

(** X9. A search never rejects.  When it has settled the page is no longer
    loading and the search is active; the store, the session, the current
    user, the loaded videos and faces and the selected faces are as before;
    the clock was read twice.  Without a candidate (an empty library, or no
    video that shows every selected face) the search service is not asked at
    all: only the reply is requested, for zero videos, and no error is shown.
    With candidates the service is asked once about exactly these; the reply
    is requested afterwards, for the number of attached videos, unless the
    search failed, in which case its error is shown and nothing else is
    requested. *)
Theorem handleSearch_settles :
  forall env w query,
    let r := handleSearch query env w in
    let w' := world r in
    let vs := videos (w_app w) in
    let candidates := videosToSearch vs (selectedFaceIds (w_app w)) in
    outcome r = Resolved tt
    /\ isLoading (w_app w') = false /\ searchActive (w_app w') = true
    /\ w_db w' = w_db w /\ w_session w' = w_session w /\ w_auth w' = w_auth w
    /\ videos (w_app w') = vs /\ allFaces (w_app w') = allFaces (w_app w)
    /\ selectedFaceIds (w_app w') = selectedFaceIds (w_app w)
    /\ w_nowCalls w' = S (S (w_nowCalls w))
    /\ (candidates = [] ->
        calls_of (trace r) = [CallChat query 0] /\ error (w_app w') = None)
    /\ (candidates <> [] ->
        match env_search env query (simplifiedVideos candidates) with
        | SearchThrows =>
            calls_of (trace r) = [CallSearch query (simplifiedVideos candidates)]
            /\ error (w_app w') = Some "Failed to search videos. Please try again."
        | SearchJsonOther =>
            calls_of (trace r)
            = [CallSearch query (simplifiedVideos candidates); CallChat query 0]
            /\ error (w_app w') = None
        | SearchJsonStrings ids =>
            calls_of (trace r)
            = [CallSearch query (simplifiedVideos candidates);
               CallChat query
                 (List.length (filter (fun v => includes ids (video_id (ui_video v))) vs))]
            /\ error (w_app w') = None
        end).
Proof.
  intros env w query. cbv zeta. rewrite handleSearch_run. cbv zeta.
  rewrite findMatchingVideos_run.
  destruct (videosToSearch (videos (w_app w)) (selectedFaceIds (w_app w)))
    as [| c cs] eqn:Hc.
  all: assert (Hn : forall vs : list UIVideo,
                  filter (fun v => includes [] (video_id (ui_video v))) vs = [])
    by (intros vs; induction vs as [| v vs IH]; [reflexivity | exact IH]).
  - cbn [outcome world trace]. rewrite generateChatResponse_run. cbn [outcome world trace].
    do 10 (split; [reflexivity |]). split; [intros _ | intros H; now contradiction H].
    rewrite Hn. split; reflexivity.
  - cbn [outcome world trace].
    destruct (env_search env query (simplifiedVideos (c :: cs))) as [| | ids];
      cbn [outcome world trace]; rewrite ?generateChatResponse_run;
      cbn [outcome world trace];
      do 10 (split; [reflexivity |]); (split; [discriminate | intros _]).
    + split; reflexivity.
    + rewrite Hn. split; reflexivity.
    + split; reflexivity.
Qed.

Lemma filter_filter_implied {A} (p q : A -> bool) (l : list A) :
  (forall x, In x l -> p x = true -> q x = true) ->
  filter p (filter q l) = filter p l.
Proof.
  induction l as [| x l IH]; intros H; simpl; [reflexivity |].
  destruct (q x) eqn:Hq; simpl.
  - destruct (p x); rewrite IH; try reflexivity; intros y Hy; apply H; now right.
  - destruct (p x) eqn:Hp.
    + rewrite (H x (or_introl eq_refl) Hp) in Hq. discriminate.
    + apply IH. intros y Hy. apply H. now right.
Qed.

Lemma NoDup_map_eq {A B} (f : A -> B) (l : list A) x y :
  NoDup (map f l) -> In x l -> In y l -> f x = f y -> x = y.
Proof.
  induction l as [| a l IH]; intros Hnd Hx Hy E; [destruct Hx |].
  simpl in Hnd. inversion Hnd as [| ? ? Hnotin Hnd']; subst.
  destruct Hx as [-> | Hx], Hy as [-> | Hy].
  - reflexivity.
  - exfalso. apply Hnotin. rewrite E. now apply in_map.
  - exfalso. apply Hnotin. rewrite <- E. now apply in_map.
  - now apply IH.
Qed.



(** ** The selection of faces and the displayed library *)

Lemma handleToggleFaceSelection_run faceId env w :
  handleToggleFaceSelection faceId env w =
  mkRun (Resolved tt)
        (with_app (fun a =>
           put_chatHistory []
             (put_searchActive false
                (put_selectedFaceIds
                   (if includes (selectedFaceIds (w_app w)) faceId
                    then filter (fun id => negb (String.eqb id faceId))
                                (selectedFaceIds (w_app w))
                    else selectedFaceIds (w_app w) ++ [faceId]) a))) w)
        [].
Proof.
  unfold handleToggleFaceSelection, bind, get, setSelectedFaceIds, setSearchActive, modify.
  cbn. f_equal; same_world.
Qed.

Lemma filter_other_id faceId (l : list string) :
  ~ In faceId l -> filter (fun id => negb (String.eqb id faceId)) l = l.
Proof.
  induction l as [| x l IH]; intros H; simpl; [reflexivity |].
  destruct (String.eqb_spec x faceId) as [-> | _]; simpl.
  - exfalso. apply H. now left.
  - rewrite IH; [reflexivity |]. intros Hin. apply H. now right.
Qed.

(** X11. Clicking a face flips the selection of exactly that face: it is
    selected afterwards if and only if it was not before, and every other
    face keeps its state; a selection without repetition stays without
    repetition; a face that was added is removed by a second click, which
    gives back the very selection from before.  The click also ends the
    search and empties the chat, awaits nothing, and keeps the store and the
    loaded videos.  [handleClearSearch] empties the selection and the chat. *)
Theorem toggle_flips_one_face :
  forall env w faceId,
    let r := handleToggleFaceSelection faceId env w in
    let selected := selectedFaceIds (w_app w) in
    let selected' := selectedFaceIds (w_app (world r)) in
    outcome r = Resolved tt /\ trace r = []
    /\ (In faceId selected' <-> ~ In faceId selected)
    /\ (forall other, other <> faceId -> (In other selected' <-> In other selected))
    /\ (NoDup selected -> NoDup selected')
    /\ (~ In faceId selected ->
        selectedFaceIds (w_app (after (handleToggleFaceSelection faceId) env (world r)))
        = selected)
    /\ chatHistory (w_app (world r)) = [] /\ searchActive (w_app (world r)) = false
    /\ videos (w_app (world r)) = videos (w_app w) /\ w_db (world r) = w_db w
    /\ selectedFaceIds (w_app (after handleClearSearch env (world r))) = []
    /\ chatHistory (w_app (after handleClearSearch env (world r))) = [].
Proof.
  intros env w faceId. cbv zeta. unfold after. rewrite !handleToggleFaceSelection_run.
  cbn [outcome world trace w_app with_app selectedFaceIds put_chatHistory
       put_searchActive put_selectedFaceIds chatHistory searchActive videos w_db].
  split; [reflexivity |]. split; [reflexivity |].
  destruct (includes (selectedFaceIds (w_app w)) faceId) eqn:E.
  - apply includes_In in E. split; [| split; [| split; [| split]]].
    + rewrite filter_In. split.
      * intros [_ H]. rewrite String.eqb_refl in H. discriminate.
      * intros H. contradiction.
    + intros other Hother. rewrite filter_In. split; [now intros [H _] |].
      intros H. split; [exact H |]. apply negb_true_iff. now apply String.eqb_neq.
    + apply NoDup_filter.
    + intros H. contradiction.
    + repeat split.
  - assert (Hn : ~ In faceId (selectedFaceIds (w_app w))).
    { intros H. apply includes_In in H. congruence. }
    split; [| split; [| split; [| split]]].
    + split; [intros _; exact Hn | intros _; apply in_or_app; right; now left].
    + intros other Hother. rewrite in_app_iff. split; [| now left].
      intros [H | [H | []]]; [exact H | now contradiction Hother].
    + intros Hnd. apply NoDup_app; [exact Hnd | repeat constructor; intros [] |].
      intros x Hx [<- | []]. contradiction.
    + intros _.
      assert (Hin : includes (selectedFaceIds (w_app w) ++ [faceId]) faceId = true).
      { apply includes_In. apply in_or_app. right. now left. }
      rewrite Hin, filter_app, (filter_other_id _ _ Hn). simpl.
      rewrite String.eqb_refl. simpl. apply app_nil_r.
    + repeat split.
Qed.

Section SortedFacts.
Variable A : Type.
Variable cmp : A -> A -> comparison.

Lemma sortBy_sorted_same l :
  StronglySorted (mayPrecede cmp) l -> sortBy cmp l = l.
Proof.
  induction 1 as [| x l Hs IH Hx]; simpl; [reflexivity |].
  rewrite IH. destruct l as [| y l']; [reflexivity |]. simpl.
  inversion Hx as [| ? ? Hxy _]; subst. unfold mayPrecede in Hxy.
  destruct (cmp x y); [reflexivity | reflexivity | now contradiction Hxy].
Qed.
End SortedFacts.

Lemma sortBy_In {A} (cmp : A -> A -> comparison) l v :
  In v (sortBy cmp l) <-> In v l.
Proof.
  split; apply Permutation_in; [| symmetry]; apply sortBy_perm.
Qed.

Lemma sortBy_byIdDescending_twice l :
  sortBy byIdDescending (sortBy byIdDescending l) = sortBy byIdDescending l.
Proof.
  apply sortBy_sorted_same. apply sortBy_sorted.
  - intros a b E. unfold mayPrecede, byIdDescending, localeCompare in *.
    rewrite String.compare_antisym, E. discriminate.
  - intros a b c. unfold mayPrecede. rewrite !byIdDescending_before. unfold idDescending.
    intros Hab Hbc. eapply string_leb_trans; eassumption.
Qed.

(** X12. Computing the displayed library awaits nothing and never fails.
    While a face is selected it leaves the page as it is.  Without a
    selected face [sort] works on the array [videos] itself, so that array is
    in descending order of the ids afterwards and holds the same videos, and
    nothing else of the page changes.  Either way, computing it again gives
    the same list and changes nothing further.  Selecting one more face
    keeps exactly those displayed videos that show this face. *)
Theorem displayedVideos_sorts_in_place :
  forall env w faceId,
    let selected := selectedFaceIds (w_app w) in
    exists shown w1,
      displayedVideos env w = mkRun (Resolved shown) w1 []
      /\ (selected <> [] -> w1 = w)
      /\ (selected = [] ->
          videos (w_app w1) = shown /\ Permutation shown (videos (w_app w)))
      /\ w_db w1 = w_db w /\ w_auth w1 = w_auth w
      /\ selectedFaceIds (w_app w1) = selected
      /\ chatHistory (w_app w1) = chatHistory (w_app w)
      /\ allFaces (w_app w1) = allFaces (w_app w)
      /\ displayedVideos env w1 = mkRun (Resolved shown) w1 []
      /\ (~ In faceId selected ->
          exists shown',
            outcome (displayedVideos env (after (handleToggleFaceSelection faceId) env w))
            = Resolved shown'
            /\ forall v, In v shown'
                         <-> In v shown /\ In faceId (video_faceIds (ui_video v))).
Proof.
  intros env w faceId. cbv zeta. rewrite displayedVideos_run.
  assert (Hmore : forall shown,
             (forall v, In v shown
                        <-> In v (videos (w_app w))
                            /\ hasEveryFace (selectedFaceIds (w_app w)) v = true) ->
             ~ In faceId (selectedFaceIds (w_app w)) ->
             exists shown',
               outcome (displayedVideos env (after (handleToggleFaceSelection faceId) env w))
               = Resolved shown'
               /\ forall v, In v shown'
                            <-> In v shown /\ In faceId (video_faceIds (ui_video v))).
  { intros shown Hshown Hn. unfold after. rewrite handleToggleFaceSelection_run.
    rewrite displayedVideos_run.
    assert (Hinc : includes (selectedFaceIds (w_app w)) faceId = false).
    { destruct (includes _ faceId) eqn:E; [| reflexivity].
      apply includes_In in E. contradiction. }
    cbn [world w_app with_app selectedFaceIds put_chatHistory put_searchActive
         put_selectedFaceIds videos].
    rewrite Hinc.
    assert (Hpos : (0 <? List.length (selectedFaceIds (w_app w) ++ [faceId]))%nat = true).
    { apply length_positive. now destruct (selectedFaceIds (w_app w)). }
    rewrite Hpos. cbn [outcome]. eexists. split; [reflexivity |].
    intros v. rewrite (sortBy_In byIdDescending _ v).
    rewrite filter_In, Hshown, !hasEveryFace_spec. split.
    - intros [Hv Hall]. split; [split; [exact Hv |] |].
      + intros f Hf. apply Hall. apply in_or_app. now left.
      + apply Hall. apply in_or_app. right. now left.
    - intros [[Hv Hall] Hf]. split; [exact Hv |].
      intros f Hin. apply in_app_or in Hin. destruct Hin as [Hin | [<- | []]];
        [now apply Hall | exact Hf]. }
  destruct (selectedFaceIds (w_app w)) as [| s sel] eqn:Hsel.
  - cbn [List.length Nat.ltb Nat.leb]. do 2 eexists. split; [reflexivity |].
    split; [intros H; now contradiction H |].
    split; [intros _; split; [reflexivity | apply sortBy_perm] |].
    do 5 (split; [first [reflexivity | exact Hsel] |]).
    split.
    + rewrite displayedVideos_run.
      cbn [w_app with_app selectedFaceIds put_videos videos]. rewrite Hsel.
      cbn [List.length Nat.ltb Nat.leb]. rewrite sortBy_byIdDescending_twice.
      f_equal; apply world_ext; try reflexivity;
        apply app_ext; try reflexivity; cbn; apply sortBy_byIdDescending_twice.
    + apply Hmore. intros v. rewrite (sortBy_In byIdDescending _ v).
      split; [intros H; split; [exact H | reflexivity] | now intros [H _]].
  - cbn [List.length Nat.ltb Nat.leb]. do 2 eexists. split; [reflexivity |].
    split; [reflexivity |]. split; [discriminate |].
    do 5 (split; [first [reflexivity | exact Hsel] |]).
    split.
    + rewrite displayedVideos_run, Hsel. reflexivity.
    + apply Hmore. intros v. rewrite (sortBy_In byIdDescending _ v).
      apply filter_In.
Qed.

(** ** The edges of the extraction *)

Lemma captureLoop_shape file interval env w remaining : forall i frames,
  exists o t,
    captureLoop file interval i remaining frames env w = mkRun o w t
    /\ (List.length t <= remaining)%nat
    /\ Forall (fun e => exists time, e = Await (CallSeek time)) t
    /\ (forall fs, o = Resolved fs ->
          List.length fs = (List.length frames + remaining)%nat
          /\ List.length t = remaining).
Proof.
  induction remaining as [| r IH]; intros i frames; simpl.
  - exists (Resolved frames), []. split; [reflexivity |]. split; [simpl; lia |].
    split; [constructor |]. intros fs H. inversion H; subst. split; [lia | reflexivity].
  - unfold bind. rewrite captureFrameAt_run.
    destruct (env_seeked env file (jsMulPos i interval)) as [data |].
    + destruct (IH (Pos.succ i) (frames ++ [data])) as (o & t & -> & Hlen & Hall & Hres).
      exists o, (Await (CallSeek (jsMulPos i interval)) :: t).
      split; [reflexivity |]. split; [simpl; lia |].
      split; [constructor; [now eexists | exact Hall] |].
      intros fs Hfs. destruct (Hres fs Hfs) as [H1 H2].
      rewrite H1, length_app. simpl. split; lia.
    + eexists. eexists. split; [reflexivity |]. split; [simpl; lia |].
      split; [repeat constructor; now eexists | discriminate].
Qed.

(** X13. The edges of [extractFrames].  Without a 2D context of the canvas
    it is rejected at once and nothing is loaded; when the video cannot be
    loaded it is rejected with the message about an unsupported file and
    playing is never started.  In every case it leaves the page as it is and
    seeks at most [frameCount] times.  It resolves only for a video that
    loaded with a finite duration other than zero, and then with that
    duration and exactly [frameCount] frames, after exactly [frameCount]
    seeks: so the twelve frames asked for by the upload dialog are never an
    empty list. *)
Theorem extractFrames_edges :
  forall env w file frameCount,
    let r := extractFrames file frameCount env w in
    let seeks := filter (fun c => match c with CallSeek _ => true | _ => false end)
                        (calls_of (trace r)) in
    world r = w
    /\ (List.length seeks <= frameCount)%nat
    /\ (env_getContext env = false ->
        outcome r = Rejected (Error "Could not get canvas context") /\ trace r = [])
    /\ (env_getContext env = true -> env_loadedmetadata env file = None ->
        outcome r
        = Rejected (Error "Error loading video for frame extraction. The file might be corrupt or in an unsupported format.")
        /\ trace r = [Await (CallLoadMetadata file)])
    /\ (forall frames duration,
           outcome r = Resolved (frames, duration) ->
           env_getContext env = true
           /\ env_loadedmetadata env file = Some duration
           /\ isZero duration = false /\ isFinite duration = true
           /\ List.length frames = frameCount
           /\ List.length seeks = frameCount).
Proof.
  intros env w file frameCount. cbv zeta.
  destruct (env_getContext env) eqn:Hctx.
  2: { unfold extractFrames, bind, ask, throw. rewrite Hctx. cbn.
       split; [reflexivity |]. split; [simpl; lia |]. split; [now split |].
       split; [discriminate | discriminate]. }
  destruct (env_loadedmetadata env file) as [duration |] eqn:Hmeta.
  2: { unfold extractFrames, bind, ask, await. rewrite Hctx, Hmeta. cbn.
       split; [reflexivity |]. split; [simpl; lia |]. split; [discriminate |].
       split; [now split | discriminate]. }
  rewrite (extractFrames_run file frameCount env w duration Hctx Hmeta).
  destruct (isZero duration) eqn:Hz; cbn [orb].
  { cbn. split; [reflexivity |]. split; [simpl; lia |]. split; [discriminate |].
    split; [discriminate | discriminate]. }
  destruct (isFinite duration) eqn:Hf; cbn [negb].
  2: { cbn. split; [reflexivity |]. split; [simpl; lia |]. split; [discriminate |].
       split; [discriminate | discriminate]. }
  destruct (captureLoop_shape file (jsDivPos duration (Pos.of_succ_nat frameCount)) env w
              frameCount 1 []) as (o & t & -> & Hlen & Hall & Hres).
  assert (Hseeks : forall t', Forall (fun e => exists time, e = Await (CallSeek time)) t' ->
             List.length
               (filter (fun c => match c with CallSeek _ => true | _ => false end)
                       (calls_of t')) = List.length t').
  { induction 1 as [| e t' [time ->] _ IH]; [reflexivity |]. cbn. now rewrite <- IH. }
  unfold calls_of in Hseeks |- *.
  destruct o as [frames | e]; cbn [outcome world trace flat_map app filter];
    rewrite (Hseeks t Hall).
  - split; [reflexivity |]. split; [exact Hlen |]. split; [discriminate |].
    split; [discriminate |]. intros fs d H. inversion H; subst.
    destruct (Hres fs eq_refl) as [H1 H2]. now repeat split.
  - split; [reflexivity |]. split; [exact Hlen |]. split; [discriminate |].
    split; [discriminate | discriminate].
Qed.
(** ** The page after an upload *)

Lemma samePage_refl w : samePage w w.
Proof. now repeat split. Qed.

Lemma samePage_trans w1 w2 w3 : samePage w1 w2 -> samePage w2 w3 -> samePage w1 w3.
Proof.
  intros (A1 & A2 & A3 & A4 & A5 & A6) (B1 & B2 & B3 & B4 & B5 & B6).
  repeat split; congruence.
Qed.

Lemma collectFaces_page userId env faces : forall newFaces w,
  samePage w (world (collectFaces userId faces newFaces env w)).
Proof.
  induction faces as [| faceData faces IH]; intros newFaces w; [apply samePage_refl |].
  simpl. unfold bind at 1. unfold dateNow. unfold bind at 1. unfold randomSuffix.
  unfold bind at 1.
  match goal with
  | |- context [collectFaces userId faces ?nf env ?w1] =>
      specialize (IH nf w1); destruct (collectFaces userId faces nf env w1) as [[a | e] w2 t2]
  end; cbn [world] in *; exact IH.
Qed.

Lemma addFaces_page added env w :
  samePage w (world ((if (0 <? List.length added)%nat
                      then (addFaces added ;; ret tt) else ret tt) env w)).
Proof.
  destruct (0 <? List.length added)%nat; [| apply samePage_refl].
  unfold addFaces, bind, get, db_addFaces.
  destruct (table_bulkAdd face_id added (db_faces (w_db w))) as [t [|]]; cbn;
    now repeat split.
Qed.

Lemma addVideo_page video env w : samePage w (world (addVideo video env w)).
Proof.
  unfold addVideo, bind, get, db_addVideo.
  destruct (table_add video_id video (db_videos (w_db w))); cbn; now repeat split.
Qed.

Lemma handleUpload_page env w file analysisResult duration userId :
  truthyUserId (currentUser (w_auth w)) = Some userId ->
  let r := handleUpload file analysisResult duration env w in
  (rejects r -> samePage w (world r))
  /\ (outcome r = Resolved tt ->
      exists w4,
        samePage w w4 /\ w_db w4 = w_db (world r)
        /\ world r
           = with_app (fun a =>
               put_isLoading false
                 (put_allFaces (db_getFacesForUser userId (w_db w4))
                    (put_videos (libraryOf env userId (w_db w4)) a))) w4).
Proof.
  intros Huser. cbv zeta.
  remember (handleUpload file analysisResult duration env w) as r eqn:Hr.
  unfold handleUpload in Hr. unfold bind at 1 in Hr. unfold get in Hr.
  rewrite Huser in Hr. unfold bind at 1 in Hr.
  pose proof (collectFaces_page userId env (ar_faces analysisResult) [] w) as Hp1.
  destruct (collectFaces_run userId env (ar_faces analysisResult) [] w)
    as (added & w1 & Hrun & _).
  rewrite Hrun in Hr, Hp1. cbn [app world] in Hr, Hp1. clear Hrun.
  unfold bind at 1 in Hr.
  pose proof (addFaces_page added env w1) as Hp2.
  destruct ((if (0 <? List.length added)%nat then (addFaces added ;; ret tt) else ret tt)
              env w1) as [[[] | e2] w2 t2]; cbn [world] in Hp2.
  - unfold bind at 1, dateNow in Hr. unfold bind at 1, randomSuffix in Hr.
    unfold bind at 1 in Hr.
    match type of Hr with
    | context [addVideo ?v env ?w3] =>
        pose proof (addVideo_page v env w3) as Hp4;
        destruct (addVideo v env w3) as [[id | e4] w4 t4]
    end; cbn [world] in Hp4.
    + assert (Hp : samePage w w4).
      { eapply samePage_trans; [exact Hp1 |]. eapply samePage_trans; [exact Hp2 |].
        destruct Hp4 as (A1 & A2 & A3 & A4 & A5 & A6). now repeat split. }
      assert (Huser4 : truthyUserId (currentUser (w_auth w4)) = Some userId).
      { destruct Hp as (_ & -> & _). exact Huser. }
      rewrite loadUserData_run, Huser4 in Hr. subst r. cbn [outcome world].
      split; [intros [e He]; discriminate |]. intros _.
      exists w4. split; [exact Hp |]. split; reflexivity.
    + subst r. cbn [outcome world]. split; [| discriminate]. intros _.
      eapply samePage_trans; [exact Hp1 |]. eapply samePage_trans; [exact Hp2 |].
      destruct Hp4 as (A1 & A2 & A3 & A4 & A5 & A6). now repeat split.
  - subst r. cbn [outcome world]. split; [| discriminate]. intros _.
    eapply samePage_trans; [exact Hp1 | exact Hp2].
Qed.

(** X14. After an upload that succeeds the page shows the store: the
    library holds exactly the stored videos of the current user, each with
    the object URL of its file, and the new video is one of them; the faces
    of the page are exactly the stored faces of that user; no video or face
    of another user is shown; the page is not loading; the error, the chat,
    the selection, the dialog and the current user are as before. *)
Theorem upload_then_library :
  forall env w file analysisResult duration userId,
    truthyUserId (currentUser (w_auth w)) = Some userId ->
    let r := handleUpload file analysisResult duration env w in
    let w' := world r in
    outcome r = Resolved tt ->
    videos (w_app w') = libraryOf env userId (w_db w')
    /\ allFaces (w_app w') = db_getFacesForUser userId (w_db w')
    /\ (exists video newFaces,
          videoOf userId file analysisResult duration (map face_id newFaces) video
          /\ In {| ui_video := video; ui_url := env_createObjectURL env file |}
                (videos (w_app w'))
          /\ Forall2 (faceOf userId) (ar_faces analysisResult) newFaces
          /\ forall face, In face newFaces -> In face (allFaces (w_app w')))
    /\ (forall v, In v (videos (w_app w')) -> video_userId (ui_video v) = userId)
    /\ (forall f, In f (allFaces (w_app w')) -> face_userId f = userId)
    /\ isLoading (w_app w') = false
    /\ error (w_app w') = error (w_app w)
    /\ chatHistory (w_app w') = chatHistory (w_app w)
    /\ selectedFaceIds (w_app w') = selectedFaceIds (w_app w)
    /\ w_modal w' = w_modal w /\ w_auth w' = w_auth w /\ w_session w' = w_session w.
Proof.
  intros env w file analysisResult duration userId Huser. cbv zeta. intros Hok.
  destruct (handleUpload_page env w file analysisResult duration userId Huser)
    as [_ Hpage]. cbv zeta in Hpage.
  destruct (Hpage Hok) as (w4 & (P1 & P2 & P3 & P4 & P5 & P6) & Hdb & Hw').
  destruct (handleUpload_db env w file analysisResult duration userId Huser)
    as (newFaces & video & Hfaces & Hvideo & Husers & Hstored & Hcases).
  cbv zeta in *.
  destruct Hcases as [(_ & Hall & Hfree & Hvideos) | [[e He] _]]; [| congruence].
  assert (Hv : videos (w_app (world (handleUpload file analysisResult duration env w)))
               = libraryOf env userId
                   (w_db (world (handleUpload file analysisResult duration env w)))).
  { rewrite Hw' at 1. cbn. now rewrite Hdb. }
  assert (Hf : allFaces (w_app (world (handleUpload file analysisResult duration env w)))
               = db_getFacesForUser userId
                   (w_db (world (handleUpload file analysisResult duration env w)))).
  { rewrite Hw' at 1. cbn. now rewrite Hdb. }
  split; [exact Hv |]. split; [exact Hf |]. split; [| split; [| split]].
  - exists video, newFaces. split; [exact Hvideo |].
    destruct Hvideo as (Hvuser & _ & Hvfile & _).
    split; [| split; [exact Hfaces |]].
    + rewrite Hv. unfold libraryOf.
      apply in_map_iff. exists video. split; [now rewrite Hvfile |].
      unfold db_getVideosForUser. apply filter_In. split.
      * rewrite Hvideos. apply (Permutation_in video (Permutation_sym
                                  (table_insert_perm _ video_id video _))). now left.
      * rewrite Hvuser. apply Z.eqb_refl.
    + intros face Hface. rewrite Hf. unfold db_getFacesForUser. apply filter_In. split.
      * rewrite Hstored.
        now apply (table_bulkAdd_all _ face_id newFaces _ Hall face Hface).
      * rewrite (faceOf_userId userId _ _ Hfaces face Hface). apply Z.eqb_refl.
  - intros v Hin. rewrite Hv in Hin. unfold libraryOf in Hin.
    apply in_map_iff in Hin. destruct Hin as (x & <- & Hx).
    unfold db_getVideosForUser in Hx. apply filter_In in Hx. destruct Hx as [_ Hx].
    now apply Z.eqb_eq in Hx.
  - intros f Hin. rewrite Hf in Hin. unfold db_getFacesForUser in Hin.
    apply filter_In in Hin. destruct Hin as [_ Hx]. now apply Z.eqb_eq in Hx.
  - rewrite Hw'. cbn. rewrite P1, P2, P5, P6. repeat split.
Qed.

Lemma upload_then_library_witness :
  truthyUserId (currentUser (w_auth sampleWorld)) = Some 1%Z
  /\ List.length
       (videos (w_app (world (handleUpload sampleFile
                                {| ar_description := "a beach"; ar_faces := [];
                                   ar_segments := []; ar_transcript := "";
                                   ar_onScreenText := [] |}
                                (Finite 26) sampleEnv sampleWorld)))) = 2%nat.
Proof.
  split; [reflexivity |].
  rewrite (proj1 (upload_then_library sampleEnv sampleWorld sampleFile
                    {| ar_description := "a beach"; ar_faces := [];
                       ar_segments := []; ar_transcript := "";
                       ar_onScreenText := [] |} (Finite 26) 1%Z eq_refl eq_refl)).
  reflexivity.
Defined.

(** ** The upload dialog when the analysis succeeds *)

Lemma extractFrames_resolved file frameCount env w frames duration :
  outcome (extractFrames file frameCount env w) = Resolved (frames, duration) ->
  env_getContext env = true
  /\ env_loadedmetadata env file = Some duration
  /\ isZero duration = false /\ isFinite duration = true
  /\ List.length frames = frameCount.
Proof.
  destruct (env_getContext env) eqn:Hctx.
  2: { unfold extractFrames, bind, ask, throw. rewrite Hctx. discriminate. }
  destruct (env_loadedmetadata env file) as [d |] eqn:Hmeta.
  2: { unfold extractFrames, bind, ask, await. rewrite Hctx, Hmeta. discriminate. }
  rewrite (extractFrames_run file frameCount env w d Hctx Hmeta).
  destruct (isZero d) eqn:Hz; cbn [orb]; [discriminate |].
  destruct (isFinite d) eqn:Hf; cbn [negb]; [| discriminate].
  destruct (captureLoop_shape file (jsDivPos d (Pos.of_succ_nat frameCount)) env w
              frameCount 1 []) as (o & t & -> & _ & _ & Hres).
  destruct o as [fs | e]; cbn [outcome]; [| discriminate].
  intros H. inversion H; subst. destruct (Hres frames eq_refl) as [Hlen _].
  now repeat split.
Qed.

Lemma submitUpload_analysis_resolves env w file frames duration analysisResult :
  videoFile (w_modal w) = Some file ->
  outcome (extractFrames file 12 env w) = Resolved (frames, duration) ->
  outcome (analyzeVideoContent frames duration env w) = Resolved analysisResult ->
  let w1 := with_modal (put_modal_error None) (with_modal (put_isAnalyzing true) w) in
  let upload := handleUpload file analysisResult duration env w1 in
  submitUpload env w =
  mkRun (Resolved tt)
        (with_modal (put_isAnalyzing false)
           (with_app (put_isModalOpen false) (world upload)))
        (trace (extractFrames file 12 env w)
         ++ trace (analyzeVideoContent frames duration env w)
         ++ Unawaited (List.length (trace upload)) :: trace upload).
Proof.
  intros Hfile Hframes Hok. cbv zeta.
  destruct (extractFrames_resolved file 12 env w frames duration Hframes)
    as (_ & _ & _ & _ & Hlen).
  unfold submitUpload, handleSubmit. unfold bind at 1. unfold get. rewrite Hfile.
  unfold setIsAnalyzing, setModalError, setIsModalOpen, modify.
  unfold bind at 1. unfold bind at 1.
  unfold try_finally, try_catch. unfold bind at 1.
  match goal with
  | |- context [extractFrames file 12 env ?w1] =>
      destruct (stateless_shape (extractFrames file 12) env w w1
                  (stateless_extractFrames file 12)) as (o & t & E0 & E1);
      rewrite E1; rewrite E0 in *; cbn [outcome trace] in *; subst o;
      rewrite Hlen; cbn [Nat.eqb]; unfold bind at 1;
      destruct (stateless_shape (analyzeVideoContent frames duration) env w w1
                  (stateless_analyzeVideoContent frames duration))
        as (o' & t' & E0' & E1');
      rewrite E1'; rewrite E0' in *; cbn [outcome trace] in *; subst o'
  end.
  unfold bind at 1. unfold detached.
  destruct (handleUpload file analysisResult duration env _) as [o5 w5 t5].
  cbn [outcome world trace app]. f_equal. now rewrite !app_nil_r.
Qed.

Lemma stored_video_in_library env userId d video file :
  In video (db_videos d) -> video_userId video = userId -> video_file video = file ->
  In {| ui_video := video; ui_url := env_createObjectURL env file |}
     (libraryOf env userId d).
Proof.
  intros Hin Hu Hf. unfold libraryOf. apply in_map_iff. exists video.
  split; [now rewrite Hf |]. unfold db_getVideosForUser. apply filter_In.
  split; [exact Hin |]. rewrite Hu. apply Z.eqb_refl.
Qed.

(** X15. When the frames are extracted and the analysis succeeds, the upload
    dialog closes without an error and stops analysing, whatever the store
    does with the upload; twelve frames were analysed, and the video that is
    built has the measured duration, which is finite and not zero.  Either
    the video is stored and shown in the library, or the store refuses a
    record and the stored videos and the page are as before: the refusal is
    shown nowhere, neither in the dialog nor as the error of the page. *)
Theorem upload_dialog_closes_silently :
  forall env w file frames duration analysisResult userId,
    videoFile (w_modal w) = Some file ->
    truthyUserId (currentUser (w_auth w)) = Some userId ->
    outcome (extractFrames file 12 env w) = Resolved (frames, duration) ->
    outcome (analyzeVideoContent frames duration env w) = Resolved analysisResult ->
    let w' := after submitUpload env w in
    outcome (submitUpload env w) = Resolved tt
    /\ modal_error (w_modal w') = None /\ isAnalyzing (w_modal w') = false
    /\ isModalOpen (w_app w') = false
    /\ error (w_app w') = error (w_app w)
    /\ List.length frames = 12%nat
    /\ exists video newFaces,
         videoOf userId file analysisResult duration (map face_id newFaces) video
         /\ Forall2 (faceOf userId) (ar_faces analysisResult) newFaces
         /\ isFinite (video_duration video) = true /\ isZero (video_duration video) = false
         /\ db_users (w_db w') = db_users (w_db w)
         /\ db_faces (w_db w') = fst (table_bulkAdd face_id newFaces (db_faces (w_db w)))
         /\ ((db_videos (w_db w') = table_insert video_id video (db_videos (w_db w))
              /\ In {| ui_video := video; ui_url := env_createObjectURL env file |}
                    (videos (w_app w')))
             \/ (db_videos (w_db w') = db_videos (w_db w)
                 /\ videos (w_app w') = videos (w_app w)
                 /\ allFaces (w_app w') = allFaces (w_app w))).
Proof.
  intros env w file frames duration analysisResult userId Hfile Huser Hframes Hok.
  cbv zeta. unfold after.
  rewrite (submitUpload_analysis_resolves env w file frames duration analysisResult
             Hfile Hframes Hok). cbv zeta. cbn [outcome world].
  destruct (extractFrames_resolved file 12 env w frames duration Hframes)
    as (_ & _ & Hz & Hfin & Hlen).
  set (w1 := with_modal (put_modal_error None) (with_modal (put_isAnalyzing true) w)).
  assert (Huser1 : truthyUserId (currentUser (w_auth w1)) = Some userId) by exact Huser.
  destruct (handleUpload_page env w1 file analysisResult duration userId Huser1)
    as [Hrej Hres].
  destruct (handleUpload_db env w1 file analysisResult duration userId Huser1)
    as (newFaces & video & Hfaces & Hvideo & Husers & Hstored & Hcases).
  cbv zeta in *.
  cbn [w_modal with_modal w_app with_app w_db isAnalyzing put_isAnalyzing isModalOpen
       put_isModalOpen error videos allFaces].
  assert (Hmodal : modal_error
                     (w_modal (world (handleUpload file analysisResult duration env w1)))
                   = None
                   /\ error (w_app (world (handleUpload file analysisResult duration env w1)))
                      = error (w_app w)).
  { destruct Hcases as [(Hout & _) | [Hr _]].
    - destruct (Hres Hout) as (w4 & (_ & _ & _ & _ & P5 & P6) & _ & ->).
      cbn. rewrite P5, P6. split; reflexivity.
    - destruct (Hrej Hr) as (_ & _ & _ & _ & P5 & P6). rewrite P5, P6.
      split; reflexivity. }
  destruct Hmodal as [Hm He].
  split; [reflexivity |]. split; [exact Hm |]. split; [reflexivity |].
  split; [reflexivity |]. split; [exact He |]. split; [exact Hlen |].
  exists video, newFaces. split; [exact Hvideo |]. split; [exact Hfaces |].
  destruct Hvideo as (Hvuser & _ & Hvfile & _ & Hvdur & _).
  rewrite Hvdur. split; [exact Hfin |]. split; [exact Hz |].
  split; [exact Husers |]. split; [exact Hstored |].
  destruct Hcases as [(Hout & _ & _ & Hvideos) | [Hr Hvideos]].
  - left. split; [exact Hvideos |].
    destruct (Hres Hout) as (w4 & _ & Hdb & Hw). rewrite Hw at 1.
    cbn [w_app with_app videos put_isLoading put_allFaces put_videos].
    apply stored_video_in_library; [| exact Hvuser | exact Hvfile].
    rewrite Hdb, Hvideos.
    apply (Permutation_in video (Permutation_sym (table_insert_perm _ video_id video _))).
    now left.
  - right. split; [exact Hvideos |].
    destruct (Hrej Hr) as (_ & _ & _ & _ & P5 & _). rewrite P5. split; reflexivity.
Qed.

Lemma upload_dialog_closes_silently_witness :
  videoFile (w_modal sampleWorld) = Some sampleFile
  /\ truthyUserId (currentUser (w_auth sampleWorld)) = Some 1%Z
  /\ isModalOpen (w_app (after submitUpload sampleEnv sampleWorld)) = false.
Proof.
  split; [reflexivity |]. split; [reflexivity |].
  refine (proj1 (proj2 (proj2 (proj2
            (upload_dialog_closes_silently sampleEnv sampleWorld sampleFile
               _ _ _ 1%Z eq_refl eq_refl _ _))))).
  - vm_compute. reflexivity.
  - vm_compute. reflexivity.
Defined.

(** ** The names of the faces *)

Lemma handleNameFace_run faceId name env w :
  handleNameFace faceId name env w =
  mkRun (Resolved tt)
        (with_app (fun a => put_allFaces (map (withName faceId name) (allFaces a)) a)
           (with_db (fun d => snd (db_updateFaceName faceId name d)) w))
        [Await (CallUpdateFaceName faceId name)].
Proof.
  unfold handleNameFace, updateFaceName, bind, get, modify, await.
  destruct (db_updateFaceName faceId name (w_db w)) as [n d] eqn:E. cbn.
  f_equal; apply world_ext; cbn; try reflexivity. now rewrite E.
Qed.

Lemma withName_id faceId name f : face_id (withName faceId name f) = face_id f.
Proof. unfold withName. now destruct (String.eqb (face_id f) faceId). Qed.

Lemma withName_userId faceId name f : face_userId (withName faceId name f) = face_userId f.
Proof. unfold withName. now destruct (String.eqb (face_id f) faceId). Qed.

Lemma withName_named faceId name f : face_name f = Some name -> withName faceId name f = f.
Proof.
  unfold withName. intros H. destruct (String.eqb (face_id f) faceId); [| reflexivity].
  destruct f; cbn in *. now subst.
Qed.

Lemma updateFaceName_faces faceId name d :
  ascending face_id (db_faces d) ->
  db_faces (snd (db_updateFaceName faceId name d)) = map (withName faceId name) (db_faces d)
  /\ db_users (snd (db_updateFaceName faceId name d)) = db_users d
  /\ db_users_keygen (snd (db_updateFaceName faceId name d)) = db_users_keygen d
  /\ db_videos (snd (db_updateFaceName faceId name d)) = db_videos d.
Proof.
  intros Hasc. unfold db_updateFaceName.
  destruct (table_get face_id faceId (db_faces d)) as [face |] eqn:E.
  - assert (Hsame : face_name face = Some name ->
                    db_faces d = map (withName faceId name) (db_faces d)).
    { intros Hn. rewrite <- (map_id (db_faces d)) at 1. apply map_ext_in.
      intros f Hf. unfold withName.
      destruct (String.eqb_spec (face_id f) faceId) as [Hid | _]; [| reflexivity].
      pose proof (ascending_get _ face_id (db_faces d) f Hasc Hf) as Hget.
      rewrite Hid, E in Hget. inversion Hget; subst f.
      destruct face; cbn in *. now subst. }
    destruct (face_name face) as [old |] eqn:Hold.
    + destruct (String.eqb_spec old name) as [-> | _]; cbn; [| now repeat split].
      split; [now apply Hsame | now repeat split].
    + cbn. now repeat split.
  - cbn. split; [| now repeat split].
    rewrite <- (map_id (db_faces d)) at 1. apply map_ext_in. intros f Hf.
    unfold withName. destruct (String.eqb_spec (face_id f) faceId) as [Hid | _];
      [| reflexivity].
    exfalso. apply (proj1 (table_get_None _ face_id faceId (db_faces d)) E f Hf Hid).
Qed.

Lemma filter_map_same {A} (p : A -> bool) (g : A -> A) (l : list A) :
  (forall x, p (g x) = p x) -> filter p (map g l) = map g (filter p l).
Proof.
  intros H. induction l as [| x l IH]; simpl; [reflexivity |].
  rewrite H. destruct (p x); simpl; now rewrite IH.
Qed.

(** X16. Naming a face keeps the page and the store in step.  On a faces
    table with distinct keys, when the page shows the stored faces of a user
    and the name of one of them is submitted from its card: the page shows
    the stored faces of that user afterwards as well; the stored record with
    the id of the card has the typed name without the white space around it,
    and its user, image and description are as before; no other record is
    changed and the keys are as before; videos and users are untouched.
    When the name is the stored one already the store is not called and
    nothing changes; the card always leaves the editing mode. *)
Theorem naming_keeps_page_and_store_in_step :
  forall env w face name userId,
    ascending face_id (db_faces (w_db w)) ->
    allFaces (w_app w) = db_getFacesForUser userId (w_db w) ->
    In face (allFaces (w_app w)) ->
    let r := handleNameSubmit face name handleNameFace env w in
    let w' := world r in
    outcome r = Resolved false
    /\ allFaces (w_app w') = db_getFacesForUser userId (w_db w')
    /\ (exists face',
          table_get face_id (face_id face) (db_faces (w_db w')) = Some face'
          /\ In face' (allFaces (w_app w'))
          /\ face_name face' = Some (trim name)
          /\ face_userId face' = face_userId face
          /\ face_image face' = face_image face
          /\ face_description face' = face_description face)
    /\ (forall f, In f (db_faces (w_db w)) -> face_id f <> face_id face ->
                  In f (db_faces (w_db w')))
    /\ map face_id (db_faces (w_db w')) = map face_id (db_faces (w_db w))
    /\ db_videos (w_db w') = db_videos (w_db w)
    /\ db_users (w_db w') = db_users (w_db w)
    /\ (face_name face = Some (trim name) -> trace r = [] /\ w' = w)
    /\ (face_name face <> Some (trim name) ->
        calls_of (trace r) = [CallUpdateFaceName (face_id face) (trim name)]).
Proof.
  intros env w face name userId Hasc Hsync Hface. cbv zeta.
  assert (Hstored : In face (db_faces (w_db w)) /\ face_userId face = userId).
  { rewrite Hsync in Hface. unfold db_getFacesForUser in Hface.
    apply filter_In in Hface. destruct Hface as [Hin Hu]. split; [exact Hin |].
    now apply Z.eqb_eq in Hu. }
  destruct Hstored as [Hin Huser].
  unfold handleNameSubmit, bind.
  destruct (sameName (trim name) (face_name face)) eqn:Hsame; cbn [negb].
  - assert (Hname : face_name face = Some (trim name)).
    { unfold sameName in Hsame. destruct (face_name face) as [n |]; [| discriminate].
      apply String.eqb_eq in Hsame. now subst. }
    cbn. split; [reflexivity |]. split; [exact Hsync |]. split.
    { exists face. split; [now apply ascending_get |]. now repeat split. }
    split; [now intros f Hf _ |]. do 3 (split; [reflexivity |]).
    split; [now intros _ | intros Hn; contradiction].
  - assert (Hname : face_name face <> Some (trim name)).
    { intros E. unfold sameName in Hsame. rewrite E, String.eqb_refl in Hsame.
      discriminate. }
    unfold detached, ret. rewrite handleNameFace_run. cbn [outcome world trace app List.length].
    destruct (updateFaceName_faces (face_id face) (trim name) (w_db w) Hasc)
      as (Hfaces & Husers & _ & Hvideos).
    cbn [w_app with_app w_db with_db allFaces put_allFaces].
    split; [reflexivity |]. split.
    { unfold db_getFacesForUser. rewrite Hfaces, Hsync. unfold db_getFacesForUser.
      symmetry. apply filter_map_same. intros f. now rewrite withName_userId. }
    assert (Hnew : In (withName (face_id face) (trim name) face)
                      (map (withName (face_id face) (trim name)) (db_faces (w_db w))))
      by now apply in_map.
    assert (Hshape : withName (face_id face) (trim name) face
                     = {| face_id := face_id face; face_userId := face_userId face;
                          face_name := Some (trim name); face_image := face_image face;
                          face_description := face_description face |}).
    { unfold withName. now rewrite String.eqb_refl. }
    split.
    { exists (withName (face_id face) (trim name) face). split.
      - rewrite Hfaces.
        rewrite <- (withName_id (face_id face) (trim name) face) at 1.
        apply ascending_get; [| exact Hnew].
        apply ascending_map; [intros f; apply withName_id | exact Hasc].
      - split; [now apply in_map |]. rewrite Hshape. now repeat split. }
    split.
    { intros f Hf Hid. rewrite Hfaces.
      assert (E : withName (face_id face) (trim name) f = f).
      { unfold withName. now destruct (String.eqb_spec (face_id f) (face_id face)). }
      rewrite <- E. now apply in_map. }
    split.
    { rewrite Hfaces, map_map. apply map_ext. intros f. apply withName_id. }
    split; [exact Hvideos |]. split; [exact Husers |].
    split; [intros E; contradiction | intros _; reflexivity].
Qed.

Lemma naming_keeps_page_and_store_in_step_witness :
  exists face,
    table_get face_id "face-a"
      (db_faces (w_db (world (handleNameSubmit
                                {| face_id := "face-a"; face_userId := 1%Z;
                                   face_name := None; face_image := "img";
                                   face_description := "smiling" |}
                                " Ann " handleNameFace sampleEnv
                                (with_app (put_allFaces
                                             [{| face_id := "face-a"; face_userId := 1%Z;
                                                 face_name := None; face_image := "img";
                                                 face_description := "smiling" |}])
                                   (with_db (fun d =>
                                      {| db_users := db_users d;
                                         db_users_keygen := db_users_keygen d;
                                         db_videos := db_videos d;
                                         db_faces :=
                                           [{| face_id := "face-a"; face_userId := 1%Z;
                                               face_name := None; face_image := "img";
                                               face_description := "smiling" |}] |})
                                      sampleWorld))))))
    = Some face
    /\ face_name face = Some "Ann".
Proof.
  destruct (naming_keeps_page_and_store_in_step sampleEnv
              (with_app (put_allFaces
                           [{| face_id := "face-a"; face_userId := 1%Z;
                               face_name := None; face_image := "img";
                               face_description := "smiling" |}])
                 (with_db (fun d =>
                    {| db_users := db_users d;
                       db_users_keygen := db_users_keygen d;
                       db_videos := db_videos d;
                       db_faces :=
                         [{| face_id := "face-a"; face_userId := 1%Z;
                             face_name := None; face_image := "img";
                             face_description := "smiling" |}] |})
                    sampleWorld))
              {| face_id := "face-a"; face_userId := 1%Z;
                 face_name := None; face_image := "img";
                 face_description := "smiling" |}
              " Ann " 1%Z)
    as (_ & _ & (face' & Hget & _ & Hname & _) & _).
  - repeat constructor.
  - reflexivity.
  - left. reflexivity.
  - exists face'. split; [exact Hget | exact Hname].
Defined.

(** ** The analysis succeeds as a whole or not at all *)

Lemma startAll_length {A} (ms : list (Async A)) env : forall w os w' bs,
  startAll ms env w = (os, w', bs) ->
  List.length os = List.length ms /\ List.length bs = List.length ms.
Proof.
  induction ms as [| m ms IH]; intros w os w' bs H; simpl in H.
  - inversion H. split; reflexivity.
  - destruct (m env w) as [o w1 t1].
    destruct (startAll ms env w1) as [[os1 w2] bs1] eqn:E. inversion H; subst.
    destruct (IH _ _ _ _ E) as [H1 H2]. simpl. split; congruence.
Qed.

Lemma crops_resolve_iff frames faces env w os bs :
  startAll (map (cropOne frames) faces) env w = (os, w, bs) ->
  ((exists l, settleAll os = Resolved l /\ List.length l = List.length faces)
   <-> forall face, In face faces -> ~ cropFails env frames face)
  /\ ((exists e, settleAll os = Rejected e)
      <-> exists face, In face faces /\ cropFails env frames face).
Proof.
  revert os bs. induction faces as [| face faces IH]; intros os bs H; simpl in H.
  - inversion H; subst. split; split.
    + intros _ f [].
    + intros _. now exists [].
    + intros [e He]. discriminate.
    + intros (f & [] & _).
  - rewrite cropOne_run in H.
    destruct (crops_settle frames faces env w) as (os1 & bs1 & Hstart & _).
    destruct (IH os1 bs1 Hstart) as [IHok IHfail].
    destruct (frameAt frames (ai_frameIndex face)) as [frame |] eqn:Hframe.
    + destruct (String.eqb_spec frame "") as [Hempty | Hne].
      * rewrite Hstart in H. inversion H; subst.
        assert (Hno : ~ cropFails env frames face).
        { intros (fr & Hfr & Hn & _). rewrite Hframe in Hfr. inversion Hfr; subst.
          now contradiction Hn. }
        split; split.
        -- intros (l & Hl & Hlen) f [<- | Hf]; [exact Hno |].
           simpl in Hl. destruct (settleAll os1) as [l1 |] eqn:E; [| discriminate].
           inversion Hl; subst. simpl in Hlen.
           apply (proj1 IHok); [| exact Hf]. exists l1. split; [reflexivity | lia].
        -- intros Hall. destruct (proj2 IHok) as (l & Hl & Hlen).
           { intros f Hf. apply Hall. now right. }
           exists (None :: l). simpl. rewrite Hl. split; [reflexivity | now rewrite Hlen].
        -- intros [e He]. simpl in He.
           destruct (settleAll os1) as [l1 | e1] eqn:E; [discriminate |].
           destruct (proj1 IHfail) as (f & Hf & Hfail); [now exists e1 |].
           exists f. split; [now right | exact Hfail].
        -- intros (f & [<- | Hf] & Hfail); [contradiction |].
           destruct (proj2 IHfail) as [e He]; [now exists f |].
           exists e. simpl. now rewrite He.
      * destruct (env_cropImage env frame (ai_box face)) as [image |] eqn:Hcrop.
        -- rewrite Hstart in H. inversion H; subst.
           assert (Hno : ~ cropFails env frames face).
           { intros (fr & Hfr & _ & Hc). rewrite Hframe in Hfr. inversion Hfr; subst.
             congruence. }
           split; split.
           ++ intros (l & Hl & Hlen) f [<- | Hf]; [exact Hno |].
              simpl in Hl. destruct (settleAll os1) as [l1 |] eqn:E; [| discriminate].
              inversion Hl; subst. simpl in Hlen.
              apply (proj1 IHok); [| exact Hf]. exists l1. split; [reflexivity | lia].
           ++ intros Hall. destruct (proj2 IHok) as (l & Hl & Hlen).
              { intros f Hf. apply Hall. now right. }
              eexists. simpl. rewrite Hl. split; [reflexivity | simpl; now rewrite Hlen].
           ++ intros [e He]. simpl in He.
              destruct (settleAll os1) as [l1 | e1] eqn:E; [discriminate |].
              destruct (proj1 IHfail) as (f & Hf & Hfail); [now exists e1 |].
              exists f. split; [now right | exact Hfail].
           ++ intros (f & [<- | Hf] & Hfail); [contradiction |].
              destruct (proj2 IHfail) as [e He]; [now exists f |].
              exists e. simpl. now rewrite He.
        -- rewrite Hstart in H. inversion H; subst.
           assert (Hyes : cropFails env frames face) by (exists frame; now repeat split).
           split; split.
           ++ intros (l & Hl & _). simpl in Hl. discriminate.
           ++ intros Hall. exfalso. apply (Hall face); [now left | exact Hyes].
           ++ intros _. exists face. split; [now left | exact Hyes].
           ++ intros _. now exists NotAnError.
    + rewrite Hstart in H. inversion H; subst.
      assert (Hno : ~ cropFails env frames face).
      { intros (fr & Hfr & _). congruence. }
      split; split.
      * intros (l & Hl & Hlen) f [<- | Hf]; [exact Hno |].
        simpl in Hl. destruct (settleAll os1) as [l1 |] eqn:E; [| discriminate].
        inversion Hl; subst. simpl in Hlen.
        apply (proj1 IHok); [| exact Hf]. exists l1. split; [reflexivity | lia].
      * intros Hall. destruct (proj2 IHok) as (l & Hl & Hlen).
        { intros f Hf. apply Hall. now right. }
        exists (None :: l). simpl. rewrite Hl. split; [reflexivity | now rewrite Hlen].
      * intros [e He]. simpl in He.
        destruct (settleAll os1) as [l1 | e1] eqn:E; [discriminate |].
        destruct (proj1 IHfail) as (f & Hf & Hfail); [now exists e1 |].
        exists f. split; [now right | exact Hfail].
      * intros (f & [<- | Hf] & Hfail); [contradiction |].
        destruct (proj2 IHfail) as [e He]; [now exists f |].
        exists e. simpl. now rewrite He.
Qed.

Lemma filterBoolean_length {A} (l : list (option A)) :
  (List.length (filterBoolean l) <= List.length l)%nat.
Proof. induction l as [| [a |] l IH]; simpl; lia. Qed.

Lemma analyzeVideoContent_wellFormed frames duration env w description faces segments
  transcript onScreenText :
  wellFormed (env_analyze env frames duration) description faces segments transcript
             onScreenText ->
  exists os bs,
    startAll (map (cropOne frames) faces) env w = (os, w, bs)
    /\ analyzeVideoContent frames duration env w =
       mkRun (match settleAll os with
              | Resolved faceCrops =>
                  Resolved {| ar_description := description;
                              ar_faces := filterBoolean faceCrops;
                              ar_segments := segments;
                              ar_transcript := transcript;
                              ar_onScreenText := onScreenText |}
              | Rejected _ =>
                  Rejected (Error "Failed to analyze video content with face detection.")
              end) w [Await (CallAnalyze frames); AwaitAll bs].
Proof.
  intros (args & Hreply & Hd & Hne & Hf & Hs & Ht & Ho).
  destruct (analyzeVideoContent_cases frames duration env w)
    as [(args' & description' & faces' & segments' & transcript' & ost' & os & bs
         & Hreply' & Hd' & _ & Hf' & Hs' & Ht' & Ho' & Hstart & Hrun) | Hrun].
  - rewrite Hreply in Hreply'. inversion Hreply'; subst args'.
    rewrite Hd in Hd'. rewrite Hf in Hf'. rewrite Hs in Hs'. rewrite Ht in Ht'.
    rewrite Ho in Ho'. inversion Hd'. inversion Hf'. inversion Hs'. inversion Ht'.
    inversion Ho'. subst. exists os, bs. split; [exact Hstart | exact Hrun].
  - exfalso. revert Hrun.
    unfold analyzeVideoContent, try_catch, bind, ask, await.
    rewrite Hreply. cbn [negb String.eqb Ascii.eqb Bool.eqb andb outcome world trace].
    rewrite Hd, Hf, Hs, Ht, Ho.
    destruct (String.eqb_spec description "") as [E | _]; [contradiction |].
    unfold promiseAll.
    destruct (crops_settle frames faces env w) as (os & bs & Hstart & _).
    rewrite Hstart. destruct (settleAll os); cbn; intros H; inversion H.
Qed.

(** X17. The analysis succeeds as a whole or not at all.  It resolves
    exactly when the reply of the service passes the checks and no crop of an
    existing frame fails; the result then carries the description, the
    segments, the transcript and the on-screen text of the reply unchanged,
    and at most as many faces as the reply.  One failing crop rejects the
    whole analysis, with the one message that every rejection carries, so
    that the description and the other faces are lost; and a crop is started
    for every face of a reply that passes the checks, whether or not an
    earlier one fails. *)
Theorem analysis_all_or_nothing :
  forall env w frames duration,
    let r := analyzeVideoContent frames duration env w in
    let reply := env_analyze env frames duration in
    ((exists result, outcome r = Resolved result)
     <-> exists description faces segments transcript onScreenText,
           wellFormed reply description faces segments transcript onScreenText
           /\ forall face, In face faces -> ~ cropFails env frames face)
    /\ (forall result description faces segments transcript onScreenText,
           outcome r = Resolved result ->
           wellFormed reply description faces segments transcript onScreenText ->
           ar_description result = description /\ ar_description result <> ""
           /\ ar_segments result = segments
           /\ ar_transcript result = transcript
           /\ ar_onScreenText result = onScreenText
           /\ (List.length (ar_faces result) <= List.length faces)%nat)
    /\ (forall description faces segments transcript onScreenText face,
           wellFormed reply description faces segments transcript onScreenText ->
           In face faces -> cropFails env frames face ->
           outcome r
           = Rejected (Error "Failed to analyze video content with face detection."))
    /\ (forall description faces segments transcript onScreenText,
           wellFormed reply description faces segments transcript onScreenText ->
           exists branches,
             trace r = [Await (CallAnalyze frames); AwaitAll branches]
             /\ List.length branches = List.length faces)
    /\ (forall e, outcome r = Rejected e ->
                  e = Error "Failed to analyze video content with face detection.").
Proof.
  intros env w frames duration. cbv zeta.
  split; [| split; [| split; [| split]]].
  - split.
    + intros [result Hres].
      destruct (analyzeVideoContent_cases frames duration env w)
        as [(args & description & faces & segments & transcript & ost & os & bs
             & Hreply & Hd & Hne & Hf & Hs & Ht & Ho & Hstart & Hrun) | Hrun];
        rewrite Hrun in Hres; cbn [outcome] in Hres; [| discriminate].
      exists description, faces, segments, transcript, ost. split.
      * exists args. now repeat split.
      * destruct (settleAll os) as [l |] eqn:E; [| discriminate].
        apply (proj1 (proj1 (crops_resolve_iff frames faces env w os bs Hstart))).
        exists l. split; [exact E |].
        destruct (startAll_length _ env w os w bs Hstart) as [Hlen _].
        rewrite length_map in Hlen. rewrite <- Hlen. clear - E.
        revert l E. induction os as [| [a | e] os IH]; intros l E; simpl in E.
        -- now inversion E.
        -- destruct (settleAll os) as [l' |]; [| discriminate]. inversion E; subst.
           simpl. now rewrite (IH l' eq_refl).
        -- discriminate.
    + intros (description & faces & segments & transcript & ost & Hwf & Hall).
      destruct (analyzeVideoContent_wellFormed frames duration env w _ _ _ _ _ Hwf)
        as (os & bs & Hstart & ->).
      destruct (proj2 (proj1 (crops_resolve_iff frames faces env w os bs Hstart)) Hall)
        as (l & -> & _).
      eexists. reflexivity.
  - intros result description faces segments transcript ost Hres Hwf.
    destruct (analyzeVideoContent_wellFormed frames duration env w _ _ _ _ _ Hwf)
      as (os & bs & Hstart & Hrun).
    rewrite Hrun in Hres. cbn [outcome] in Hres.
    destruct (settleAll os) as [l |] eqn:E; [| discriminate].
    inversion Hres; subst result. cbn.
    destruct Hwf as (args & _ & _ & Hne & _).
    do 5 (split; [first [reflexivity | exact Hne] |]).
    eapply Nat.le_trans; [apply filterBoolean_length |].
    destruct (startAll_length _ env w os w bs Hstart) as [Hlen _].
    rewrite length_map in Hlen. rewrite <- Hlen. clear - E.
    revert l E. induction os as [| [a | e] os IH]; intros l E; simpl in E.
    + inversion E. simpl. lia.
    + destruct (settleAll os) as [l' |]; [| discriminate]. inversion E; subst.
      simpl. specialize (IH l' eq_refl). lia.
    + discriminate.
  - intros description faces segments transcript ost face Hwf Hin Hfail.
    destruct (analyzeVideoContent_wellFormed frames duration env w _ _ _ _ _ Hwf)
      as (os & bs & Hstart & ->).
    destruct (proj2 (proj2 (crops_resolve_iff frames faces env w os bs Hstart)))
      as [e ->]; [now exists face | reflexivity].
  - intros description faces segments transcript ost Hwf.
    destruct (analyzeVideoContent_wellFormed frames duration env w _ _ _ _ _ Hwf)
      as (os & bs & Hstart & ->).
    exists bs. split; [reflexivity |].
    destruct (startAll_length _ env w os w bs Hstart) as [_ Hlen].
    now rewrite length_map in Hlen.
  - intros e. apply analyzeVideoContent_rejection.
Qed.

(** ** Only video files are uploaded *)

Lemma handleFileChange_run file env w :
  handleFileChange file env w =
  mkRun (Resolved tt)
        (match file with
         | Some f =>
             if String.prefix "video/" (file_type f)
             then with_modal (fun m => put_modal_error None (put_videoFile (Some f) m)) w
             else with_modal (put_modal_error (Some "Please select a valid video file.")) w
         | None => with_modal (put_modal_error (Some "Please select a valid video file.")) w
         end) [].
Proof.
  unfold handleFileChange, setVideoFile, setModalError, bind, modify.
  destruct file as [f |]; [destruct (String.prefix "video/" (file_type f)) |]; cbn;
    f_equal; apply world_ext; reflexivity.
Qed.

Lemma handleDrop_run file env w :
  handleDrop file env w =
  if isAnalyzing (w_modal w) then mkRun (Resolved tt) w []
  else handleFileChange file env w.
Proof.
  rewrite handleFileChange_run.
  unfold handleDrop, setVideoFile, setModalError, bind, get, modify, ret.
  destruct (isAnalyzing (w_modal w)); [reflexivity |].
  destruct file as [f |]; [destruct (String.prefix "video/" (file_type f)) |]; cbn;
    f_equal; apply world_ext; reflexivity.
Qed.

Lemma submitUpload_videos env w :
  videoFile (w_modal (after submitUpload env w)) = videoFile (w_modal w)
  /\ (db_videos (w_db (after submitUpload env w)) = db_videos (w_db w)
      \/ exists file video,
           videoFile (w_modal w) = Some file
           /\ video_file video = file
           /\ db_videos (w_db (after submitUpload env w))
              = table_insert video_id video (db_videos (w_db w))).
Proof.
  unfold after.
  destruct (videoFile (w_modal w)) as [file |] eqn:Hfile.
  2: { unfold submitUpload, handleSubmit, bind, get, setModalError, modify.
       rewrite Hfile. cbn. rewrite Hfile. split; [reflexivity | now left]. }
  destruct (outcome (extractFrames file 12 env w)) as [[frames duration] | e] eqn:Hex.
  2: { rewrite (submitUpload_extraction_fails env w file e Hfile Hex). cbn.
       rewrite Hfile. split; [reflexivity | now left]. }
  destruct (extractFrames_resolved file 12 env w frames duration Hex)
    as (_ & _ & _ & _ & Hlen).
  destruct (outcome (analyzeVideoContent frames duration env w)) as [result | e] eqn:Han.
  2: { rewrite (submitUpload_analysis_fails env w file frames duration e Hfile Hex);
         [| now destruct frames | exact Han].
       cbn. rewrite Hfile. split; [reflexivity | now left]. }
  rewrite (submitUpload_analysis_resolves env w file frames duration result Hfile Hex Han).
  cbv zeta. cbn [world w_modal with_modal w_db with_app videoFile put_isAnalyzing].
  set (w1 := with_modal (put_modal_error None) (with_modal (put_isAnalyzing true) w)).
  assert (Hfile1 : videoFile (w_modal w1) = Some file) by exact Hfile.
  destruct (truthyUserId (currentUser (w_auth w1))) as [userId |] eqn:Huser.
  - destruct (handleUpload_page env w1 file result duration userId Huser) as [Hrej Hres].
    destruct (handleUpload_db env w1 file result duration userId Huser)
      as (newFaces & video & _ & Hvideo & _ & _ & Hcases).
    cbv zeta in *.
    destruct Hcases as [(Hout & _ & _ & Hvideos) | [Hr Hvideos]].
    + destruct (Hres Hout) as (w4 & (_ & _ & _ & _ & _ & P6) & _ & Hw).
      split.
      * rewrite Hw. cbn. now rewrite P6.
      * right. exists file, video. destruct Hvideo as (_ & _ & Hvfile & _).
        now repeat split.
    + destruct (Hrej Hr) as (_ & _ & _ & _ & _ & P6). split; [now rewrite P6 |].
      now left.
  - rewrite (handleUpload_skips env w1 file result duration Huser). cbn.
    split; [exact Hfile | now left].
Qed.

Lemma onlyVideoFiles_step env w a : onlyVideoFiles w -> onlyVideoFiles (dialogStep env w a).
Proof.
  intros [Hsel Hdb]. destruct a as [file | file |]; cbn [dialogStep]; unfold after.
  - rewrite handleFileChange_run. cbn [world].
    destruct file as [f |]; [destruct (String.prefix "video/" (file_type f)) eqn:E |];
      split; cbn; try assumption.
    intros f' H. inversion H; subst. exact E.
  - rewrite handleDrop_run. destruct (isAnalyzing (w_modal w)); [now split |].
    rewrite handleFileChange_run. cbn [world].
    destruct file as [f |]; [destruct (String.prefix "video/" (file_type f)) eqn:E |];
      split; cbn; try assumption.
    intros f' H. inversion H; subst. exact E.
  - destruct (submitUpload_videos env w) as [Hfile Hvideos]. unfold after in *. split.
    + rewrite Hfile. exact Hsel.
    + destruct Hvideos as [-> | (file & video & Hf & Hv & ->)]; [exact Hdb |].
      intros v Hin. apply table_insert_In in Hin. destruct Hin as [-> | Hin];
        [| now apply Hdb].
      rewrite Hv. now apply Hsel.
Qed.

(** X18. Only files with a video type are uploaded.  Choosing or dropping a
    file whose type starts with ["video/"] selects it and clears the message
    of the dialog; any other file, or none, leaves the file chosen before in
    place and shows a message; a drop while the dialog is analysing changes
    nothing.  Submitting stores at most one video, and it is of the file
    that was chosen.  So in every sequence of choices, drops and submissions,
    from a store whose videos have files of a video type, the chosen file
    and the files of all stored videos have a video type. *)
Theorem only_videos_are_uploaded :
  forall env actions w,
    onlyVideoFiles w ->
    onlyVideoFiles (fold_left (dialogStep env) actions w)
    /\ (forall f, videoTyped f ->
          videoFile (w_modal (after (handleFileChange (Some f)) env w)) = Some f
          /\ modal_error (w_modal (after (handleFileChange (Some f)) env w)) = None)
    /\ (forall file,
          match file with Some f => ~ videoTyped f | None => True end ->
          videoFile (w_modal (after (handleFileChange file) env w)) = videoFile (w_modal w)
          /\ modal_error (w_modal (after (handleFileChange file) env w))
             = Some "Please select a valid video file.")
    /\ (forall file,
          handleDrop file env w
          = if isAnalyzing (w_modal w) then mkRun (Resolved tt) w []
            else handleFileChange file env w)
    /\ (db_videos (w_db (after submitUpload env w)) = db_videos (w_db w)
        \/ exists file video,
             videoFile (w_modal w) = Some file /\ video_file video = file
             /\ db_videos (w_db (after submitUpload env w))
                = table_insert video_id video (db_videos (w_db w))).
Proof.
  intros env actions w H. split; [| split; [| split; [| split]]].
  - revert w H. induction actions as [| a actions IH]; intros w H; simpl; [exact H |].
    apply IH. now apply onlyVideoFiles_step.
  - intros f Hf. unfold after. rewrite handleFileChange_run. unfold videoTyped in Hf.
    rewrite Hf. split; reflexivity.
  - intros file Hfile. unfold after. rewrite handleFileChange_run.
    destruct file as [f |]; [| split; reflexivity].
    destruct (String.prefix "video/" (file_type f)) eqn:E; [now contradiction Hfile |].
    split; reflexivity.
  - intros file. apply handleDrop_run.
  - apply submitUpload_videos.
Qed.

Lemma only_videos_are_uploaded_witness :
  onlyVideoFiles sampleWorld
  /\ onlyVideoFiles
       (fold_left (dialogStep sampleEnv)
          [PickFile (Some {| file_name := "notes.txt"; file_type := "text/plain";
                             file_content := "abc" |});
           SubmitDialog] sampleWorld).
Proof.
  assert (H : onlyVideoFiles sampleWorld).
  { split.
    - intros f E. inversion E; subst. reflexivity.
    - intros v [<- | []]. reflexivity. }
  split; [exact H |].
  exact (proj1 (only_videos_are_uploaded sampleEnv _ sampleWorld H)).
Defined.

(** ** What the chat box submits *)

Lemma trimStart_head s c r : trimStart s = String c r -> isSpace c = false.
Proof.
  induction s as [| a s IH]; simpl; [discriminate |].
  destruct (isSpace a) eqn:E; [exact IH |]. intros H. inversion H; subst. exact E.
Qed.

Lemma trimEnd_twice s : trimEnd (trimEnd s) = trimEnd s.
Proof.
  induction s as [| c s IH]; simpl; [reflexivity |].
  destruct (isSpace c && String.eqb (trimEnd s) "") eqn:E; [reflexivity |].
  simpl. now rewrite IH, E.
Qed.

Lemma trimEnd_head c r : isSpace c = false -> trimEnd (String c r) = String c (trimEnd r).
Proof. intros H. simpl. now rewrite H. Qed.

Lemma trim_twice s : trim (trim s) = trim s.
Proof.
  unfold trim. destruct (trimStart s) as [| c r] eqn:E; [reflexivity |].
  pose proof (trimStart_head s c r E) as Hc.
  rewrite (trimEnd_head c r Hc). cbn [trimStart]. rewrite Hc.
  rewrite <- (trimEnd_head c r Hc). apply trimEnd_twice.
Qed.

Lemma chatSearch_handleSearch_run query env w :
  ChatSearch.handleSearch query handleSearch env w =
  if negb (String.eqb (trim query) "") && negb (isLoading (w_app w))
  then mkRun (Resolved "") (after (handleSearch (trim query)) env w)
             (Unawaited (List.length (trace (handleSearch (trim query) env w)))
              :: trace (handleSearch (trim query) env w))
  else mkRun (Resolved query) w [].
Proof.
  unfold ChatSearch.handleSearch, after. unfold bind at 1. unfold get.
  destruct (negb (String.eqb (trim query) "") && negb (isLoading (w_app w)));
    [| reflexivity].
  unfold bind, detached, ret.
  destruct (handleSearch (trim query) env w) as [o w1 t1]. cbn.
  now rewrite app_nil_r.
Qed.

Lemma userTextsTrimmed_submit query env w :
  userTextsTrimmed (chatHistory (w_app w)) ->
  userTextsTrimmed
    (chatHistory (w_app (world (ChatSearch.handleSearch query handleSearch env w)))).
Proof.
  intros H. rewrite chatSearch_handleSearch_run.
  destruct (String.eqb_spec (trim query) "") as [E | E]; cbn [negb andb]; [exact H |].
  destruct (isLoading (w_app w)); cbn [negb]; [exact H |]. cbn [world].
  destruct (handleSearch_history (trim query) env w) as (u & m & -> & Hu & Ht & _ & Hm).
  unfold userTextsTrimmed. apply Forall_app. split; [exact H |].
  constructor; [| constructor; [| constructor]].
  - intros _. rewrite Ht. split; [exact E | apply trim_twice].
  - intros Hs. congruence.
Qed.

(** X19. What the chat box submits.  A query that is blank, and any query
    while a search is loading, is not submitted: nothing is requested, the
    page and the content of the box stay as they are.  Otherwise the box is
    emptied and the search runs with the query without the white space
    around it: the message of the user that enters the chat is that text,
    which is not empty and has no white space at its ends.  So in every chat
    that submissions from the box build, the messages of the user are not
    empty and have no white space at their ends. *)
Theorem chat_box_submits_trimmed :
  forall env w query,
    let r := ChatSearch.handleSearch query handleSearch env w in
    (trim query = "" \/ isLoading (w_app w) = true -> r = mkRun (Resolved query) w [])
    /\ (trim query <> "" -> isLoading (w_app w) = false ->
        outcome r = Resolved ""
        /\ world r = after (handleSearch (trim query)) env w
        /\ exists userMessage aiMessage,
             chatHistory (w_app (world r))
             = chatHistory (w_app w) ++ [userMessage; aiMessage]
             /\ msg_sender userMessage = SenderUser
             /\ msg_text userMessage = trim query
             /\ msg_text userMessage <> ""
             /\ trim (msg_text userMessage) = msg_text userMessage)
    /\ (forall queries,
          userTextsTrimmed (chatHistory (w_app w)) ->
          userTextsTrimmed
            (chatHistory
               (w_app (fold_left
                         (fun w' q => world (ChatSearch.handleSearch q handleSearch env w'))
                         queries w)))).
Proof.
  intros env w query. cbv zeta. rewrite chatSearch_handleSearch_run.
  split; [| split].
  - intros [E | E].
    + now rewrite E.
    + rewrite E. now rewrite andb_false_r.
  - intros Hq Hl. apply String.eqb_neq in Hq. rewrite Hq, Hl. cbn [negb andb outcome world].
    split; [reflexivity |]. split; [reflexivity |].
    destruct (handleSearch_history (trim query) env w) as (u & m & -> & Hu & Ht & _ & _).
    exists u, m. split; [reflexivity |]. split; [exact Hu |]. split; [exact Ht |].
    rewrite Ht. split; [now apply String.eqb_neq | apply trim_twice].
  - intros queries. revert w. induction queries as [| q queries IH]; intros w H; simpl;
      [exact H |].
    apply IH. now apply userTextsTrimmed_submit.
Qed.

(** ** A change of the user *)

Lemma truthy_of_login u : falsyId (user_id u) = false ->
  exists userId, user_id u = Some userId /\ truthyUserId (Some u) = Some userId.
Proof.
  unfold falsyId, truthyUserId. destruct (user_id u) as [k |]; [| discriminate].
  intros H. exists k. rewrite H. split; reflexivity.
Qed.

(** X20. A change of the user.  After a logout [loadUserData] does nothing,
    so the library, the faces and the chat of the user who left stay in the
    state of the page.  When then a user logs in and the data are loaded, the
    library and the faces are exactly the stored ones of the new user, and
    the store is untouched; but the chat history, with the videos attached to
    its replies, the selected faces and the error are still those of the
    page before: neither [logout] nor [login] nor [loadUserData] resets
    them. *)
Theorem switching_user_keeps_chat :
  forall env w email password,
    let w1 := after logout env w in
    outcome (login email password env w1) = Resolved tt ->
    let w2 := after (login email password) env w1 in
    let w3 := after loadUserData env w2 in
    after loadUserData env w1 = w1
    /\ w_app w1 = w_app w
    /\ exists u userId,
         currentUser (w_auth w3) = Some u /\ user_id u = Some userId
         /\ In u (db_users (w_db w))
         /\ toLowerCase (user_email u) = toLowerCase email
         /\ videos (w_app w3) = libraryOf env userId (w_db w)
         /\ allFaces (w_app w3) = db_getFacesForUser userId (w_db w)
         /\ chatHistory (w_app w3) = chatHistory (w_app w)
         /\ selectedFaceIds (w_app w3) = selectedFaceIds (w_app w)
         /\ searchActive (w_app w3) = searchActive (w_app w)
         /\ error (w_app w3) = error (w_app w)
         /\ w_db w3 = w_db w.
Proof.
  intros env w email password. cbv zeta. intros Hok.
  assert (Hout : after logout env w
                 = with_session None (with_auth (put_currentUser None) w)).
  { reflexivity. }
  rewrite Hout in *.
  split.
  { unfold after. rewrite loadUserData_run. reflexivity. }
  split; [reflexivity |].
  destruct (login_resolved email password env _ Hok) as (u & Hfind & Htruthy & ->).
  cbn [w_db with_session with_auth] in Hfind.
  destruct (getUserByEmail_Some email (w_db w) u Hfind) as [Hin Hmail].
  destruct (truthy_of_login u Htruthy) as (userId & Hid & Htr).
  exists u, userId. unfold after. rewrite loadUserData_run.
  cbn [w_auth with_session with_auth currentUser put_currentUser]. rewrite Htr.
  cbn [world w_auth w_app w_db with_app with_session with_auth currentUser put_currentUser
       videos allFaces chatHistory selectedFaceIds searchActive error put_isLoading
       put_allFaces put_videos].
  unfold libraryOf. repeat split; assumption.
Qed.

Lemma switching_user_keeps_chat_witness :
  exists u userId,
    currentUser
      (w_auth (after loadUserData sampleEnv
                 (after (login "ann@example.com" "x") sampleEnv
                    (after logout sampleEnv
                       (after (handleSearch "beach") sampleEnv sampleWorld)))))
    = Some u
    /\ user_id u = Some userId
    /\ List.length
         (chatHistory
            (w_app (after loadUserData sampleEnv
                      (after (login "ann@example.com" "x") sampleEnv
                         (after logout sampleEnv
                            (after (handleSearch "beach") sampleEnv sampleWorld))))))
       = 2%nat.
Proof.
  destruct (switching_user_keeps_chat sampleEnv
              (after (handleSearch "beach") sampleEnv sampleWorld)
              "ann@example.com" "x" eq_refl)
    as (_ & _ & u & userId & Hu & Hid & _ & _ & _ & _ & Hchat & _).
  exists u, userId. split; [exact Hu |]. split; [exact Hid |].
  rewrite Hchat. reflexivity.
Defined.

(** ** The soundness of the store under the operations of the page *)

Lemma storeSound_same {A} (m : Async A) :
  (forall env w, w_db (world (m env w)) = w_db w /\ w_auth (world (m env w)) = w_auth w) ->
  preserves storeSound m.
Proof.
  intros H env w (Hwf & Hint & Hcur). destruct (H env w) as [Hdb Hauth].
  unfold storeSound, usersWf, currentUserStored. rewrite Hdb, Hauth.
  split; [exact Hwf | split; [exact Hint | exact Hcur]].
Qed.

Lemma refIntegrity_more_users d d' :
  refIntegrity d -> db_videos d' = db_videos d -> db_faces d' = db_faces d ->
  (forall u, In u (db_users d) -> In u (db_users d')) -> refIntegrity d'.
Proof.
  intros (Hvf & Hvu & Hfu) Hv Hf Hu. unfold refIntegrity. rewrite Hv, Hf.
  split; [exact Hvf |]. split.
  - intros v Hin. destruct (Hvu v Hin) as (u & Huin & Hid). exists u. split; auto.
  - intros f Hin. destruct (Hfu f Hin) as (u & Huin & Hid). exists u. split; auto.
Qed.

Lemma storeSound_createUser email : preserves storeSound (createUser email).
Proof.
  intros env w (Hwf & Hint & Hcur).
  pose proof (usersWf_createUser email env w Hwf) as Hwf'.
  split; [exact Hwf' |]. revert Hwf'. unfold createUser, bind, get.
  destruct (db_createUser email (w_db w)) as [[k d] |] eqn:E; cbn; intros _;
    [| now split].
  unfold db_createUser in E. destruct (existsb _ (db_users (w_db w))); [discriminate |].
  inversion E; subst k d. split.
  - apply (refIntegrity_more_users (w_db w)); [exact Hint | reflexivity | reflexivity |].
    intros u Hu. cbn. apply in_or_app. now left.
  - intros userId Hid. destruct (Hcur userId Hid) as (u & Hu & Hk).
    exists u. split; [cbn; apply in_or_app; now left | exact Hk].
Qed.

Lemma storeSound_updateFaceName faceId name :
  preserves storeSound (updateFaceName faceId name).
Proof.
  intros env w (Hwf & Hint & Hcur).
  pose proof (usersWf_updateFaceName faceId name env w Hwf) as Hwf'.
  split; [exact Hwf' |]. revert Hwf'. unfold updateFaceName, bind, get, db_updateFaceName.
  destruct (table_get face_id faceId (db_faces (w_db w))) as [face |]; [| now split].
  assert (H : refIntegrity
                {| db_users := db_users (w_db w);
                   db_users_keygen := db_users_keygen (w_db w);
                   db_videos := db_videos (w_db w);
                   db_faces := map (withName faceId name) (db_faces (w_db w)) |}).
  { destruct Hint as (Hvf & Hvu & Hfu). split; [| split]; cbn.
    - intros v fid Hv Hfid. destruct (Hvf v fid Hv Hfid) as (f & Hf & Hid & Hu).
      exists (withName faceId name f). split; [now apply in_map |].
      now rewrite withName_id, withName_userId.
    - exact Hvu.
    - intros f Hf. apply in_map_iff in Hf. destruct Hf as (f0 & <- & Hf0).
      rewrite withName_userId. now apply Hfu. }
  destruct (face_name face) as [old |]; [destruct (String.eqb old name) |]; cbn;
    intros _; split; first [exact H | exact Hint | exact Hcur].
Qed.

Lemma storeSound_current u w :
  storeSound w -> In u (db_users (w_db w)) ->
  storeSound (with_session (Some (idString u)) (with_auth (put_currentUser (Some u)) w)).
Proof.
  intros (Hwf & Hint & Hcur) Hin. split; [exact Hwf |]. split; [exact Hint |].
  intros userId H. exists u. split; [exact Hin |].
  cbn in H. unfold truthyUserId in H. destruct (user_id u) as [k |]; [| discriminate].
  destruct (Z.eqb k 0); [discriminate |]. exact H.
Qed.

Lemma storeSound_login email password : preserves storeSound (login email password).
Proof.
  intros env w H. rewrite login_run.
  destruct (db_getUserByEmail email (w_db w)) as [u |] eqn:E; [| exact H].
  destruct (falsyId (user_id u)); [exact H |]. cbn [world].
  apply storeSound_current; [exact H |]. now apply (getUserByEmail_Some email (w_db w) u).
Qed.

Lemma getUserById_stored id d u : db_getUserById id d = Some u -> In u (db_users d).
Proof. unfold db_getUserById. intros H. now apply find_some in H. Qed.

Lemma storeSound_signup email password : preserves storeSound (signup email password).
Proof.
  intros env w H.
  destruct (db_getUserByEmail email (w_db w)) as [u0 |] eqn:E.
  - rewrite signup_registered; [exact H |].
    apply getUserByEmail_Some in E. destruct E. now exists u0.
  - apply getUserByEmail_None in E.
    destruct (signup_fresh email password env w E) as (d' & Hc & ->). cbv zeta.
    assert (Hd : storeSound (with_db (fun _ => d') w)).
    { pose proof (storeSound_createUser email env w H) as Hs.
      unfold createUser, bind, get in Hs. rewrite Hc in Hs. exact Hs. }
    destruct (db_getUserById (db_users_keygen (w_db w)) d') as [u |] eqn:Hget;
      [| exact Hd].
    destruct (falsyId (user_id u)); [exact Hd |]. cbn [world].
    apply storeSound_current; [exact Hd |].
    now apply (getUserById_stored (db_users_keygen (w_db w)) d').
Qed.

Lemma storeSound_logout : preserves storeSound logout.
Proof.
  intros env w (Hwf & Hint & Hcur). split; [exact Hwf |]. split; [exact Hint |].
  intros userId H. discriminate H.
Qed.

Lemma storeSound_checkLoggedInUser : preserves storeSound checkLoggedInUser.
Proof.
  intros env w (Hwf & Hint & Hcur).
  destruct (checkLoggedInUser_world env w) as [t ->]. cbn [world].
  split; [exact Hwf |]. split; [exact Hint |].
  intros userId. cbn [w_auth with_auth currentUser w_db].
  assert (Hfound : forall k,
             truthyUserId (db_getUserById k (w_db w)) = Some userId ->
             exists u, In u (db_users (w_db w)) /\ user_id u = Some userId).
  { intros k Hk. destruct (db_getUserById k (w_db w)) as [u |] eqn:Hget; [| discriminate].
    exists u. split; [now apply (getUserById_stored k) |].
    unfold truthyUserId in Hk. destruct (user_id u) as [j |]; [| discriminate].
    destruct (Z.eqb j 0); [discriminate | exact Hk]. }
  destruct (w_session w) as [userIdStr |]; [| apply Hcur].
  destruct (String.eqb userIdStr ""); [apply Hcur |].
  destruct (parseInt10 userIdStr) as [k |]; [apply Hfound | discriminate].
Qed.

Lemma storeSound_handleLogin : preserves storeSound handleLogin.
Proof.
  intros env w H. rewrite handleLogin_run. cbv zeta.
  destruct (_ || _); [exact H |]. destruct (negb _); [exact H |].
  destruct (db_getUserByEmail _ (w_db w)) as [u |] eqn:E; [| exact H].
  destruct (falsyId (user_id u)); [exact H |]. cbn [world].
  pose proof (storeSound_current u w H
                (proj1 (getUserByEmail_Some _ (w_db w) u E))) as Hs.
  exact Hs.
Qed.

Lemma storeSound_handleSignup :
  preserves storeSound (handleSignup (modify (with_loginForm (put_isSignupModalOpen false)))).
Proof.
  intros env w H. rewrite (handleSignup_run env w (proj1 H)). cbv zeta.
  destruct (_ || _); [exact H |]. destruct (negb _); [exact H |].
  destruct (_ <? _)%nat; [exact H |].
  destruct (db_getUserByEmail _ (w_db w)) as [u |] eqn:E; [exact H |].
  apply getUserByEmail_None in E. cbn [world].
  pose proof (storeSound_createUser (signup_email (w_signupForm w)) env w H) as Hs.
  unfold createUser, bind, get in Hs. rewrite (createUser_fresh _ _ E) in Hs.
  pose proof (storeSound_current
                {| user_id := Some (db_users_keygen (w_db w));
                   user_email := signup_email (w_signupForm w) |} _ Hs) as Hc.
  apply Hc. cbn. apply in_or_app. right. now left.
Qed.

Lemma storeSound_handleUpload file analysisResult duration :
  preserves storeSound (handleUpload file analysisResult duration).
Proof.
  intros env w H.
  destruct (truthyUserId (currentUser (w_auth w))) as [userId |] eqn:Huser.
  2: { now rewrite (handleUpload_skips env w file analysisResult duration Huser). }
  destruct H as (Hwf & Hint & Hcur).
  pose proof (usersWf_perform (OpHandleUpload file analysisResult duration) env w Hwf)
    as Hwf'. cbn [perform] in Hwf'.
  destruct (handleUpload_db env w file analysisResult duration userId Huser)
    as (newFaces & video & Hfaces & Hvideo & Husers & Hstored & Hcases).
  destruct (handleUpload_page env w file analysisResult duration userId Huser)
    as [Hrej Hres].
  cbv zeta in *.
  assert (Hauth : w_auth (world (handleUpload file analysisResult duration env w))
                  = w_auth w).
  { destruct Hcases as [(Hout & _) | [Hr _]].
    - destruct (Hres Hout) as (w4 & (_ & P2 & _) & _ & ->). exact P2.
    - now destruct (Hrej Hr) as (_ & P2 & _). }
  split; [exact Hwf' |]. split.
  - apply (upload_keeps_integrity (w_db w) _ userId newFaces Hint (Hcur userId Huser)
             (faceOf_userId userId _ _ Hfaces) Husers Hstored).
    destruct Hcases as [(_ & Hall & _ & Hvideos) | [_ Hvideos]]; [right | now left].
    exists video. destruct Hvideo as (Hvuser & _ & _ & _ & _ & Hids & _).
    now repeat split.
  - intros k Hk. rewrite Hauth in Hk. rewrite Husers. now apply Hcur.
Qed.

Lemma storeSound_perform op :
  storesGivenRecords op = false -> preserves storeSound (perform op).
Proof.
  intros Hop. destruct op; try discriminate Hop; cbn [perform];
    first [ apply storeSound_login | apply storeSound_signup | apply storeSound_logout
          | apply storeSound_checkLoggedInUser | apply storeSound_handleLogin
          | apply storeSound_handleSignup | apply storeSound_handleUpload
          | idtac ];
    unfold submitUpload, handleSubmit, handleSearch, displayedVideos,
      handleClearSearch, handleToggleFaceSelection, handleNameFace;
    repeat preserves_step;
    first [ apply storeSound_createUser | apply storeSound_updateFaceName
          | apply storeSound_handleUpload
          | apply storeSound_same; intros; apply and_comm; split;
            [ rewrite loadUserData_run;
              destruct (truthyUserId (currentUser (w_auth w))); reflexivity
            | apply loadUserData_keeps_db ]
          | apply preserves_stateless;
            first [ apply stateless_findMatchingVideos | apply stateless_generateChatResponse
                  | apply stateless_cropFace | apply stateless_analyzeVideoContent
                  | apply stateless_extractFrames ] ].
Qed.

(** X21. The store stays sound under the operations of the page.  On a
    store in which the keys of the users come from the generator, every face
    id of a video is the id of a stored face of the same user, the users of
    videos and faces are stored, and the current user is stored, every
    operation of the program other than the two wrappers that store given
    records as they are ([addVideo] and [addFaces] called on their own)
    keeps all of this, in any order and with any outcome of the services:
    logging in, signing up, uploading, naming faces and searching never
    leave a video or a face without its user or a video without its faces. *)
Theorem store_stays_sound :
  forall env ops w,
    Forall (fun op => storesGivenRecords op = false) ops ->
    storeSound w ->
    storeSound (fold_left (fun w' op => after (perform op) env w') ops w).
Proof.
  intros env ops. induction ops as [| op ops IH]; intros w Hops H; simpl; [exact H |].
  inversion Hops; subst. apply IH; [assumption |]. now apply storeSound_perform.
Qed.

Lemma store_stays_sound_witness :
  storeSound (with_db (fun _ => emptyDB) (after logout sampleEnv sampleWorld))
  /\ storeSound
       (fold_left (fun w' op => after (perform op) sampleEnv w')
                  [OpSignup "bob@example.com" "secret"; OpHandleSubmit;
                   OpHandleNameFace "face-a" "Bob"; OpLogout]
                  (with_db (fun _ => emptyDB) (after logout sampleEnv sampleWorld))).
Proof.
  assert (H : storeSound (with_db (fun _ => emptyDB) (after logout sampleEnv sampleWorld))).
  { split; [reflexivity |]. split.
    - split; [intros v f [] | split; [intros v [] | intros f []]].
    - intros k Hk. discriminate Hk. }
  split; [exact H |].
  apply (store_stays_sound sampleEnv _ _); [| exact H].
  repeat constructor.
Defined.

(** ** When an upload is stored *)

Section BulkAdd.
Variable R : Type.
Variable key : R -> string.

Lemma table_get_insert r t k :
  table_get key k (table_insert key r t) = None
  <-> table_get key k t = None /\ key r <> k.
Proof.
  rewrite !(table_get_None _ key). split.
  - intros H. split.
    + intros x Hx. apply H. apply (Permutation_in x (Permutation_sym
                                     (table_insert_perm _ key r t))). now right.
    + apply H. apply (Permutation_in r (Permutation_sym (table_insert_perm _ key r t))).
      now left.
  - intros [Ht Hr] x Hx. apply (table_insert_In _ key) in Hx. destruct Hx as [-> | Hx];
      [exact Hr | now apply Ht].
Qed.

Lemma table_get_inserted r t :
  table_get key (key r) t = None ->
  table_get key (key r) (table_insert key r t) = Some r.
Proof.
  induction t as [| x t IH]; simpl.
  - intros _. now rewrite String.eqb_refl.
  - destruct (String.eqb (key x) (key r)) eqn:E; [discriminate |]. intros H.
    destruct (String.ltb (key r) (key x)); simpl.
    + now rewrite String.eqb_refl.
    + rewrite E. now apply IH.
Qed.

Lemma table_bulkAdd_ok rs : forall t,
  snd (table_bulkAdd key rs t) = true
  <-> NoDup (map key rs) /\ forall r, In r rs -> table_get key (key r) t = None.
Proof.
  induction rs as [| r rs IH]; intros t; simpl.
  - split; [intros _; split; [constructor | intros r []] | reflexivity].
  - unfold table_add. destruct (table_get key (key r) t) as [x |] eqn:E; simpl.
    + split; [discriminate |]. intros [_ H]. specialize (H r (or_introl eq_refl)).
      congruence.
    + rewrite IH. split.
      * intros [Hnd Hfree]. split.
        -- constructor; [| exact Hnd]. intros Hin. apply in_map_iff in Hin.
           destruct Hin as (x & Hx & Hin). specialize (Hfree x Hin).
           apply table_get_insert in Hfree. destruct Hfree as [_ Hne]. congruence.
        -- intros x [<- | Hx]; [exact E |].
           now apply (proj1 (table_get_insert r t (key x)) (Hfree x Hx)).
      * intros [Hnd Hfree]. inversion Hnd as [| ? ? Hnotin Hnd']; subst. split; [exact Hnd' |].
        intros x Hx. apply table_get_insert. split; [apply Hfree; now right |].
        intros Heq. apply Hnotin. rewrite Heq. now apply in_map.
Qed.
End BulkAdd.

Lemma generatedId_shift env w kind k :
  generatedId env (with_randomCalls S (with_nowCalls S w)) kind k
  = generatedId env w kind (S k).
Proof.
  unfold generatedId. cbn [w_nowCalls w_randomCalls with_randomCalls with_nowCalls].
  now rewrite !Nat.add_succ_r.
Qed.

Lemma collectFaces_ids userId env faces : forall newFaces w,
  exists added w',
    collectFaces userId faces newFaces env w
    = mkRun (Resolved (map face_id added, newFaces ++ added)) w' []
    /\ map face_id added = generatedFaceIds env w (List.length faces)
    /\ w_nowCalls w' = (w_nowCalls w + List.length faces)%nat
    /\ w_randomCalls w' = (w_randomCalls w + List.length faces)%nat
    /\ w_db w' = w_db w /\ w_auth w' = w_auth w
    /\ Forall2 (faceOf userId) faces added.
Proof.
  induction faces as [| faceData faces IH]; intros newFaces w.
  - exists [], w. simpl. unfold ret. rewrite app_nil_r, !Nat.add_0_r. repeat split.
    constructor.
  - simpl. unfold bind at 1. unfold dateNow. unfold bind at 1. unfold randomSuffix.
    unfold bind at 1.
    match goal with
    | |- context [collectFaces userId faces (newFaces ++ [?f]) env ?w1] =>
        destruct (IH (newFaces ++ [f]) w1)
          as (added & w' & Hrun & Hids & Hnow & Hrand & Hdb & Hauth & Hall);
        exists (f :: added), w'; rewrite Hrun
    end.
    cbn -[string_of_Z generatedFaceIds]. rewrite <- app_assoc.
    split; [reflexivity |]. split.
    { rewrite Hids. unfold generatedFaceIds. cbn [seq map]. f_equal.
      - unfold generatedId. now rewrite !Nat.add_0_r.
      - rewrite <- seq_shift, map_map. apply map_ext. intros k.
        apply generatedId_shift. }
    cbn in Hnow, Hrand. split; [lia |]. split; [lia |].
    split; [exact Hdb |]. split; [exact Hauth |].
    constructor; [repeat split | exact Hall].
Qed.

Lemma addFaces_exact added env w :
  (if (0 <? List.length added)%nat then (addFaces added ;; ret tt) else ret tt) env w
  = mkRun (if snd (table_bulkAdd face_id added (db_faces (w_db w)))
           then Resolved tt else Rejected (Error "BulkError"))
          (with_db (fun d => {| db_users := db_users d;
                                db_users_keygen := db_users_keygen d;
                                db_videos := db_videos d;
                                db_faces := fst (table_bulkAdd face_id added (db_faces d)) |})
                   w)
          (if (0 <? List.length added)%nat then [Await (CallAddFaces (map face_id added))]
           else []).
Proof.
  destruct added as [| f added].
  - cbn. unfold ret. f_equal. apply world_ext; try reflexivity. cbn. now destruct (w_db w).
  - cbn [List.length Nat.ltb Nat.leb]. unfold addFaces, bind, get, db_addFaces.
    destruct (table_bulkAdd face_id (f :: added) (db_faces (w_db w))) as [t ok] eqn:E.
    cbn -[table_bulkAdd].
    destruct ok; f_equal; apply world_ext; cbn -[table_bulkAdd]; rewrite ?E; reflexivity.
Qed.

Lemma addVideo_exact video env w :
  addVideo video env w
  = match table_get video_id (video_id video) (db_videos (w_db w)) with
    | None =>
        mkRun (Resolved (video_id video))
              (with_db (fun d => {| db_users := db_users d;
                                    db_users_keygen := db_users_keygen d;
                                    db_videos := table_insert video_id video (db_videos d);
                                    db_faces := db_faces d |}) w)
              [Await (CallAddVideo (video_id video))]
    | Some _ =>
        mkRun (Rejected (Error "ConstraintError")) w [Await (CallAddVideo (video_id video))]
    end.
Proof.
  unfold addVideo, bind, get, db_addVideo, table_add.
  destruct (table_get video_id (video_id video) (db_videos (w_db w))); cbn;
    [reflexivity |]. f_equal; apply world_ext; reflexivity.
Qed.

Lemma handleUpload_by_ids env w file analysisResult duration userId :
  truthyUserId (currentUser (w_auth w)) = Some userId ->
  let r := handleUpload file analysisResult duration env w in
  let n := List.length (ar_faces analysisResult) in
  let faceIds := generatedFaceIds env w n in
  let videoId := generatedVideoId env w n in
  exists added video,
    map face_id added = faceIds
    /\ Forall2 (faceOf userId) (ar_faces analysisResult) added
    /\ videoOf userId file analysisResult duration faceIds video
    /\ video_id video = videoId
    /\ (snd (table_bulkAdd face_id added (db_faces (w_db w))) = true
        <-> NoDup faceIds
            /\ forall id, In id faceIds -> table_get face_id id (db_faces (w_db w)) = None)
    /\ db_faces (w_db (world r)) = fst (table_bulkAdd face_id added (db_faces (w_db w)))
    /\ ((snd (table_bulkAdd face_id added (db_faces (w_db w))) = false
         /\ outcome r = Rejected (Error "BulkError")
         /\ db_videos (w_db (world r)) = db_videos (w_db w)
         /\ calls_of (trace r) = [CallAddFaces faceIds])
        \/ (snd (table_bulkAdd face_id added (db_faces (w_db w))) = true
            /\ table_get video_id videoId (db_videos (w_db w)) <> None
            /\ outcome r = Rejected (Error "ConstraintError")
            /\ db_videos (w_db (world r)) = db_videos (w_db w))
        \/ (snd (table_bulkAdd face_id added (db_faces (w_db w))) = true
            /\ table_get video_id videoId (db_videos (w_db w)) = None
            /\ outcome r = Resolved tt
            /\ db_videos (w_db (world r))
               = table_insert video_id video (db_videos (w_db w)))).
Proof.
  intros Huser. cbv zeta.
  remember (handleUpload file analysisResult duration env w) as r eqn:Hr.
  unfold handleUpload in Hr. unfold bind at 1 in Hr. unfold get in Hr.
  rewrite Huser in Hr. unfold bind at 1 in Hr.
  destruct (collectFaces_ids userId env (ar_faces analysisResult) [] w)
    as (added & w1 & Hrun & Hids & Hnow & Hrand & Hdb & Hauth & Hall).
  rewrite Hrun in Hr. clear Hrun.
  cbn [app] in Hr. unfold bind at 1 in Hr. rewrite addFaces_exact in Hr. rewrite Hdb in Hr.
  exists added.
  exists {| video_id := generatedVideoId env w (List.length (ar_faces analysisResult));
            video_userId := userId; video_name := file_name file; video_file := file;
            video_description := ar_description analysisResult;
            video_duration := duration;
            video_faceIds := generatedFaceIds env w (List.length (ar_faces analysisResult));
            video_segments := ar_segments analysisResult;
            video_transcript := ar_transcript analysisResult;
            video_onScreenText := ar_onScreenText analysisResult |}.
  split; [exact Hids |]. split; [exact Hall |]. split; [repeat split |].
  split; [reflexivity |]. split.
  { rewrite (table_bulkAdd_ok _ face_id), Hids. split; intros [Hnd Hf]; (split; [exact Hnd |]).
    - intros id Hid. rewrite <- Hids in Hid. apply in_map_iff in Hid.
      destruct Hid as (f & <- & Hf'). now apply Hf.
    - intros f Hf'. apply Hf. rewrite <- Hids. now apply in_map. }
  destruct (snd (table_bulkAdd face_id added (db_faces (w_db w)))) eqn:Hok.
  2: { subst r. cbn [outcome world trace w_db with_db db_videos db_faces].
       rewrite Hdb. split; [reflexivity |]. left.
       do 3 (split; [reflexivity |]).
       destruct added as [| f added]; [discriminate Hok |].
       cbn [List.length Nat.ltb Nat.leb calls_of flat_map app]. now rewrite Hids. }
  unfold bind at 1, dateNow in Hr. unfold bind at 1, randomSuffix in Hr.
  unfold bind at 1 in Hr. rewrite addVideo_exact in Hr.
  cbn [w_db with_db with_nowCalls with_randomCalls db_videos video_id w_nowCalls
       w_randomCalls] in Hr.
  rewrite Hnow, Hrand, Hdb, Hids in Hr.
  change (("vid-" ++ string_of_Z (env_now env (w_nowCalls w
                                                 + List.length (ar_faces analysisResult)))
                  ++ "-" ++ env_random env (w_randomCalls w
                                              + List.length (ar_faces analysisResult)))%string)
    with (generatedVideoId env w (List.length (ar_faces analysisResult))) in Hr.
  destruct (table_get video_id
              (generatedVideoId env w (List.length (ar_faces analysisResult)))
              (db_videos (w_db w))) as [old |] eqn:Hvid.
  - subst r.
    cbn [outcome world trace w_db with_db with_nowCalls with_randomCalls db_videos db_faces].
    rewrite Hdb. split; [reflexivity |]. right. left.
    split; [reflexivity |]. split; [discriminate |]. split; reflexivity.
  - match type of Hr with
    | context [loadUserData env ?w4] =>
        destruct (loadUserData_keeps_db env w4) as [Hdb5 Hout5];
        destruct (loadUserData env w4) as [o5 w5 t5]
    end.
    cbn [outcome world trace] in *. subst o5 r. cbn [outcome world trace].
    rewrite Hdb5.
    cbn [w_db with_db with_nowCalls with_randomCalls db_videos db_faces]. rewrite Hdb.
    split; [reflexivity |]. right. right. now repeat split.
Qed.

(** X22. When an upload is stored.  [handleUpload] builds the id of each
    face, and then the id of the video, from the clock and the random
    suffix, read once for each.  The upload succeeds exactly when these ids
    are free: the ids of the faces differ from each other and from the keys
    of the stored faces, and the id of the video is not the key of a stored
    video.  When it succeeds the video is stored under its generated id with
    the generated face ids.  When an id of a face is taken the upload is
    rejected before the video is added; when only the id of the video is
    taken every face is stored and the video is not. *)
Theorem upload_stored_iff_ids_free :
  forall env w file analysisResult duration userId,
    truthyUserId (currentUser (w_auth w)) = Some userId ->
    let r := handleUpload file analysisResult duration env w in
    let n := List.length (ar_faces analysisResult) in
    let faceIds := generatedFaceIds env w n in
    let videoId := generatedVideoId env w n in
    let facesFree :=
      NoDup faceIds
      /\ forall id, In id faceIds -> table_get face_id id (db_faces (w_db w)) = None in
    let videoFree := table_get video_id videoId (db_videos (w_db w)) = None in
    (outcome r = Resolved tt <-> facesFree /\ videoFree)
    /\ (outcome r = Resolved tt ->
        exists video,
          table_get video_id videoId (db_videos (w_db (world r))) = Some video
          /\ video_faceIds video = faceIds
          /\ video_userId video = userId /\ video_file video = file)
    /\ (~ facesFree ->
        outcome r = Rejected (Error "BulkError")
        /\ db_videos (w_db (world r)) = db_videos (w_db w)
        /\ calls_of (trace r) = [CallAddFaces faceIds])
    /\ (facesFree -> ~ videoFree ->
        outcome r = Rejected (Error "ConstraintError")
        /\ db_videos (w_db (world r)) = db_videos (w_db w)
        /\ forall id, In id faceIds ->
             table_get face_id id (db_faces (w_db (world r))) <> None).
Proof.
  intros env w file analysisResult duration userId Huser. cbv zeta.
  destruct (handleUpload_by_ids env w file analysisResult duration userId Huser)
    as (added & video & Hids & Hall & Hvideo & Hvid & Hfree & Hfaces & Hcases).
  cbv zeta in *.
  destruct Hcases as [(Hok & Hout & Hvideos & Hcalls)
                     | [(Hok & Hused & Hout & Hvideos) | (Hok & Hnone & Hout & Hvideos)]].
  - assert (Hnot : ~ (NoDup (generatedFaceIds env w (List.length (ar_faces analysisResult)))
                      /\ forall id,
                           In id (generatedFaceIds env w
                                    (List.length (ar_faces analysisResult))) ->
                           table_get face_id id (db_faces (w_db w)) = None)).
    { intros H. apply Hfree in H. congruence. }
    rewrite Hout. split; [split; [discriminate | intros [H _]; contradiction] |].
    split; [discriminate |]. split; [intros _; now repeat split |].
    intros H. contradiction.
  - rewrite Hout. split; [split; [discriminate | intros [_ H]; contradiction] |].
    split; [discriminate |]. split; [intros H; exfalso; apply H; now apply Hfree |].
    intros _ _. split; [reflexivity |]. split; [exact Hvideos |].
    intros id Hid. rewrite Hfaces. rewrite <- Hids in Hid. apply in_map_iff in Hid.
    destruct Hid as (f & <- & Hf).
    destruct (table_bulkAdd_all _ face_id added (db_faces (w_db w)) Hok f Hf) as [Hin _].
    intros Hn. apply (proj1 (table_get_None _ face_id _ _) Hn f Hin). reflexivity.
  - split; [split; [intros _; split; [now apply Hfree | exact Hnone] | intros _; exact Hout] |].
    split.
    { intros _. exists video. rewrite Hvideos, <- Hvid.
      split; [apply table_get_inserted; now rewrite Hvid |].
      destruct Hvideo as (Hu & _ & Hf & _ & _ & Hi & _). now repeat split. }
    split; [intros H; exfalso; apply H; now apply Hfree | intros _ H; contradiction].
Qed.

Lemma upload_stored_iff_ids_free_witness :
  truthyUserId (currentUser (w_auth sampleWorld)) = Some 1%Z
  /\ outcome (handleUpload sampleFile
                {| ar_description := "a beach"; ar_faces := [];
                   ar_segments := []; ar_transcript := "";
                   ar_onScreenText := [] |}
                (Finite 26) sampleEnv sampleWorld) = Resolved tt.
Proof.
  split; [reflexivity |].
  apply (proj2 (proj1 (upload_stored_iff_ids_free sampleEnv sampleWorld sampleFile
                         {| ar_description := "a beach"; ar_faces := [];
                            ar_segments := []; ar_transcript := "";
                            ar_onScreenText := [] |}
                         (Finite 26) 1%Z eq_refl))).
  split; [split; [constructor | intros id []] |].
  vm_compute. reflexivity.
Defined.



(** ** An upload and a reload of the page *)

(** X24. An uploaded video is there after a reload.  When the user who is
    logged in, with the key in the session storage, uploads a video and the
    upload succeeds, then after the page is loaded again, the session is
    checked and the data are loaded, the same user is the current user, the
    library is the stored library of that user and holds the uploaded video
    with the object URL of its file, and the chat is empty. *)
Theorem upload_survives_reload :
  forall env w file analysisResult duration u userId,
    usersOk w ->
    currentUser (w_auth w) = Some u ->
    In u (db_users (w_db w)) ->
    user_id u = Some userId ->
    w_session w = Some (idString u) ->
    let r := handleUpload file analysisResult duration env w in
    outcome r = Resolved tt ->
    let w2 := after loadUserData env (after checkLoggedInUser env (reload (world r))) in
    currentUser (w_auth w2) = Some u
    /\ videos (w_app w2) = libraryOf env userId (w_db (world r))
    /\ (exists video,
          videoOf userId file analysisResult duration
                  (generatedFaceIds env w (List.length (ar_faces analysisResult))) video
          /\ In {| ui_video := video; ui_url := env_createObjectURL env file |}
                (videos (w_app w2)))
    /\ allFaces (w_app w2) = db_getFacesForUser userId (w_db (world r))
    /\ chatHistory (w_app w2) = []
    /\ w_db w2 = w_db (world r).
Proof.
  intros env w file analysisResult duration u userId (Hwf & Hkeys & Hemails) Hcur Hin Hid
    Hsession. cbv zeta. intros Hout.
  destruct (wfUsers_In _ _ Hwf Hin) as (k & Hk & Hrange).
  rewrite Hid in Hk. inversion Hk; subst k. clear Hk.
  assert (Huser : truthyUserId (currentUser (w_auth w)) = Some userId).
  { rewrite Hcur. unfold truthyUserId. rewrite Hid.
    destruct (Z.eqb_spec userId 0); [lia | reflexivity]. }
  destruct (handleUpload_by_ids env w file analysisResult duration userId Huser)
    as (added & video & Hids & Hall & Hvideo & Hvid & Hfree & Hfaces & Hcases).
  destruct (handleUpload_db env w file analysisResult duration userId Huser)
    as (newFaces' & video' & _ & _ & Husers & _).
  destruct (handleUpload_page env w file analysisResult duration userId Huser)
    as [_ Hres].
  cbv zeta in *.
  destruct Hcases as [(_ & Hrej & _) | [(_ & _ & Hrej & _) | (Hok & Hnone & _ & Hvideos)]];
    try congruence.
  destruct (Hres Hout) as (w4 & (P1 & _) & Hdb & Hw).
  assert (Hsession' : w_session (world (handleUpload file analysisResult duration env w))
                      = Some (string_of_Z userId)).
  { rewrite Hw. cbn. rewrite P1, Hsession. unfold idString. now rewrite Hid. }
  assert (Hne : String.eqb (string_of_Z userId) "" = false).
  { apply String.eqb_neq. intros E.
    pose proof (parseInt10_string_of_Z userId) as P. rewrite E in P. discriminate. }
  assert (Hget : db_getUserById userId
                   (w_db (world (handleUpload file analysisResult duration env w)))
                 = Some u).
  { apply getUserById_In; [| now rewrite Husers | exact Hid].
    unfold userKeysDistinct. now rewrite Husers. }
  assert (Htr : truthyUserId (Some u) = Some userId) by (now rewrite <- Hcur).
  destruct (checkLoggedInUser_world env
              (reload (world (handleUpload file analysisResult duration env w))))
    as [t Hrun].
  unfold after. rewrite Hrun. cbn [world].
  match goal with
  | |- context [loadUserData env ?wc] =>
      assert (Hcur1 : currentUser (w_auth wc) = Some u)
  end.
  { cbn [w_auth with_auth currentUser reload w_session w_db].
    now rewrite Hsession', Hne, parseInt10_string_of_Z, Hget. }
  rewrite loadUserData_run, Hcur1, Htr.
  cbn [world w_auth w_app w_db with_app with_auth reload currentUser videos allFaces
       chatHistory put_isLoading put_allFaces put_videos initialApp] in *.
  fold (libraryOf env userId
          (w_db (world (handleUpload file analysisResult duration env w)))).
  split; [exact Hcur1 |]. split; [reflexivity |]. split.
  { exists video. split; [exact Hvideo |].
    destruct Hvideo as (Hvuser & _ & Hvfile & _).
    apply stored_video_in_library; [| exact Hvuser | exact Hvfile].
    rewrite Hvideos.
    apply (Permutation_in video (Permutation_sym (table_insert_perm _ video_id video _))).
    now left. }
  repeat split.
Qed.

Lemma upload_survives_reload_witness :
  usersOk sampleWorld
  /\ currentUser
       (w_auth (after loadUserData sampleEnv
                  (after checkLoggedInUser sampleEnv
                     (reload (world (handleUpload sampleFile
                                       {| ar_description := "a beach"; ar_faces := [];
                                          ar_segments := []; ar_transcript := "";
                                          ar_onScreenText := [] |}
                                       (Finite 26) sampleEnv sampleWorld))))))
     = Some ann.
Proof.
  assert (H : usersOk sampleWorld).
  { split; [reflexivity |]. split; repeat constructor; intros []. }
  split; [exact H |].
  refine (proj1 (upload_survives_reload sampleEnv sampleWorld sampleFile
                   {| ar_description := "a beach"; ar_faces := [];
                      ar_segments := []; ar_transcript := "";
                      ar_onScreenText := [] |}
                   (Finite 26) ann 1%Z H eq_refl _ eq_refl eq_refl _)).
  - left. reflexivity.
  - vm_compute. reflexivity.
Defined.

(** ** The messages of the upload dialog *)

Lemma captureLoop_rejection file interval env w remaining : forall i frames e,
  outcome (captureLoop file interval i remaining frames env w) = Rejected e ->
  exists t, In t (seekTimes interval i remaining)
            /\ e = Error ("Seek timed out at " ++ env_showNumber env t ++ "s")%string.
Proof.
  induction remaining as [| r IH]; intros i frames e; simpl; [discriminate |].
  unfold bind. rewrite captureFrameAt_run.
  destruct (env_seeked env file (jsMulPos i interval)) as [data |] eqn:E.
  - specialize (IH (Pos.succ i) (frames ++ [data]) e).
    destruct (captureLoop file interval (Pos.succ i) r (frames ++ [data]) env w)
      as [o w1 t1]. cbn [outcome] in *. intros H.
    destruct (IH H) as (t & Hin & He). exists t. split; [now right | exact He].
  - cbn [outcome]. intros H. inversion H; subst.
    exists (jsMulPos i interval). split; [now left | reflexivity].
Qed.

Lemma extractFrames_rejection file frameCount env w e :
  outcome (extractFrames file frameCount env w) = Rejected e ->
  e = Error "Could not get canvas context"
  \/ e = Error "Error loading video for frame extraction. The file might be corrupt or in an unsupported format."
  \/ e = Error "Video has no duration or is invalid."
  \/ exists t, e = Error ("Seek timed out at " ++ env_showNumber env t ++ "s")%string.
Proof.
  destruct (env_getContext env) eqn:Hctx.
  2: { unfold extractFrames, bind, ask, throw. rewrite Hctx. cbn. intros H.
       inversion H. now left. }
  destruct (env_loadedmetadata env file) as [d |] eqn:Hmeta.
  2: { unfold extractFrames, bind, ask, await. rewrite Hctx, Hmeta. cbn. intros H.
       inversion H. right. now left. }
  rewrite (extractFrames_run file frameCount env w d Hctx Hmeta).
  destruct (isZero d || negb (isFinite d)).
  { cbn. intros H. inversion H. right. right. now left. }
  pose proof (captureLoop_rejection file (jsDivPos d (Pos.of_succ_nat frameCount)) env w
                frameCount 1 [] e) as Hloop.
  destruct (captureLoop _ _ _ _ _ env w) as [[frames | e'] w1 t1]; cbn [outcome] in *;
    [discriminate |].
  intros H. inversion H; subst e'. destruct (Hloop eq_refl) as (t & _ & ->).
  right. right. right. now exists t.
Qed.

(** X25. The upload dialog always settles, and these are all its
    messages.  A submission never rejects; with a file chosen the dialog is
    not analysing afterwards.  Its message afterwards is: none, when frames
    were extracted and the analysis succeeded; the request to select a file,
    when none is chosen; and otherwise ["Analysis failed: "] followed by the
    message about the canvas, about the file that cannot be loaded, about the
    duration, about a seek that timed out, or about the failed analysis.  The
    message about frames that could not be extracted is never shown, because
    an extraction that resolves has twelve frames. *)
Theorem upload_dialog_always_settles :
  forall env w,
    let r := submitUpload env w in
    let shown := modal_error (w_modal (world r)) in
    outcome r = Resolved tt
    /\ (videoFile (w_modal w) <> None -> isAnalyzing (w_modal (world r)) = false)
    /\ (videoFile (w_modal w) = None ->
        shown = Some "Please select a video file." /\ trace r = []
        /\ isAnalyzing (w_modal (world r)) = isAnalyzing (w_modal w))
    /\ (shown = None
        \/ shown = Some "Please select a video file."
        \/ shown = Some "Analysis failed: Could not get canvas context"
        \/ shown = Some "Analysis failed: Error loading video for frame extraction. The file might be corrupt or in an unsupported format."
        \/ shown = Some "Analysis failed: Video has no duration or is invalid."
        \/ (exists t, shown = Some ("Analysis failed: Seek timed out at "
                                    ++ env_showNumber env t ++ "s")%string)
        \/ shown = Some "Analysis failed: Failed to analyze video content with face detection.")
    /\ shown <> Some "Analysis failed: Could not extract frames from the video.".
Proof.
  intros env w. cbv zeta.
  assert (Hmain :
    outcome (submitUpload env w) = Resolved tt
    /\ (videoFile (w_modal w) <> None ->
        isAnalyzing (w_modal (world (submitUpload env w))) = false)
    /\ (videoFile (w_modal w) = None ->
        modal_error (w_modal (world (submitUpload env w)))
        = Some "Please select a video file."
        /\ trace (submitUpload env w) = []
        /\ isAnalyzing (w_modal (world (submitUpload env w))) = isAnalyzing (w_modal w))
    /\ (modal_error (w_modal (world (submitUpload env w))) = None
        \/ modal_error (w_modal (world (submitUpload env w)))
           = Some "Please select a video file."
        \/ modal_error (w_modal (world (submitUpload env w)))
           = Some "Analysis failed: Could not get canvas context"
        \/ modal_error (w_modal (world (submitUpload env w)))
           = Some "Analysis failed: Error loading video for frame extraction. The file might be corrupt or in an unsupported format."
        \/ modal_error (w_modal (world (submitUpload env w)))
           = Some "Analysis failed: Video has no duration or is invalid."
        \/ (exists t, modal_error (w_modal (world (submitUpload env w)))
                      = Some ("Analysis failed: Seek timed out at "
                              ++ env_showNumber env t ++ "s")%string)
        \/ modal_error (w_modal (world (submitUpload env w)))
           = Some "Analysis failed: Failed to analyze video content with face detection.")).
  { destruct (videoFile (w_modal w)) as [file |] eqn:Hfile.
    2: { unfold submitUpload, handleSubmit, bind, get, setModalError, modify.
         rewrite Hfile. cbn. split; [reflexivity |].
         split; [intros H; now contradiction H |].
         split; [intros _; now repeat split |]. right. now left. }
    destruct (outcome (extractFrames file 12 env w)) as [[frames duration] | e] eqn:Hex.
    2: { rewrite (submitUpload_extraction_fails env w file e Hfile Hex). cbn.
         split; [reflexivity |]. split; [reflexivity |]. split; [discriminate |].
         destruct (extractFrames_rejection file 12 env w e Hex)
           as [-> | [-> | [-> | [t ->]]]]; cbn [messageOr].
         - right. right. now left.
         - right. right. right. now left.
         - right. right. right. right. now left.
         - right. right. right. right. right. left. now exists t. }
    destruct (extractFrames_resolved file 12 env w frames duration Hex)
      as (_ & _ & _ & _ & Hlen).
    destruct (outcome (analyzeVideoContent frames duration env w)) as [result | e] eqn:Han.
    2: { rewrite (submitUpload_analysis_fails env w file frames duration e Hfile Hex);
           [| now destruct frames | exact Han].
         rewrite (analyzeVideoContent_rejection frames duration env w e Han). cbn.
         split; [reflexivity |]. split; [reflexivity |]. split; [discriminate |].
         do 6 right. reflexivity. }
    rewrite (submitUpload_analysis_resolves env w file frames duration result Hfile Hex Han).
    cbv zeta. cbn [outcome world w_modal with_modal with_app isAnalyzing put_isAnalyzing
                   modal_error].
    split; [reflexivity |]. split; [reflexivity |]. split; [discriminate |]. left.
    set (w1 := with_modal (put_modal_error None) (with_modal (put_isAnalyzing true) w)).
    destruct (truthyUserId (currentUser (w_auth w1))) as [userId |] eqn:Huser.
    - destruct (handleUpload_page env w1 file result duration userId Huser) as [Hrej Hres].
      destruct (handleUpload_db env w1 file result duration userId Huser)
        as (newFaces & video & _ & _ & _ & _ & Hcases). cbv zeta in *.
      destruct Hcases as [(Hout & _) | [Hr _]].
      + destruct (Hres Hout) as (w4 & (_ & _ & _ & _ & _ & P6) & _ & ->).
        cbn. now rewrite P6.
      + destruct (Hrej Hr) as (_ & _ & _ & _ & _ & P6). now rewrite P6.
    - now rewrite (handleUpload_skips env w1 file result duration Huser). }
  destruct Hmain as (H1 & H2 & H3 & H4).
  split; [exact H1 |]. split; [exact H2 |]. split; [exact H3 |]. split; [exact H4 |].
  intros Hbad.
  destruct H4 as [H | [H | [H | [H | [H | [[t H] | H]]]]]]; rewrite H in Hbad;
    discriminate Hbad.
Qed.
